(** * Portfolio page scripts: a shallow embedding and its properties

    The two scripts of the repository ([src/script.js], the class based
    version, and [src/unnamed/part_000], the IntersectionObserver version)
    wire DOM events to small controllers.  This development models

    - the browser's timer queue ([setTimeout] / [clearTimeout]) as an
      explicit queue with a logical clock in milliseconds,
    - [classList] as a finite set of tokens,
    - closures passed to [setTimeout] / [addEventListener] as constructors
      of a first-order type, interpreted by a [run] / [dispatch] function,
    - exceptions as the left summand of a result type.

    Pixel coordinates and milliseconds are integers in the modelled runs
    and are represented by [Z]; slide indices are integers or [NaN] (type
    [num]); JavaScript's [%] is the truncating remainder [Z.rem]. *)

From Stdlib Require Import ZArith List Lia Bool.
From stdpp Require Import base gmap strings list.

Open Scope Z_scope.

(** ** DOM token lists *)

Module ClassList.

Definition add (c : string) (l : gset string) : gset string := {[c]} ∪ l.
Definition remove (c : string) (l : gset string) : gset string := l ∖ {[c]}.
Definition contains (c : string) (l : gset string) : bool := bool_decide (c ∈ l).

End ClassList.

(** ** Exceptions and the state/exception monad *)

Inductive JsError : Type :=
| TypeError      (* member access on null / undefined *)
| NotFoundError  (* removeChild on a node that is not a child *)
| CommandError.  (* execCommand raised *)

Definition M (S A : Type) : Type := S -> (JsError + A) * S.

Definition throw {S A} (e : JsError) : M S A := fun s => (inl e, s).
Definition get_state {S} : M S S := fun s => (inr s, s).
Definition modify {S} (f : S -> S) : M S unit := fun s => (inr tt, f s).

#[global] Instance M_ret {S} : MRet (M S) := fun A (a : A) s => (inr a, s).
#[global] Instance M_bind {S} : MBind (M S) :=
  fun A B (k : A -> M S B) (m : M S A) s =>
    match m s with
    | (inl e, s') => (inl e, s')
    | (inr a, s') => k a s'
    end.

(** [try { m } catch (err) { handler }]: the effects [m] performed before it
    raised are kept, and the handler runs in the state reached. *)
Definition try_catch {S A} (m : M S A) (handler : JsError -> M S A) : M S A :=
  fun s => match m s with
           | (inl e, s') => handler e s'
           | (inr a, s') => (inr a, s')
           end.

(** ** The timer queue *)

Module Loop.
Section Queue.
Context {St Cb : Type}.

Record timer := Timer { t_id : nat; t_due : Z; t_cb : Cb }.

Record world := World {
  now : Z;                 (* logical clock, ms *)
  fresh : nat;             (* next timer handle *)
  pending : list timer;    (* scheduled, in creation order *)
  st : St                  (* the page's own state *)
}.

Definition with_st (f : St -> St) (w : world) : world :=
  {| now := now w; fresh := fresh w; pending := pending w; st := f (st w) |}.

Definition with_now (t : Z) (w : world) : world :=
  {| now := t; fresh := fresh w; pending := pending w; st := st w |}.

(** [setTimeout(cb, delay)]: negative delays count as 0. *)
Definition setTimeout (cb : Cb) (delay : Z) (w : world) : nat * world :=
  (fresh w,
   {| now := now w; fresh := S (fresh w);
      pending := pending w ++ [Timer (fresh w) (now w + Z.max 0 delay) cb];
      st := st w |}).

(** [clearTimeout(h)]: [None] is [undefined]; unknown handles are ignored. *)
Definition clearTimeout (h : option nat) (w : world) : world :=
  match h with
  | None => w
  | Some i =>
      {| now := now w; fresh := fresh w;
         pending := List.filter (fun t => negb (Nat.eqb (t_id t) i)) (pending w);
         st := st w |}
  end.

(** The timer that fires first: least due time, creation order on ties. *)
Fixpoint earliest (l : list timer) : option timer :=
  match l with
  | [] => None
  | t :: r =>
      match earliest r with
      | None => Some t
      | Some u => if t_due u <? t_due t then Some u else Some t
      end
  end.

Definition next_due (T : Z) (w : world) : option timer :=
  match earliest (pending w) with
  | Some t => if t_due t <=? T then Some t else None
  | None => None
  end.

Variable run : Cb -> world -> world.

(** Let the clock reach [T], firing every timer that is due on the way.
    A callback may schedule further timers, hence the fuel. *)
Fixpoint advance (fuel : nat) (T : Z) (w : world) : option world :=
  match next_due T w with
  | None => Some (with_now (Z.max (now w) T) w)
  | Some t =>
      match fuel with
      | O => None
      | S f =>
          advance f T
            (run (t_cb t)
               (with_now (Z.max (now w) (t_due t)) (clearTimeout (Some (t_id t)) w)))
      end
  end.

End Queue.
Arguments timer : clear implicits.
Arguments world : clear implicits.
End Loop.

(** ** JavaScript numbers used as indices

    An index is an integer or [NaN] ([parseInt] of a missing attribute, or a
    remainder by zero).  Comparisons with [NaN] are false and [NaN] is not
    strictly equal to anything. *)

Inductive num : Type := Int (z : Z) | NaN.

Module Num.
Definition lt (a b : num) : bool :=
  match a, b with Int x, Int y => x <? y | _, _ => false end.
Definition ge (a b : num) : bool :=
  match a, b with Int x, Int y => x >=? y | _, _ => false end.
Definition seq (a b : num) : bool :=      (* === *)
  match a, b with Int x, Int y => x =? y | _, _ => false end.
Definition add (a b : num) : num :=
  match a, b with Int x, Int y => Int (x + y) | _, _ => NaN end.
Definition sub (a b : num) : num :=
  match a, b with Int x, Int y => Int (x - y) | _, _ => NaN end.
Definition mul (a b : num) : num :=
  match a, b with Int x, Int y => Int (x * y) | _, _ => NaN end.
(* [%]: the sign follows the dividend; [x % 0] is [NaN]. *)
Definition rem (a b : num) : num :=
  match a, b with
  | Int x, Int y => if y =? 0 then NaN else Int (Z.rem x y)
  | _, _ => NaN
  end.
(* [l[i]]: [undefined] unless [i] is an index of [l]. *)
Definition lookup {A} (l : list A) (i : num) : option A :=
  match i with
  | Int z => if z <? 0 then None else l !! Z.to_nat z
  | NaN => None
  end.
Definition update {A} (f : A -> A) (i : num) (l : list A) : list A :=
  match i with
  | Int z => if z <? 0 then l else alter f (Z.to_nat z) l
  | NaN => l
  end.
Definition in_range (i : num) (n : Z) : Prop :=
  exists z, i = Int z /\ 0 <= z < n.
End Num.

(** ** Events delivered by the browser *)

Inductive Event : Type :=
| Click
| KeyDown (key : string)
| Resize
| Scroll
| TouchStart (clientX : Z)     (* e.touches[0].clientX *)
| TouchMove (clientX : Z)
| TouchEnd.

(** ** script.js, section 4: the slide carousel *)

Module Project.
Import Loop.

Record Slide := { slide_classes : gset string; slide_opacity : string }.

(* [data_slide] is [parseInt(dot.getAttribute('data-slide'))]. *)
Record Dot := { data_slide : num; dot_classes : gset string }.

Inductive Target := TDot (i : nat) | TPrevArrow | TNextArrow | TDocument.
Inductive Handler := OnDot (i : nat) | OnPrev | OnNext | OnKey.
Record Listener := { l_target : Target; l_event : string; l_handler : Handler }.

(* the closure scheduled by [showSlide] *)
Inductive Callback := FadeIn (index : num).

Record Carousel := {
  navDots : list Dot;
  projectSlides : list Slide;
  prevArrow : option Target;
  nextArrow : option Target;
  currentSlide : num;
  totalSlides : Z;
  listeners : list Listener
}.

Definition World := world Carousel Callback.

Definition set_currentSlide (i : num) (c : Carousel) : Carousel :=
  {| navDots := navDots c; projectSlides := projectSlides c;
     prevArrow := prevArrow c; nextArrow := nextArrow c;
     currentSlide := i; totalSlides := totalSlides c; listeners := listeners c |}.
Definition map_slides (f : list Slide -> list Slide) (c : Carousel) : Carousel :=
  {| navDots := navDots c; projectSlides := f (projectSlides c);
     prevArrow := prevArrow c; nextArrow := nextArrow c;
     currentSlide := currentSlide c; totalSlides := totalSlides c;
     listeners := listeners c |}.
Definition map_dots (f : list Dot -> list Dot) (c : Carousel) : Carousel :=
  {| navDots := f (navDots c); projectSlides := projectSlides c;
     prevArrow := prevArrow c; nextArrow := nextArrow c;
     currentSlide := currentSlide c; totalSlides := totalSlides c;
     listeners := listeners c |}.
Definition add_listener (l : Listener) (c : Carousel) : Carousel :=
  {| navDots := navDots c; projectSlides := projectSlides c;
     prevArrow := prevArrow c; nextArrow := nextArrow c;
     currentSlide := currentSlide c; totalSlides := totalSlides c;
     listeners := listeners c ++ [l] |}.

(** What [document.querySelectorAll] / [querySelector] find. *)
Record Dom := {
  dom_dots : list Dot;
  dom_slides : list Slide;
  dom_prev : bool;
  dom_next : bool
}.

(** [target.addEventListener(ev, h)]; a [null] target raises. *)
Definition addEventListener (target : option Target) (ev : string) (h : Handler)
  : M World unit :=
  match target with
  | None => throw TypeError
  | Some t => modify (with_st (add_listener {| l_target := t; l_event := ev; l_handler := h |}))
  end.

(** The bound-check at the head of [showSlide]. *)
Definition bound (total : Z) (index : num) : num :=
  if Num.lt index (Int 0) then Int (total - 1)
  else if Num.ge index (Int total) then Int 0
  else index.

Definition hide (s : Slide) : Slide :=
  {| slide_classes := ClassList.remove "active" (slide_classes s); slide_opacity := "0" |}.
Definition reveal (s : Slide) : Slide :=
  {| slide_classes := ClassList.add "active" (slide_classes s); slide_opacity := "1" |}.
Definition dot_off (d : Dot) : Dot :=
  {| data_slide := data_slide d; dot_classes := ClassList.remove "active" (dot_classes d) |}.
Definition dot_mark (index : num) (d : Dot) : Dot :=
  if Num.seq (data_slide d) index
  then {| data_slide := data_slide d; dot_classes := ClassList.add "active" (dot_classes d) |}
  else d.

Definition showSlide (index : num) (w : World) : World :=
  let index := bound (totalSlides (st w)) index in
  let w := with_st (set_currentSlide index) w in
  let w := with_st (map_slides (fmap hide)) w in
  let w := with_st (map_dots (fmap dot_off)) w in
  let w := match Num.lookup (projectSlides (st w)) index with
           | Some _ => snd (setTimeout (FadeIn index) 150 w)
           | None => w
           end in
  with_st (map_dots (fmap (dot_mark index))) w.

Definition showNextSlide (w : World) : World :=
  showSlide (Num.add (currentSlide (st w)) (Int 1)) w.

Definition showPrevSlide (w : World) : World :=
  showSlide (Num.sub (currentSlide (st w)) (Int 1)) w.

Definition run (cb : Callback) (w : World) : World :=
  match cb with
  | FadeIn index => with_st (map_slides (Num.update reveal index)) w
  end.

Definition dispatch (h : Handler) (e : Event) (w : World) : World :=
  match h with
  | OnDot i =>
      match navDots (st w) !! i with
      | Some d => showSlide (data_slide d) w
      | None => w
      end
  | OnPrev => showPrevSlide w
  | OnNext => showNextSlide w
  | OnKey =>
      match e with
      | KeyDown key =>
          let w := if String.eqb key "ArrowLeft" then showPrevSlide w else w in
          if String.eqb key "ArrowRight" then showNextSlide w else w
      | _ => w
      end
  end.

Fixpoint bind_dots (i : nat) (dots : list Dot) : M World unit :=
  match dots with
  | [] => mret tt
  | _ :: r => addEventListener (Some (TDot i)) "click" (OnDot i) ≫= fun _ => bind_dots (S i) r
  end.

Definition init : M World unit :=
  w ← get_state;
  if totalSlides (st w) =? 0 then mret tt
  else
    bind_dots 0 (navDots (st w)) ≫= fun _ =>
    (match prevArrow (st w) with
     | Some _ => addEventListener (prevArrow (st w)) "click" OnPrev
     | None => mret tt
     end) ≫= fun _ =>
    (match nextArrow (st w) with
     | Some _ => addEventListener (nextArrow (st w)) "click" OnNext
     | None => mret tt
     end) ≫= fun _ =>
    addEventListener (Some TDocument) "keydown" OnKey.

(** [new ProjectCarousel()], run at time [t0] with an empty timer queue. *)
Definition constructor (d : Dom) (t0 : Z) : (JsError + unit) * World :=
  init {| now := t0; fresh := 1; pending := [];
          st := {| navDots := dom_dots d;
                   projectSlides := dom_slides d;
                   prevArrow := if dom_prev d then Some TPrevArrow else None;
                   nextArrow := if dom_next d then Some TNextArrow else None;
                   currentSlide := Int 0;
                   totalSlides := Z.of_nat (length (dom_slides d));
                   listeners := [] |} |}.

End Project.

(** ** Debounce (both scripts)

    [debounce(func, wait)] returns a closure over a private variable
    [timeout].  The variable lives in the page state and is reached through
    [timeout_get] / [timeout_set]; [later args] names the inner closure
    [later], which captures the arguments of the call that created it. *)

Module Debounce.
Section Closure.
Import Loop.
Context {St Cb Args : Type}.
Variable timeout_get : St -> option nat.
Variable timeout_set : option nat -> St -> St.
Variable later : Args -> Cb.
Variable wait : Z.

Definition executedFunction (args : Args) (w : world St Cb) : world St Cb :=
  let w := clearTimeout (timeout_get (st w)) w in
  let '(h, w) := setTimeout (later args) wait w in
  with_st (timeout_set (Some h)) w.

Variable func : Args -> world St Cb -> world St Cb.

(* the body of [later]: clearTimeout(timeout); func(...args) *)
Definition run_later (args : Args) (w : world St Cb) : world St Cb :=
  func args (clearTimeout (timeout_get (st w)) w).

End Closure.
End Debounce.

(** ** script.js, section 5: the centered-card carousel *)

Module About.
Import Loop.

Record Card := { card_classes : gset string; offsetWidth : Z }.

(* [transform2] is twice the pixel offset last written to
   [style.transform] ([None]: never written); widths are integers, so the
   halves of the script stay exact. *)
Record Track := {
  container_width : Z;     (* aboutTrack.parentElement.offsetWidth *)
  transform2 : option num
}.

Inductive Target := TPrevBtn | TNextBtn | TWindow | TTrack.
Inductive Handler :=
  OnNext | OnPrev | OnResize | OnTouchStart | OnTouchMove | OnTouchEnd.
Record Listener := { l_target : Target; l_event : string; l_handler : Handler }.

Inductive Callback := InitialUpdate | ResizeLater.

Record Carousel := {
  aboutCards : list Card;
  aboutTrack : option Track;
  aboutPrevBtn : option Target;
  aboutNextBtn : option Target;
  currentAboutIndex : num;
  totalAboutCards : Z;
  listeners : list Listener;
  (* variables captured by the closures of init / initTouchSupport *)
  resize_timeout : option nat;
  startX : Z;
  currentX : Z;
  isDragging : bool
}.

Definition World := world Carousel Callback.

Definition set_index (i : num) (c : Carousel) : Carousel :=
  {| aboutCards := aboutCards c; aboutTrack := aboutTrack c;
     aboutPrevBtn := aboutPrevBtn c; aboutNextBtn := aboutNextBtn c;
     currentAboutIndex := i; totalAboutCards := totalAboutCards c;
     listeners := listeners c; resize_timeout := resize_timeout c;
     startX := startX c; currentX := currentX c; isDragging := isDragging c |}.
Definition set_cards (l : list Card) (c : Carousel) : Carousel :=
  {| aboutCards := l; aboutTrack := aboutTrack c;
     aboutPrevBtn := aboutPrevBtn c; aboutNextBtn := aboutNextBtn c;
     currentAboutIndex := currentAboutIndex c; totalAboutCards := totalAboutCards c;
     listeners := listeners c; resize_timeout := resize_timeout c;
     startX := startX c; currentX := currentX c; isDragging := isDragging c |}.
Definition set_track (t : option Track) (c : Carousel) : Carousel :=
  {| aboutCards := aboutCards c; aboutTrack := t;
     aboutPrevBtn := aboutPrevBtn c; aboutNextBtn := aboutNextBtn c;
     currentAboutIndex := currentAboutIndex c; totalAboutCards := totalAboutCards c;
     listeners := listeners c; resize_timeout := resize_timeout c;
     startX := startX c; currentX := currentX c; isDragging := isDragging c |}.
Definition add_listener (l : Listener) (c : Carousel) : Carousel :=
  {| aboutCards := aboutCards c; aboutTrack := aboutTrack c;
     aboutPrevBtn := aboutPrevBtn c; aboutNextBtn := aboutNextBtn c;
     currentAboutIndex := currentAboutIndex c; totalAboutCards := totalAboutCards c;
     listeners := listeners c ++ [l]; resize_timeout := resize_timeout c;
     startX := startX c; currentX := currentX c; isDragging := isDragging c |}.
Definition set_resize_timeout (h : option nat) (c : Carousel) : Carousel :=
  {| aboutCards := aboutCards c; aboutTrack := aboutTrack c;
     aboutPrevBtn := aboutPrevBtn c; aboutNextBtn := aboutNextBtn c;
     currentAboutIndex := currentAboutIndex c; totalAboutCards := totalAboutCards c;
     listeners := listeners c; resize_timeout := h;
     startX := startX c; currentX := currentX c; isDragging := isDragging c |}.
Definition set_touch (sx cx : Z) (drag : bool) (c : Carousel) : Carousel :=
  {| aboutCards := aboutCards c; aboutTrack := aboutTrack c;
     aboutPrevBtn := aboutPrevBtn c; aboutNextBtn := aboutNextBtn c;
     currentAboutIndex := currentAboutIndex c; totalAboutCards := totalAboutCards c;
     listeners := listeners c; resize_timeout := resize_timeout c;
     startX := sx; currentX := cx; isDragging := drag |}.

Record Dom := {
  dom_cards : list Card;
  dom_track : option Track;
  dom_prev : bool;
  dom_next : bool
}.

Definition addEventListener (target : option Target) (ev : string) (h : Handler)
  : M World unit :=
  match target with
  | None => throw TypeError
  | Some t => modify (with_st (add_listener {| l_target := t; l_event := ev; l_handler := h |}))
  end.

Definition mark (cur : num) (index : nat) (c : Card) : Card :=
  let cl := ClassList.remove "active" (card_classes c) in
  {| card_classes :=
       if Num.seq (Int (Z.of_nat index)) cur then ClassList.add "active" cl else cl;
     offsetWidth := offsetWidth c |}.

(* 2 * (containerWidth / 2 - cardWidth / 2 - index * (cardWidth + gap)) *)
Definition offset2 (cardWidth containerWidth : Z) (cur : num) : num :=
  let gap := 48 in
  Num.sub (Int (containerWidth - cardWidth))
          (Num.mul (Int 2) (Num.mul cur (Int (cardWidth + gap)))).

Definition updateCarousel (c : Carousel) : Carousel :=
  let c := set_cards (imap (mark (currentAboutIndex c)) (aboutCards c)) c in
  match aboutCards c, aboutTrack c with
  | card0 :: _, Some t =>
      set_track
        (Some {| container_width := container_width t;
                 transform2 := Some (offset2 (offsetWidth card0) (container_width t)
                                             (currentAboutIndex c)) |}) c
  | _, _ => c
  end.

(** The browser lays the page out again (the window was resized): from
    then on card [i] reports the width [cardWidth i] and the track's
    container the width [containerWidth].  The script takes no notice until
    it reads [offsetWidth] the next time. *)
Definition relayout (cardWidth : nat -> Z) (containerWidth : Z) (c : Carousel)
  : Carousel :=
  let c := set_cards
             (imap (fun i card => {| card_classes := card_classes card;
                                     offsetWidth := cardWidth i |})
                   (aboutCards c)) c in
  set_track ((fun t => {| container_width := containerWidth;
                          transform2 := transform2 t |}) <$> aboutTrack c) c.

Definition showNextCard (c : Carousel) : Carousel :=
  updateCarousel
    (set_index (Num.rem (Num.add (currentAboutIndex c) (Int 1))
                        (Int (totalAboutCards c))) c).

Definition showPrevCard (c : Carousel) : Carousel :=
  updateCarousel
    (set_index (Num.rem (Num.add (Num.sub (currentAboutIndex c) (Int 1))
                                 (Int (totalAboutCards c)))
                        (Int (totalAboutCards c))) c).

(** The three touch listeners of [initTouchSupport]. *)
Definition touchstart (x : Z) (c : Carousel) : Carousel :=
  set_touch x (currentX c) true c.

Definition touchmove (x : Z) (c : Carousel) : Carousel :=
  if isDragging c then set_touch (startX c) x true c else c.

Inductive Direction := Next | Prev.

(* which transition, if any, the touchend listener performs *)
Definition swipe (c : Carousel) : option Direction :=
  if isDragging c then
    let diff := startX c - currentX c in
    if Z.abs diff >? 50 then (if diff >? 0 then Some Next else Some Prev)
    else None
  else None.

Definition touchend (c : Carousel) : Carousel :=
  if isDragging c then
    let c := match swipe c with
             | Some Next => showNextCard c
             | Some Prev => showPrevCard c
             | None => c
             end in
    set_touch (startX c) (currentX c) false c
  else c.

Definition resize_debounced : unit -> World -> World :=
  Debounce.executedFunction resize_timeout set_resize_timeout (fun _ => ResizeLater) 250.

Definition run (cb : Callback) (w : World) : World :=
  match cb with
  | InitialUpdate => with_st updateCarousel w
  | ResizeLater =>
      Debounce.run_later resize_timeout (fun _ => with_st updateCarousel) tt w
  end.

Definition dispatch (h : Handler) (e : Event) (w : World) : World :=
  match h, e with
  | OnNext, _ => with_st showNextCard w
  | OnPrev, _ => with_st showPrevCard w
  | OnResize, _ => resize_debounced tt w
  | OnTouchStart, TouchStart x => with_st (touchstart x) w
  | OnTouchMove, TouchMove x => with_st (touchmove x) w
  | OnTouchEnd, _ => with_st touchend w
  | _, _ => w
  end.

Definition initTouchSupport : M World unit :=
  w ← get_state;
  match aboutTrack (st w) with
  | None => mret tt
  | Some _ =>
      addEventListener (Some TTrack) "touchstart" OnTouchStart ≫= fun _ =>
      addEventListener (Some TTrack) "touchmove" OnTouchMove ≫= fun _ =>
      addEventListener (Some TTrack) "touchend" OnTouchEnd
  end.

Definition init : M World unit :=
  w ← get_state;
  if totalAboutCards (st w) =? 0 then mret tt
  else
    modify (fun w => snd (setTimeout InitialUpdate 100 w)) ≫= fun _ =>
    (match aboutNextBtn (st w) with
     | Some _ => addEventListener (aboutNextBtn (st w)) "click" OnNext
     | None => mret tt
     end) ≫= fun _ =>
    (match aboutPrevBtn (st w) with
     | Some _ => addEventListener (aboutPrevBtn (st w)) "click" OnPrev
     | None => mret tt
     end) ≫= fun _ =>
    addEventListener (Some TWindow) "resize" OnResize ≫= fun _ =>
    initTouchSupport.

(** The object as the constructor leaves it before calling [init]. *)
Definition fields (d : Dom) : Carousel :=
  {| aboutCards := dom_cards d;
     aboutTrack := dom_track d;
     aboutPrevBtn := if dom_prev d then Some TPrevBtn else None;
     aboutNextBtn := if dom_next d then Some TNextBtn else None;
     currentAboutIndex := Int 1;
     totalAboutCards := Z.of_nat (length (dom_cards d));
     listeners := [];
     resize_timeout := None;
     startX := 0; currentX := 0; isDragging := false |}.

(** The window is resized: the layout changes and the resize listener runs. *)
Definition resized (cardWidth : nat -> Z) (containerWidth : Z) (w : World) : World :=
  dispatch OnResize Resize (with_st (relayout cardWidth containerWidth) w).

(** [new AboutCarousel()], run at time [t0] with an empty timer queue. *)
Definition constructor (d : Dom) (t0 : Z) : (JsError + unit) * World :=
  init {| now := t0; fresh := 1; pending := []; st := fields d |}.

End About.

(** ** The two scripts *)

Inductive Script := ScriptJs | Part000.

(** ** Clipboard helper (both scripts) *)

Module Clipboard.

Record Node := {
  tagName : string;
  value : string;
  style : list (string * string)
}.

(* DOM calls made on the document, in order *)
Inductive Op :=
| CreateElement (n : nat)
| AppendChild (n : nat)
| Select (n : nat)
| ExecCommand (cmd : string)
| RemoveChild (n : nat).

Record Document := {
  nodes : gmap nat Node;       (* every element created so far *)
  next_node : nat;             (* identity of the next created element *)
  body : list nat;             (* children of document.body, in order *)
  selection : option nat;      (* element whose text is selected *)
  system_clipboard : option string;
  ops : list Op
}.

(** How the platform answers the two calls the helper makes. *)
Inductive WriteOutcome := Resolved | Rejected.
Inductive CopyOutcome := CopyReturned (ok : bool) | CopyThrew.
Record Platform := { write : WriteOutcome; copy : CopyOutcome }.

Definition log (o : Op) (d : Document) : Document :=
  {| nodes := nodes d; next_node := next_node d; body := body d;
     selection := selection d; system_clipboard := system_clipboard d;
     ops := ops d ++ [o] |}.
Definition set_clipboard (s : option string) (d : Document) : Document :=
  {| nodes := nodes d; next_node := next_node d; body := body d;
     selection := selection d; system_clipboard := s; ops := ops d |}.
Definition set_body (b : list nat) (d : Document) : Document :=
  {| nodes := nodes d; next_node := next_node d; body := b;
     selection := selection d; system_clipboard := system_clipboard d;
     ops := ops d |}.
Definition set_nodes (m : gmap nat Node) (d : Document) : Document :=
  {| nodes := m; next_node := next_node d; body := body d;
     selection := selection d; system_clipboard := system_clipboard d;
     ops := ops d |}.

(* await navigator.clipboard.writeText(text) *)
Definition writeText (p : Platform) (text : string) : M Document unit :=
  match write p with
  | Resolved => modify (set_clipboard (Some text))
  | Rejected => throw TypeError
  end.

Definition createElement (tag : string) : M Document nat :=
  fun d =>
    (inr (next_node d),
     log (CreateElement (next_node d))
       {| nodes := <[next_node d := {| tagName := tag; value := ""; style := [] |}]> (nodes d);
          next_node := S (next_node d); body := body d;
          selection := selection d; system_clipboard := system_clipboard d;
          ops := ops d |}).

Definition set_value (n : nat) (v : string) : M Document unit :=
  modify (fun d => set_nodes
    (alter (fun x => {| tagName := tagName x; value := v; style := style x |}) n (nodes d)) d).

Definition set_style (n : nat) (sty : list (string * string)) : M Document unit :=
  modify (fun d => set_nodes
    (alter (fun x => {| tagName := tagName x; value := value x; style := sty |}) n (nodes d)) d).

(* a node that is already a child moves to the end *)
Definition appendChild (n : nat) : M Document unit :=
  modify (fun d =>
    log (AppendChild n)
        (set_body (List.filter (fun m => negb (Nat.eqb m n)) (body d) ++ [n]) d)).

Definition select (n : nat) : M Document unit :=
  modify (fun d =>
    log (Select n)
        {| nodes := nodes d; next_node := next_node d; body := body d;
           selection := Some n; system_clipboard := system_clipboard d;
           ops := ops d |}).

(* document.execCommand('copy'): returns whether the command worked, or
   raises; the selected element's text reaches the clipboard only when
   it worked *)
Definition execCommand (p : Platform) (cmd : string) : M Document bool :=
  fun d =>
    let d := log (ExecCommand cmd) d in
    match copy p with
    | CopyReturned true =>
        (inr true,
         set_clipboard
           (match selection d with
            | Some n => value <$> (nodes d !! n)
            | None => system_clipboard d
            end) d)
    | CopyReturned false => (inr false, d)
    | CopyThrew => (inl CommandError, d)
    end.

(* raises when [n] is not a child of the body *)
Definition removeChild (n : nat) : M Document unit :=
  fun d =>
    if existsb (Nat.eqb n) (body d)
    then (inr tt,
          log (RemoveChild n)
              (set_body (List.filter (fun m => negb (Nat.eqb m n)) (body d)) d))
    else (inl NotFoundError, log (RemoveChild n) d).

Definition textarea_style (v : Script) : list (string * string) :=
  match v with
  | ScriptJs => [("position", "fixed"); ("opacity", "0")]
  | Part000 => [("position", "fixed"); ("opacity", "0"); ("top", "0"); ("left", "0")]
  end.

Definition copyToClipboard (v : Script) (p : Platform) (text : string)
  : M Document bool :=
  try_catch
    (writeText p text ≫= fun _ => mret true)
    (fun _ =>
       textArea ← createElement "textarea";
       set_value textArea text ≫= fun _ =>
       set_style textArea (textarea_style v) ≫= fun _ =>
       appendChild textArea ≫= fun _ =>
       select textArea ≫= fun _ =>
       try_catch
         (execCommand p "copy" ≫= fun _ =>
          removeChild textArea ≫= fun _ =>
          mret true)
         (fun _ =>
            removeChild textArea ≫= fun _ =>
            mret false)).

(* the body's children are elements that exist *)
Definition wf (d : Document) : Prop :=
  Forall (fun n => (n < next_node d)%nat) (body d).

Definition count_op (o : Op) (l : list Op) : nat :=
  length (List.filter
    (fun x => match o, x with
              | CreateElement a, CreateElement b
              | AppendChild a, AppendChild b
              | Select a, Select b
              | RemoveChild a, RemoveChild b => Nat.eqb a b
              | ExecCommand a, ExecCommand b => String.eqb a b
              | _, _ => false
              end) l).

(* Spec reading of "the outcome of the fallback copy command": the
   command succeeded when it returned true. *)
Definition copy_succeeded (p : Platform) : bool :=
  match copy p with
  | CopyReturned ok => ok
  | CopyThrew => false
  end.

(* the DOM calls a run of the helper added *)
Definition new_ops (d d' : Document) : list Op := drop (length (ops d)) (ops d').

End Clipboard.

(** ** Toast notifier (both scripts) *)

Module Toast.
Import Loop.

Record Element := { textContent : string; classList : gset string }.

(* the closure scheduled by showToast *)
Inductive Callback := Hide.

(* [None]: the page has no element with id [toast] *)
Definition World := world (option Element) Callback.

Definition default_duration (v : Script) : Z :=
  match v with ScriptJs => 2000 | Part000 => 2500 end.

Definition showToast (v : Script) (message : string) (duration : option Z)
    (w : World) : World :=
  let duration := default (default_duration v) duration in
  match st w with
  | None => w
  | Some _ =>
      let w := with_st (fmap (fun t =>
                 {| textContent := message;
                    classList := ClassList.add "show" (classList t) |})) w in
      snd (setTimeout Hide duration w)
  end.

Definition run (cb : Callback) (w : World) : World :=
  match cb with
  | Hide => with_st (fmap (fun t =>
              {| textContent := textContent t;
                 classList := ClassList.remove "show" (classList t) |})) w
  end.

Definition shown (w : World) : bool :=
  match st w with
  | Some t => ClassList.contains "show" (classList t)
  | None => false
  end.

Definition text (w : World) : option string := textContent <$> st w.

(** A page with a toast element, loaded at time 0. *)
Definition page (t : Element) : World :=
  {| now := 0; fresh := 1; pending := []; st := Some t |}.

(** Two calls, at [t1] and [t2], observed once the clock has reached [T]
    and every timer due by then has fired. *)
Definition two_calls (v : Script) (fuel : nat) (t : Element)
    (t1 : Z) (m1 : string) (d1 : option Z)
    (t2 : Z) (m2 : string) (d2 : option Z) (T : Z) : option World :=
  w ← advance run fuel t1 (page t);
  w ← advance run fuel t2 (showToast v m1 d1 w);
  advance run fuel T (showToast v m2 d2 w).

End Toast.

(** ** A debounced function whose calls are recorded *)

Module Debounced.
Section Recorded.
Import Loop.
Context {Args : Type}.

Record Closure := { timeout : option nat; calls : list Args }.
Inductive Callback := Later (args : Args).

Definition World := world Closure Callback.

Definition set_timeout (h : option nat) (c : Closure) : Closure :=
  {| timeout := h; calls := calls c |}.

(* [func]: observed through the arguments it is called with *)
Definition func (args : Args) (w : World) : World :=
  with_st (fun c => {| timeout := timeout c; calls := calls c ++ [args] |}) w.

Definition debounced (wait : Z) : Args -> World -> World :=
  Debounce.executedFunction timeout set_timeout Later wait.

Definition run (cb : Callback) (w : World) : World :=
  match cb with
  | Later args => Debounce.run_later timeout func args w
  end.

(** [debounce(func, wait)] evaluated at time [t0]. *)
Definition create (t0 : Z) : World :=
  {| now := t0; fresh := 1; pending := [];
     st := {| timeout := None; calls := [] |} |}.

(** Time passes until the instant [t] of the next call.  The timers due
    before [t] fire on the way; a timer due at [t] itself is still pending
    when the call is made, as it is when two calls are made in a row with
    no time between them.  Times are whole milliseconds, so the timers due
    before [t] are those due by [t - 1]. *)
Definition until (fuel : nat) (t : Z) (w : World) : option World :=
  w ← advance run fuel (t - 1) w;
  Some (with_now (Z.max (now w) t) w).

(** A burst: each call happens [dt] ms after the one before it. *)
Fixpoint burst (fuel : nat) (wait : Z) (l : list (Z * Args)) (w : World)
  : option World :=
  match l with
  | [] => Some w
  | (dt, args) :: r =>
      w ← until fuel (now w + dt) w;
      burst fuel wait r (debounced wait args w)
  end.

(** The state between two calls of a burst: one timer is pending, it is the
    one [timeout] names, it carries the arguments [a] of the latest call
    and is due [wait] ms after that call; [func] has not run. *)
Definition armed (wait : Z) (a : Args) (w : World) : Prop :=
  exists h : nat,
    pending w = [Timer h (now w + Z.max 0 wait) (Later a)]
    /\ timeout (st w) = Some h
    /\ calls (st w) = [].

(* time from the start of a burst to its last call *)
Definition elapsed (l : list (Z * Args)) : Z :=
  fold_right (fun p s => fst p + s) 0 l.

(* the arguments of the last call of a burst that started with [a] *)
Definition last_args (a : Args) (l : list (Z * Args)) : Args :=
  List.last (map snd l) a.

End Recorded.
Arguments Closure : clear implicits.
Arguments Callback : clear implicits.
Arguments World : clear implicits.
End Debounced.

(** ** Element classes shared by the two animation triggers *)

Module Page.
Definition Elem := nat.

(* the class list of every element; absent means empty *)
Definition classes_of (m : gmap nat (gset string)) (el : nat) : gset string :=
  default ∅ (m !! el).

Definition classList_add (el : nat) (c : string) (m : gmap nat (gset string))
  : gmap nat (gset string) :=
  <[el := ClassList.add c (classes_of m el)]> m.

Definition has_class (c : string) (m : gmap nat (gset string)) (el : nat) : bool :=
  ClassList.contains c (classes_of m el).

(* how often [el] goes from not having the marker to having it along a
   sequence of observations *)
Fixpoint gains (l : list bool) : nat :=
  match l with
  | a :: (b :: _) as r => (if negb a && b then 1 else 0) + gains r
  | _ => 0
  end%nat.

(* the states a page goes through when [act] performs the steps [l] *)
Fixpoint history {W A : Type} (act : A -> W -> W) (l : list A) (w : W) : list W :=
  match l with
  | [] => [w]
  | a :: r => w :: history act r (act a w)
  end.

(* once true, true ever after *)
Fixpoint sticky (l : list bool) : bool :=
  match l with
  | a :: (b :: _) as r => implb a b && sticky r
  | _ => true
  end.
End Page.

(** ** script.js, section 7: scroll animations by polling *)

Module ScrollAnimations.
Import Loop Page.

Record Rect := { top : Z; bottom : Z }.

(* what layout reports at the moment of a check *)
Record Viewport := {
  innerHeight : Z;
  clientHeight : Z;
  getBoundingClientRect : nat -> Rect
}.

Definition isInViewport (v : Viewport) (element : nat) (offset : Z) : bool :=
  let rect := getBoundingClientRect v element in
  let h := if innerHeight v =? 0 then clientHeight v else innerHeight v in
  (top rect <=? h - offset) && (bottom rect >=? offset).

Inductive Callback :=
| AddVisible (element : nat)
| ScrollLater
| ResizeLater.

Record State := {
  classes : gmap nat (gset string);
  animatedElements : list (nat * Z);     (* { element, delay } *)
  scroll_timeout : option nat;
  resize_timeout : option nat
}.

Definition World := world State Callback.

Definition map_classes (f : gmap nat (gset string) -> gmap nat (gset string))
    (s : State) : State :=
  {| classes := f (classes s); animatedElements := animatedElements s;
     scroll_timeout := scroll_timeout s; resize_timeout := resize_timeout s |}.
Definition push (el : nat) (delay : Z) (s : State) : State :=
  {| classes := classes s; animatedElements := animatedElements s ++ [(el, delay)];
     scroll_timeout := scroll_timeout s; resize_timeout := resize_timeout s |}.
Definition set_scroll_timeout (h : option nat) (s : State) : State :=
  {| classes := classes s; animatedElements := animatedElements s;
     scroll_timeout := h; resize_timeout := resize_timeout s |}.
Definition set_resize_timeout (h : option nat) (s : State) : State :=
  {| classes := classes s; animatedElements := animatedElements s;
     scroll_timeout := scroll_timeout s; resize_timeout := h |}.

(** What the selectors of [setupAnimations] match. *)
Record Dom := {
  section_headers : list nat;
  experience_cards : list nat;
  certification_cards : list nat;
  contact_icon_links : list nat;
  hero_elements : option (list nat);   (* [None]: no .hero-content *)
  hero_illustration : option nat
}.

(* els.forEach((el, index) => { el.classList.add(c); push({el, delay index}) }) *)
Fixpoint register (c : string) (delay : Z -> Z) (index : Z) (els : list nat)
    (s : State) : State :=
  match els with
  | [] => s
  | el :: r =>
      register c delay (index + 1) r
        (push el (delay index) (map_classes (classList_add el c) s))
  end.

Definition setupAnimations (d : Dom) (s : State) : State :=
  let s := register "fade-in" (fun _ => 0) 0 (section_headers d) s in
  let s := register "scale-in" (fun i => i * 100) 0 (experience_cards d) s in
  let s := register "scale-in" (fun i => i * 100) 0 (certification_cards d) s in
  let s := register "stagger-item" (fun i => i * 80) 0 (contact_icon_links d) s in
  let s := match hero_elements d with
           | Some els => register "fade-in" (fun i => i * 150) 0 els s
           | None => s
           end in
  match hero_illustration d with
  | Some el => register "slide-in-right" (fun _ => 200) 0 [el] s
  | None => s
  end.

Fixpoint check_each (v : Viewport) (l : list (nat * Z)) (w : World) : World :=
  match l with
  | [] => w
  | (element, delay) :: r =>
      check_each v r
        (if isInViewport v element 100
            && negb (has_class "visible" (classes (st w)) element)
         then snd (setTimeout (AddVisible element) delay w)
         else w)
  end.

Definition checkAnimations (v : Viewport) (w : World) : World :=
  check_each v (animatedElements (st w)) w.

Definition on_scroll : unit -> World -> World :=
  Debounce.executedFunction scroll_timeout set_scroll_timeout (fun _ => ScrollLater) 50.
Definition on_resize : unit -> World -> World :=
  Debounce.executedFunction resize_timeout set_resize_timeout (fun _ => ResizeLater) 100.

(* [v]: the layout when the callback runs *)
Definition run (v : Viewport) (cb : Callback) (w : World) : World :=
  match cb with
  | AddVisible element => with_st (map_classes (classList_add element "visible")) w
  | ScrollLater => Debounce.run_later scroll_timeout (fun _ => checkAnimations v) tt w
  | ResizeLater => Debounce.run_later resize_timeout (fun _ => checkAnimations v) tt w
  end.

Definition dispatch (e : Event) (w : World) : World :=
  match e with
  | Scroll => on_scroll tt w
  | Resize => on_resize tt w
  | _ => w
  end.

(** [new ScrollAnimations()] at time [t0] on a page whose elements carry
    the classes [cls]. *)
Definition constructor (d : Dom) (cls : gmap nat (gset string)) (v : Viewport)
    (t0 : Z) : World :=
  let s := {| classes := cls; animatedElements := [];
              scroll_timeout := None; resize_timeout := None |} in
  checkAnimations v {| now := t0; fresh := 1; pending := []; st := setupAnimations d s |}.

(** What happens next on the page: the browser delivers an event, or the
    clock reaches [T] and the first timer due by then (if any) fires. *)
Inductive Action :=
| Deliver (e : Event)
| Fire (v : Viewport) (T : Z).

Definition act (a : Action) (w : World) : World :=
  match a with
  | Deliver e => dispatch e w
  | Fire v T =>
      match next_due T w with
      | Some t => run v (t_cb t)
                    (with_now (Z.max (now w) (t_due t)) (clearTimeout (Some (t_id t)) w))
      | None => with_now (Z.max (now w) T) w
      end
  end.

(* the worlds the page goes through *)
Definition history : list Action -> World -> list World := Page.history act.

Definition visible (element : nat) (w : World) : bool :=
  has_class "visible" (classes (st w)) element.

(* whether the step [a], taken in [w], executes
   element.classList.add('visible') for [element]: the only place where
   the script does so is the timer callback of checkAnimations *)
Definition adds_visible (element : nat) (a : Action) (w : World) : bool :=
  match a with
  | Deliver _ => false
  | Fire _ T =>
      match next_due T w with
      | Some t =>
          match t_cb t with
          | AddVisible el => Nat.eqb el element
          | _ => false
          end
      | None => false
      end
  end.

(* how often it is executed along the steps [l] taken from [w] *)
Fixpoint executions (element : nat) (l : list Action) (w : World) : nat :=
  match l with
  | [] => 0
  | a :: r => ((if adds_visible element a w then 1 else 0)
               + executions element r (act a w))%nat
  end.

End ScrollAnimations.

(** ** part_000: scroll animations by IntersectionObserver *)

Module Observers.
Import Loop Page.

Record Entry := { target : nat; isIntersecting : bool }.

Inductive Callback := AddVisible (element : nat).

Record State := {
  classes : gmap nat (gset string);
  gridItems : list nat;
  header_observed : gset nat;     (* targets of headerObserver *)
  item_observed : gset nat        (* targets of itemObserver *)
}.

Definition World := world State Callback.

Definition map_classes (f : gmap nat (gset string) -> gmap nat (gset string))
    (s : State) : State :=
  {| classes := f (classes s); gridItems := gridItems s;
     header_observed := header_observed s; item_observed := item_observed s |}.
Definition header_observe (el : nat) (s : State) : State :=
  {| classes := classes s; gridItems := gridItems s;
     header_observed := {[el]} ∪ header_observed s; item_observed := item_observed s |}.
Definition header_unobserve (el : nat) (s : State) : State :=
  {| classes := classes s; gridItems := gridItems s;
     header_observed := header_observed s ∖ {[el]}; item_observed := item_observed s |}.
Definition item_observe (el : nat) (s : State) : State :=
  {| classes := classes s; gridItems := gridItems s;
     header_observed := header_observed s; item_observed := {[el]} ∪ item_observed s |}.
Definition item_unobserve (el : nat) (s : State) : State :=
  {| classes := classes s; gridItems := gridItems s;
     header_observed := header_observed s; item_observed := item_observed s ∖ {[el]} |}.

(* Array.prototype.indexOf: -1 when absent *)
Fixpoint indexOf (l : list nat) (x : nat) (from : Z) : Z :=
  match l with
  | [] => -1
  | y :: r => if Nat.eqb y x then from else indexOf r x (from + 1)
  end.

(* the callback of headerObserver *)
Fixpoint header_callback (entries : list Entry) (w : World) : World :=
  match entries with
  | [] => w
  | entry :: r =>
      header_callback r
        (if isIntersecting entry
         then with_st (fun s => header_unobserve (target entry)
                          (map_classes (classList_add (target entry) "visible") s)) w
         else w)
  end.

(* the callback of itemObserver *)
Fixpoint item_callback (entries : list Entry) (w : World) : World :=
  match entries with
  | [] => w
  | entry :: r =>
      item_callback r
        (if isIntersecting entry
         then
           let delay := Z.rem (indexOf (gridItems (st w)) (target entry) 0) 3 * 100 in
           let w := snd (setTimeout (AddVisible (target entry)) delay w) in
           with_st (item_unobserve (target entry)) w
         else w)
  end.

Definition run (cb : Callback) (w : World) : World :=
  match cb with
  | AddVisible element => with_st (map_classes (classList_add element "visible")) w
  end.

(** [initScrollAnimations()] at time [t0]. *)
Definition initScrollAnimations (sectionHeaders items : list nat)
    (cls : gmap nat (gset string)) (t0 : Z) : World :=
  let s := {| classes := cls; gridItems := items;
              header_observed := ∅; item_observed := ∅ |} in
  let s := foldl (fun s header =>
                    header_observe header
                      (map_classes (classList_add header "fade-up") s))
                 s sectionHeaders in
  let s := foldl (fun s item => item_observe item s) s items in
  {| now := t0; fresh := 1; pending := []; st := s |}.

(** The browser calls an observer with a batch of entries, or the clock
    reaches [T] and the first timer due by then (if any) fires.  The
    browser only reports targets that are being observed; the runs below
    do not rely on it. *)
Inductive Action :=
| HeaderEntries (entries : list Entry)
| ItemEntries (entries : list Entry)
| Fire (T : Z).

Definition act (a : Action) (w : World) : World :=
  match a with
  | HeaderEntries entries => header_callback entries w
  | ItemEntries entries => item_callback entries w
  | Fire T =>
      match next_due T w with
      | Some t => run (t_cb t)
                    (with_now (Z.max (now w) (t_due t)) (clearTimeout (Some (t_id t)) w))
      | None => with_now (Z.max (now w) T) w
      end
  end.

Definition history : list Action -> World -> list World := Page.history act.

Definition visible (element : nat) (w : World) : bool :=
  has_class "visible" (classes (st w)) element.

End Observers.

(** ** Gestures and the middle card (spec-side vocabulary) *)

Module Gesture.
Import About.

(** A completed touch gesture: the finger goes down at [x0], moves
    through [moves] (one touchmove event each) and is lifted. *)
Definition before_end (x0 : Z) (moves : list Z) (c : Carousel) : Carousel :=
  foldl (fun c x => touchmove x c) (touchstart x0 c) moves.

Definition perform (x0 : Z) (moves : list Z) (c : Carousel) : Carousel :=
  touchend (before_end x0 moves c).

(* where the finger is lifted: the last reported position *)
Definition end_x (x0 : Z) (moves : list Z) : Z := List.last moves x0.

(* start minus end *)
Definition displacement (x0 : Z) (moves : list Z) : Z := x0 - end_x x0 moves.

(** The transition the spec assigns to a gesture: none up to 50 px, one
    from 51 px on, [Next] when the displacement is leftward. *)
Definition expected (x0 : Z) (moves : list Z) : option Direction :=
  let d := displacement x0 moves in
  if Z.abs d <=? 50 then None
  else if d >? 0 then Some Next else Some Prev.

(** The card with as many cards before it as after it, if there is one. *)
Definition middle (n : Z) : option Z :=
  if Z.odd n && (0 <? n) then Some ((n - 1) / 2) else None.
End Gesture.

(** ** Bursts with arbitrary gaps (vocabulary for the debounce trace) *)

Module Bursts.
Import Loop Debounced.

(* the calls of [prev :: l] that are followed by a gap of more than
   [wait] ms: their timer fires before the next call replaces it *)
Fixpoint ran {Args : Type} (wait : Z) (prev : Args) (l : list (Z * Args)) : list Args :=
  match l with
  | [] => []
  | (dt, a) :: r => (if Z.max 0 wait <? dt then [prev] else []) ++ ran wait a r
  end.

(* no call of the burst is made at the very instant at which the timer of
   the call before it is due: there the browser, not the script, decides
   which of the two goes first *)
Definition no_tie {Args : Type} (wait : Z) (l : list (Z * Args)) : Prop :=
  Forall (fun p => fst p <> Z.max 0 wait) l.

(* between two calls: the timer of the latest call, carrying [a], is the
   only one pending, and [func] has run with the arguments [log] *)
Definition armed_after {Args : Type} (wait : Z) (a : Args) (log : list Args)
    (w : World Args) : Prop :=
  exists h : nat,
    pending w = [Timer h (now w + Z.max 0 wait) (Later a)]
    /\ timeout (st w) = Some h
    /\ calls (st w) = log.

End Bursts.

(** ** Several copies in a row *)

Module Copies.
Import Clipboard.

(* the helper called once per entry, each call with the platform's answers
   for that call *)
Definition copy_all (v : Script) (l : list (Platform * string)) (d : Document)
  : Document :=
  foldl (fun d c => snd (copyToClipboard v (fst c) (snd c) d)) d l.

(* how many of the calls had their primary write rejected *)
Definition rejected (l : list (Platform * string)) : nat :=
  length (List.filter (fun c => match write (fst c) with
                                | Rejected => true
                                | Resolved => false
                                end) l).

End Copies.

(** ** Vocabulary for the viewport checks *)

Module Checks.
Import Loop Page ScrollAnimations.

(* an element a check acts on: in view (100 px tolerance) and not marked *)
Definition due_for_reveal (v : Viewport) (cls : gmap nat (gset string)) (p : nat * Z)
  : bool :=
  isInViewport v (fst p) 100 && negb (has_class "visible" cls (fst p)).

(* when a timer is due and what it will run *)
Definition key (t : timer Callback) : Z * Callback := (t_due t, t_cb t).

(* no reveal of [element] is scheduled *)
Definition unscheduled (element : nat) (w : World) : Prop :=
  Forall (fun t => t_cb t <> AddVisible element) (pending w).

End Checks.

(** ** Timer handles *)

Module Handles.
Import Loop.

(* every pending timer has its own handle, and no handle is ahead of the
   counter: true of every queue that [setTimeout] built *)
Definition distinct {St Cb : Type} (w : world St Cb) : Prop :=
  NoDup (map t_id (pending w))
  /\ Forall (fun t => (t_id t < fresh w)%nat) (pending w).

End Handles.

(** ** Image modal (script.js section 6, part_000 initImageModal) *)

Module Modal.

(* the placeholder an expand button leads to (script.js) *)
Record Placeholder := { ph_text : string; ph_background : string }.

(* what the page has: the modal, its content element (.modal-image-placeholder
   in script.js, .modal-image in part_000) and its close button *)
Record Page := { has_modal : bool; has_content : bool; has_close : bool }.

Record State := {
  modal_classes : gset string;      (* #image-modal *)
  body_overflow : string;           (* document.body.style.overflow *)
  content_text : string;            (* script.js: modalContent.textContent *)
  content_background : string;      (* script.js: modalContent.style.background *)
  image_src : string;               (* part_000: modalImage.src *)
  image_alt : string                (* part_000: modalImage.alt *)
}.

Inductive Input :=
| ExpandClick (found : option Placeholder)
    (* script.js: click on an expand button; [found] is what
       closest('.project-image-container').querySelector(...) reaches *)
| ImageClick (src alt : string)
    (* part_000: click on a project image or the hero photo *)
| CloseClick
| ModalClick (on_backdrop : bool)
    (* a click inside the modal; [on_backdrop]: its target is the modal itself *)
| Key (key : string).

Definition openModal (s : State) : State :=
  {| modal_classes := ClassList.add "active" (modal_classes s);
     body_overflow := "hidden";
     content_text := content_text s; content_background := content_background s;
     image_src := image_src s; image_alt := image_alt s |}.

Definition closeModal (s : State) : State :=
  {| modal_classes := ClassList.remove "active" (modal_classes s);
     body_overflow := "";
     content_text := content_text s; content_background := content_background s;
     image_src := image_src s; image_alt := image_alt s |}.

Definition set_content (ph : Placeholder) (s : State) : State :=
  {| modal_classes := modal_classes s; body_overflow := body_overflow s;
     content_text := ph_text ph; content_background := ph_background ph;
     image_src := image_src s; image_alt := image_alt s |}.

Definition set_image (src alt : string) (s : State) : State :=
  {| modal_classes := modal_classes s; body_overflow := body_overflow s;
     content_text := content_text s; content_background := content_background s;
     image_src := src; image_alt := alt |}.

(* whether init got past its guard and bound the listeners *)
Definition wired (v : Script) (pg : Page) : bool :=
  match v with
  | ScriptJs => has_modal pg
  | Part000 => has_modal pg && has_content pg
  end.

(* the expand listener of script.js: reading through a missing container
   or placeholder, or writing to a missing content element, raises before
   anything is changed *)
Definition expand (pg : Page) (found : option Placeholder) : M State unit :=
  match found with
  | None => throw TypeError
  | Some ph =>
      if has_content pg then modify (fun s => openModal (set_content ph s))
      else throw TypeError
  end.

(* all listeners that an input reaches, in bubbling order *)
Definition handle (v : Script) (pg : Page) (i : Input) : M State unit :=
  if wired v pg then
    match i with
    | ExpandClick found =>
        match v with ScriptJs => expand pg found | Part000 => mret tt end
    | ImageClick src alt =>
        match v with
        | ScriptJs => mret tt
        | Part000 => modify (fun s => openModal (set_image src alt s))
        end
    | CloseClick => if has_close pg then modify closeModal else mret tt
    | ModalClick on_backdrop => if on_backdrop then modify closeModal else mret tt
    | Key key =>
        s ← get_state;
        if String.eqb key "Escape" && ClassList.contains "active" (modal_classes s)
        then modify closeModal else mret tt
    end
  else mret tt.

Definition step (v : Script) (pg : Page) (i : Input) (s : State) : State :=
  snd (handle v pg i s).

Definition is_open (s : State) : bool := ClassList.contains "active" (modal_classes s).

(* page scroll is locked exactly while the modal is open *)
Definition consistent (s : State) : Prop :=
  is_open s = true <-> body_overflow s = "hidden".

Definition history (v : Script) (pg : Page) : list Input -> State -> list State :=
  Page.history (step v pg).

End Modal.

(** ** Focus trap (part_000 trapFocus) *)

Module FocusTrap.

(* [focusable]: what element.querySelectorAll(...) returns, in document order *)
Definition firstElement (focusable : list nat) : option nat := head focusable.
Definition lastElement (focusable : list nat) : option nat := last focusable.

(* document.activeElement === x, where x may be undefined *)
Definition is_active (active : option nat) (x : option nat) : bool :=
  match active, x with
  | Some a, Some b => Nat.eqb a b
  | _, _ => false
  end.

(* x.focus() *)
Definition focus (x : option nat) : M (option nat) unit :=
  match x with
  | Some e => fun _ => (inr tt, Some e)
  | None => throw TypeError
  end.

(* the keydown listener; the state is document.activeElement, the result
   says whether preventDefault was called *)
Definition keydown (focusable : list nat) (key : string) (shiftKey : bool)
  : M (option nat) bool :=
  if negb (String.eqb key "Tab") then mret false
  else
    active ← get_state;
    if shiftKey then
      if is_active active (firstElement focusable)
      then focus (lastElement focusable) ≫= fun _ => mret true
      else mret false
    else
      if is_active active (lastElement focusable)
      then focus (firstElement focusable) ≫= fun _ => mret true
      else mret false.

End FocusTrap.

(** ** Navigation highlight (script.js section 10, part_000
    initActiveNavigation) *)

Module Nav.

Record Section := { sec_id : string; offsetTop : Z; offsetHeight : Z }.
Record Link := { href : string; link_classes : gset string }.

(* navLinks.forEach(link => { remove 'active'; if href === '#' + id add it }) *)
Definition mark (id : string) (l : Link) : Link :=
  let cl := ClassList.remove "active" (link_classes l) in
  {| href := href l;
     link_classes := if String.eqb (href l) ("#" ++ id)
                     then ClassList.add "active" cl else cl |}.

Definition mark_links (id : string) (links : list Link) : list Link := mark id <$> links.

Definition within (position : Z) (s : Section) : bool :=
  (position >=? offsetTop s) && (position <? offsetTop s + offsetHeight s).

(* script.js highlightNavigation, with window.scrollY *)
Definition highlightNavigation (scrollY : Z) (sections : list Section)
    (links : list Link) : list Link :=
  let scrollPosition := scrollY + 200 in
  foldl (fun links s => if within scrollPosition s
                        then mark_links (sec_id s) links else links)
        links sections.

(* part_000: the callback of the observer of initActiveNavigation *)
Record Entry := { target_id : string; isIntersecting : bool }.

Definition observer_callback (entries : list Entry) (links : list Link) : list Link :=
  foldl (fun links e => if isIntersecting e
                        then mark_links (target_id e) links else links)
        links entries.

Definition is_active (l : Link) : bool := ClassList.contains "active" (link_classes l).

(* the last section, in document order, that contains the position *)
Definition last_within (position : Z) (sections : list Section) : option Section :=
  last (List.filter (within position) sections).

Definition last_intersecting (entries : list Entry) : option Entry :=
  last (List.filter isIntersecting entries).

End Nav.

(** ** Mobile menu (part_000 initMobileMenu) *)

Module Menu.

Record State := { nav_classes : gset string; btn_classes : gset string }.

(* where a click lands *)
Inductive Target :=
| OnButton     (* inside .mobile-menu-btn *)
| OnLink       (* on a .nav-link inside .nav *)
| InNav        (* inside .nav, not on a link *)
| Elsewhere.   (* outside both *)

Definition toggle (c : string) (l : gset string) : gset string :=
  if ClassList.contains c l then ClassList.remove c l else ClassList.add c l.

Definition toggle_menu (s : State) : State :=
  {| nav_classes := toggle "active" (nav_classes s);
     btn_classes := toggle "active" (btn_classes s) |}.

Definition close_menu (s : State) : State :=
  {| nav_classes := ClassList.remove "active" (nav_classes s);
     btn_classes := ClassList.remove "active" (btn_classes s) |}.

(* the listeners a click reaches: the target's own, then the document's,
   which closes the menu unless the click is inside nav or the button *)
Definition click (t : Target) (s : State) : State :=
  match t with
  | OnButton => toggle_menu s
  | OnLink => close_menu s
  | InNav => s
  | Elsewhere => close_menu s
  end.

Definition nav_open (s : State) : bool := ClassList.contains "active" (nav_classes s).
Definition btn_open (s : State) : bool := ClassList.contains "active" (btn_classes s).

End Menu.

(** ** Contact buttons (initCopyableContacts and initEmailCopy) *)

Module Contact.
Import Loop.
Import Stdlib.Strings.Ascii.

Record Page := {
  document : Clipboard.Document;
  toast : option Toast.Element;
  button_classes : gset string       (* the clicked button *)
}.

Inductive Callback := HideToast | RemoveCopied.

Definition World := world Page Callback.

Definition set_document (d : Clipboard.Document) (p : Page) : Page :=
  {| document := d; toast := toast p; button_classes := button_classes p |}.
Definition set_toast (t : option Toast.Element) (p : Page) : Page :=
  {| document := document p; toast := t; button_classes := button_classes p |}.
Definition map_button (f : gset string -> gset string) (p : Page) : Page :=
  {| document := document p; toast := toast p; button_classes := f (button_classes p) |}.

(* s.includes(c) for a one-character string c *)
Fixpoint includes (c : Ascii.ascii) (s : string) : bool :=
  match s with
  | EmptyString => false
  | String a r => Ascii.eqb a c || includes c r
  end.

(* showToast on this page *)
Definition showToast (v : Script) (message : string) (duration : option Z)
    (w : World) : World :=
  let duration := default (Toast.default_duration v) duration in
  match toast (st w) with
  | None => w
  | Some t =>
      let w := with_st (set_toast (Some
                 {| Toast.textContent := message;
                    Toast.classList := ClassList.add "show" (Toast.classList t) |})) w in
      snd (setTimeout HideToast duration w)
  end.

Definition copied_message (v : Script) (contactInfo : string) : string :=
  let contactType := if includes "@"%char contactInfo then "Email" else "Phone" in
  match v with
  | ScriptJs => contactType ++ " copied to clipboard!"
  | Part000 => contactType ++ " copied to clipboard"
  end.

Definition copied_delay (v : Script) : Z :=
  match v with ScriptJs => 600 | Part000 => 1500 end.

(* what the helper's two sinks make of a missing attribute:
   navigator.clipboard.writeText converts null to the string 'null', the
   value setter of a textarea converts it to the empty string; only the
   sink that the platform lets succeed sees the text *)
Definition helper_text (p : Clipboard.Platform) (contactInfo : option string) : string :=
  match contactInfo with
  | Some s => s
  | None =>
      match Clipboard.write p with
      | Clipboard.Resolved => "null"
      | Clipboard.Rejected => ""
      end
  end.

(* the click listener of a .contact-copyable button; [contactInfo] is what
   getAttribute('data-contact') returns, [None] (null) when the button has
   no such attribute, and contactInfo.includes('@') then raises *)
Definition contact_click (v : Script) (p : Clipboard.Platform)
    (contactInfo : option string) : M World unit :=
  fun w =>
    let '(success, d) :=
      Clipboard.copyToClipboard v p (helper_text p contactInfo) (document (st w)) in
    let w := with_st (set_document d) w in
    match success with
    | inr true =>
        let w := with_st (map_button (ClassList.add "copied")) w in
        match contactInfo with
        | None => (inl TypeError, w)
        | Some s =>
            let w := showToast v (copied_message v s) None w in
            (inr tt, snd (setTimeout RemoveCopied (copied_delay v) w))
        end
    | inr false => (inr tt, showToast v "Copy failed. Please try again." None w)
    | inl e => (inl e, w)
    end.

(* the click listener of #email-link *)
Definition email_click (v : Script) (p : Clipboard.Platform) (w : World) : World :=
  let '(success, d) :=
    Clipboard.copyToClipboard v p "vedpawar1410@gmail.com" (document (st w)) in
  let w := with_st (set_document d) w in
  match success, v with
  | inr true, ScriptJs => showToast v "Email copied" None w
  | inr true, Part000 => showToast v "Email copied to clipboard" None w
  | inr false, ScriptJs => w
  | inr false, Part000 => showToast v "Failed to copy email" None w
  | inl _, _ => w
  end.

Definition run (cb : Callback) (w : World) : World :=
  match cb with
  | HideToast =>
      with_st (fun p => set_toast
        ((fun t => {| Toast.textContent := Toast.textContent t;
                      Toast.classList := ClassList.remove "show" (Toast.classList t) |})
           <$> toast p) p) w
  | RemoveCopied => with_st (map_button (ClassList.remove "copied")) w
  end.

Definition toast_text (w : World) : option string := Toast.textContent <$> toast (st w).
Definition toast_shown (w : World) : bool :=
  match toast (st w) with
  | Some t => ClassList.contains "show" (Toast.classList t)
  | None => false
  end.
Definition copied (w : World) : bool := ClassList.contains "copied" (button_classes (st w)).

(* the helper answers true unless the write was rejected and the copy
   command raised *)
Definition reports_success (p : Clipboard.Platform) : bool :=
  match Clipboard.write p, Clipboard.copy p with
  | Clipboard.Rejected, Clipboard.CopyThrew => false
  | _, _ => true
  end.

End Contact.

(** ** Sequences of arrow presses on the slide carousel *)

Module Arrows.




End Arrows.

(** ** Sample pages *)

(** A three-slide page, the start of both carousels on it, and one full
    turn of each. *)
Definition three_slides : Project.Dom :=
  {| Project.dom_dots :=
       [ {| Project.data_slide := Int 0; Project.dot_classes := {["nav-dot"; "active"]} |};
         {| Project.data_slide := Int 1; Project.dot_classes := {["nav-dot"]} |};
         {| Project.data_slide := Int 2; Project.dot_classes := {["nav-dot"]} |} ];
     Project.dom_slides :=
       [ {| Project.slide_classes := {["project-slide"; "active"]}; Project.slide_opacity := "" |};
         {| Project.slide_classes := {["project-slide"]}; Project.slide_opacity := "" |};
         {| Project.slide_classes := {["project-slide"]}; Project.slide_opacity := "" |} ];
     Project.dom_prev := true;
     Project.dom_next := true |}.

Definition about_cards (n : nat) : About.Dom :=
  {| About.dom_cards :=
       replicate n {| About.card_classes := {["about-card"]}; About.offsetWidth := 320 |};
     About.dom_track := Some {| About.container_width := 1200; About.transform2 := None |};
     About.dom_prev := true;
     About.dom_next := true |}.

Definition no_slides : Project.Dom :=
  {| Project.dom_dots :=
       [ {| Project.data_slide := Int 0; Project.dot_classes := {["nav-dot"]} |} ];
     Project.dom_slides := [];
     Project.dom_prev := true;
     Project.dom_next := true |}.

Definition empty_document : Clipboard.Document :=
  {| Clipboard.nodes := ∅; Clipboard.next_node := 0; Clipboard.body := [];
     Clipboard.selection := None; Clipboard.system_clipboard := None;
     Clipboard.ops := [] |}.

Definition sample_toast : Toast.Element :=
  {| Toast.textContent := ""; Toast.classList := {["toast"]} |}.

(* the toast 1500 ms after page load, showing a message whose hide timer
   is due at 2000 ms *)
Definition toast_showing : Toast.World :=
  {| Loop.now := 1500; Loop.fresh := 2;
     Loop.pending := [Loop.Timer 1 2000 Toast.Hide];
     Loop.st := Some {| Toast.textContent := "Email copied";
                        Toast.classList := {["toast"; "show"]} |} |}.

(* a page whose hero illustration (element 7) is in view *)
Definition hero_page : ScrollAnimations.Dom :=
  {| ScrollAnimations.section_headers := [];
     ScrollAnimations.experience_cards := [];
     ScrollAnimations.certification_cards := [];
     ScrollAnimations.contact_icon_links := [];
     ScrollAnimations.hero_elements := None;
     ScrollAnimations.hero_illustration := Some 7%nat |}.

Definition hero_in_view : ScrollAnimations.Viewport :=
  {| ScrollAnimations.innerHeight := 800;
     ScrollAnimations.clientHeight := 800;
     ScrollAnimations.getBoundingClientRect :=
       fun _ => {| ScrollAnimations.top := 120; ScrollAnimations.bottom := 520 |} |}.

(* load, scroll at once, let 50, 200 and 250 ms pass *)
Definition hero_run : list ScrollAnimations.World :=
  ScrollAnimations.history
    [ ScrollAnimations.Deliver Scroll;
      ScrollAnimations.Fire hero_in_view 50;
      ScrollAnimations.Fire hero_in_view 200;
      ScrollAnimations.Fire hero_in_view 250 ]
    (ScrollAnimations.constructor hero_page ∅ hero_in_view 0).

(* three cards, 100 ms after load: the first layout has been done *)
Definition about_laid_out : About.World :=
  {| Loop.now := 100; Loop.fresh := 2; Loop.pending := [];
     Loop.st := About.updateCarousel (Loop.st (snd (About.constructor (about_cards 3) 0))) |}.

(* the same run as steps from the loaded page *)
Definition hero_loaded : ScrollAnimations.World :=
  ScrollAnimations.constructor hero_page ∅ hero_in_view 0.

Definition hero_steps : list ScrollAnimations.Action :=
  [ ScrollAnimations.Deliver Scroll;
    ScrollAnimations.Fire hero_in_view 50;
    ScrollAnimations.Fire hero_in_view 200;
    ScrollAnimations.Fire hero_in_view 250 ].

(* the page at the end of that run: the hero illustration is marked *)
Definition hero_marked : ScrollAnimations.World :=
  foldl (fun w a => ScrollAnimations.act a w) hero_loaded hero_steps.

(* the same page scrolled so that the hero illustration is below the fold *)
Definition hero_below : ScrollAnimations.Viewport :=
  {| ScrollAnimations.innerHeight := 800;
     ScrollAnimations.clientHeight := 800;
     ScrollAnimations.getBoundingClientRect :=
       fun _ => {| ScrollAnimations.top := 900; ScrollAnimations.bottom := 1300 |} |}.

(* a page of part_000 with one section header and four grid items *)
Definition observed_page : Observers.World :=
  Observers.initScrollAnimations [1%nat] [2%nat; 3%nat; 4%nat; 5%nat] ∅ 0.

(* a page with the modal, its content element and its close button; the
   modal closed *)
Definition modal_page : Modal.Page :=
  {| Modal.has_modal := true; Modal.has_content := true; Modal.has_close := true |}.

Definition modal_closed : Modal.State :=
  {| Modal.modal_classes := {["modal"]}; Modal.body_overflow := "";
     Modal.content_text := ""; Modal.content_background := "";
     Modal.image_src := ""; Modal.image_alt := "" |}.

(* three sections stacked from the top of the page and their links *)
Definition nav_sections : list Nav.Section :=
  [ {| Nav.sec_id := "about"; Nav.offsetTop := 0; Nav.offsetHeight := 900 |};
    {| Nav.sec_id := "projects"; Nav.offsetTop := 900; Nav.offsetHeight := 1200 |};
    {| Nav.sec_id := "contact"; Nav.offsetTop := 2100; Nav.offsetHeight := 600 |} ].

Definition nav_links : list Nav.Link :=
  [ {| Nav.href := "#about"; Nav.link_classes := {["nav-link"; "active"]} |};
    {| Nav.href := "#projects"; Nav.link_classes := {["nav-link"]} |};
    {| Nav.href := "#contact"; Nav.link_classes := {["nav-link"]} |} ].

Definition menu_closed : Menu.State :=
  {| Menu.nav_classes := {["nav"]}; Menu.btn_classes := {["mobile-menu-btn"]} |}.

(* a page with a toast element and one contact button, nothing pending *)
Definition contact_page : Contact.World :=
  {| Loop.now := 0; Loop.fresh := 1; Loop.pending := [];
     Loop.st := {| Contact.document := empty_document;
                   Contact.toast := Some sample_toast;
                   Contact.button_classes := {["contact-copyable"]} |} |}.

Definition clipboard_works : Clipboard.Platform :=
  {| Clipboard.write := Clipboard.Resolved; Clipboard.copy := Clipboard.CopyReturned true |}.

Definition clipboard_broken : Clipboard.Platform :=
  {| Clipboard.write := Clipboard.Rejected; Clipboard.copy := Clipboard.CopyThrew |}.


(** * Properties *)

(** ** Token lists *)

Section ClassListFacts.

Lemma contains_add (c : string) (cl : gset string) :
  ClassList.contains c (ClassList.add c cl) = true.
Proof.
  unfold ClassList.contains, ClassList.add.
  apply bool_decide_eq_true_2, elem_of_union. left. apply elem_of_singleton. reflexivity.
Qed.

Lemma contains_remove (c : string) (cl : gset string) :
  ClassList.contains c (ClassList.remove c cl) = false.
Proof.
  unfold ClassList.contains, ClassList.remove.
  apply bool_decide_eq_false_2. intros H.
  apply elem_of_difference in H as [_ H]. apply H, elem_of_singleton. reflexivity.
Qed.

(* removing another class keeps the marker *)
Lemma contains_remove_other (c c' : string) (cl : gset string) :
  c <> c' -> ClassList.contains c cl = true ->
  ClassList.contains c (ClassList.remove c' cl) = true.
Proof.
  unfold ClassList.contains, ClassList.remove. intros Hne H.
  apply bool_decide_eq_true_1 in H. apply bool_decide_eq_true_2.
  apply elem_of_difference. split; [exact H |].
  intros Hin. apply elem_of_singleton in Hin. contradiction.
Qed.

End ClassListFacts.

(** ** Timer queue *)

Section LoopFacts.
Import Loop.
Context {St Cb : Type}.
Implicit Types (w : world St Cb) (l : list (timer Cb)).

Lemma st_setTimeout cb delay w : st (snd (setTimeout cb delay w)) = st w.
Proof. reflexivity. Qed.

Lemma st_clearTimeout h w : st (clearTimeout h w) = st w.
Proof. destruct h; reflexivity. Qed.

Lemma next_due_nil T w : pending w = [] -> next_due T w = None.
Proof. unfold next_due. intros ->. reflexivity. Qed.

Lemma advance_idle (run : Cb -> world St Cb -> world St Cb) fuel T w :
  next_due T w = None -> advance run fuel T w = Some (with_now (Z.max (now w) T) w).
Proof. intros H. destruct fuel; simpl; rewrite H; reflexivity. Qed.

Lemma advance_fire (run : Cb -> world St Cb -> world St Cb) fuel T w t :
  next_due T w = Some t ->
  advance run (S fuel) T w =
  advance run fuel T
    (run (t_cb t) (with_now (Z.max (now w) (t_due t)) (clearTimeout (Some (t_id t)) w))).
Proof. intros H. simpl. rewrite H. reflexivity. Qed.
End LoopFacts.

(** ** Carousels *)

Section ProjectFacts.
Import Loop Project.

Lemma showSlide_current index (w : World) :
  currentSlide (st (showSlide index w)) = bound (totalSlides (st w)) index.
Proof.
  unfold showSlide. cbn.
  destruct (Num.lookup _ _); reflexivity.
Qed.

Lemma showSlide_total index (w : World) :
  totalSlides (st (showSlide index w)) = totalSlides (st w).
Proof.
  unfold showSlide. cbn.
  destruct (Num.lookup _ _); reflexivity.
Qed.

Lemma bound_int n z : 1 <= n -> exists k, bound n (Int z) = Int k /\ 0 <= k < n.
Proof.
  intros Hn. unfold bound, Num.lt, Num.ge.
  destruct (Z.ltb_spec z 0).
  - exists (n - 1). split; [reflexivity | lia].
  - destruct (Z.geb_spec z n).
    + exists 0. split; [reflexivity | lia].
    + exists z. split; [reflexivity | lia].
Qed.

Lemma bound_succ n i : 1 <= n -> 0 <= i < n -> bound n (Int (i + 1)) = Int ((i + 1) mod n).
Proof.
  intros Hn Hi. unfold bound, Num.lt, Num.ge.
  destruct (Z.ltb_spec (i + 1) 0); [lia |].
  destruct (Z.geb_spec (i + 1) n).
  - assert (i + 1 = n) as -> by lia. rewrite Z_mod_same_full. reflexivity.
  - rewrite Z.mod_small by lia. reflexivity.
Qed.

Lemma bound_pred n i : 1 <= n -> 0 <= i < n -> bound n (Int (i - 1)) = Int ((i - 1) mod n).
Proof.
  intros Hn Hi. unfold bound, Num.lt, Num.ge.
  destruct (Z.ltb_spec (i - 1) 0).
  - assert (i = 0) as -> by lia. f_equal.
    replace (0 - 1) with (n - 1 + (-1) * n) by lia.
    rewrite Z_mod_plus_full, Z.mod_small by lia. reflexivity.
  - destruct (Z.geb_spec (i - 1) n); [lia |].
    rewrite Z.mod_small by lia. reflexivity.
Qed.

Lemma next_current (w : World) n i :
  1 <= n -> totalSlides (st w) = n -> currentSlide (st w) = Int i -> 0 <= i < n ->
  currentSlide (st (showNextSlide w)) = Int ((i + 1) mod n).
Proof.
  intros Hn Ht Hc Hi. unfold showNextSlide.
  rewrite showSlide_current, Ht, Hc. cbn [Num.add]. apply bound_succ; assumption.
Qed.

Lemma prev_current (w : World) n i :
  1 <= n -> totalSlides (st w) = n -> currentSlide (st w) = Int i -> 0 <= i < n ->
  currentSlide (st (showPrevSlide w)) = Int ((i - 1) mod n).
Proof.
  intros Hn Ht Hc Hi. unfold showPrevSlide.
  rewrite showSlide_current, Ht, Hc. cbn [Num.sub]. apply bound_pred; assumption.
Qed.

Lemma iter_next (k : nat) (w : World) n i :
  1 <= n -> totalSlides (st w) = n -> currentSlide (st w) = Int i -> 0 <= i < n ->
  totalSlides (st (Nat.iter k showNextSlide w)) = n
  /\ currentSlide (st (Nat.iter k showNextSlide w)) = Int ((i + Z.of_nat k) mod n).
Proof.
  intros Hn Ht Hc Hi. induction k as [|k [IHt IHc]].
  - simpl Nat.iter. split; [assumption |].
    rewrite Z.add_0_r, Z.mod_small by lia. assumption.
  - rewrite Nat.iter_succ. split.
    + unfold showNextSlide. rewrite showSlide_total. assumption.
    + rewrite (next_current _ n ((i + Z.of_nat k) mod n)); try assumption.
      * f_equal. rewrite Zplus_mod_idemp_l. f_equal. lia.
      * apply Z.mod_pos_bound. lia.
Qed.
End ProjectFacts.

Section AboutFacts.
Import About.

Lemma update_index c : currentAboutIndex (updateCarousel c) = currentAboutIndex c.
Proof.
  unfold updateCarousel. cbn.
  destruct (imap _ _); [reflexivity |]. destruct (aboutTrack c); reflexivity.
Qed.

Lemma update_total c : totalAboutCards (updateCarousel c) = totalAboutCards c.
Proof.
  unfold updateCarousel. cbn.
  destruct (imap _ _); [reflexivity |]. destruct (aboutTrack c); reflexivity.
Qed.

Lemma update_cards c :
  aboutCards (updateCarousel c) = imap (mark (currentAboutIndex c)) (aboutCards c).
Proof.
  unfold updateCarousel. cbn.
  destruct (imap _ _); [reflexivity |]. destruct (aboutTrack c); reflexivity.
Qed.

Lemma next_card_index c n i :
  1 <= n -> totalAboutCards c = n -> currentAboutIndex c = Int i -> 0 <= i ->
  currentAboutIndex (showNextCard c) = Int ((i + 1) mod n).
Proof.
  intros Hn Ht Hc Hi. unfold showNextCard.
  rewrite update_index. cbn. rewrite Ht, Hc. cbn.
  destruct (Z.eqb_spec n 0); [lia |].
  rewrite Z.rem_mod_nonneg by lia. reflexivity.
Qed.

Lemma prev_card_index c n i :
  1 <= n -> totalAboutCards c = n -> currentAboutIndex c = Int i -> 0 <= i < n ->
  currentAboutIndex (showPrevCard c) = Int ((i - 1) mod n).
Proof.
  intros Hn Ht Hc Hi. unfold showPrevCard.
  rewrite update_index. cbn. rewrite Ht, Hc. cbn.
  destruct (Z.eqb_spec n 0); [lia |].
  rewrite Z.rem_mod_nonneg by lia. f_equal.
  replace (i - 1 + n) with (i - 1 + 1 * n) by lia.
  apply Z_mod_plus_full.
Qed.

Lemma next_card_total c : totalAboutCards (showNextCard c) = totalAboutCards c.
Proof. unfold showNextCard. rewrite update_total. reflexivity. Qed.

Lemma iter_next_card (k : nat) c n i :
  1 <= n -> totalAboutCards c = n -> currentAboutIndex c = Int i -> 0 <= i < n ->
  totalAboutCards (Nat.iter k showNextCard c) = n
  /\ currentAboutIndex (Nat.iter k showNextCard c) = Int ((i + Z.of_nat k) mod n).
Proof.
  intros Hn Ht Hc Hi. induction k as [|k [IHt IHc]].
  - simpl Nat.iter. split; [assumption |].
    rewrite Z.add_0_r, Z.mod_small by lia. assumption.
  - rewrite Nat.iter_succ. split.
    + rewrite next_card_total. assumption.
    + rewrite (next_card_index _ n ((i + Z.of_nat k) mod n)); try assumption.
      * f_equal. rewrite Zplus_mod_idemp_l. f_equal. lia.
      * apply Z.mod_pos_bound. lia.
Qed.
End AboutFacts.

Lemma mod_cycle n i : 1 <= n -> 0 <= i < n -> (i + n) mod n = i.
Proof.
  intros Hn Hi. replace (i + n) with (i + 1 * n) by lia.
  rewrite Z_mod_plus_full. apply Z.mod_small. lia.
Qed.

Lemma mod_succ_pred n i : 1 <= n -> 0 <= i < n -> ((i + 1) mod n - 1) mod n = i.
Proof.
  intros Hn Hi. rewrite Zminus_mod_idemp_l.
  replace (i + 1 - 1) with i by lia. apply Z.mod_small. lia.
Qed.

Lemma mod_pred_succ n i : 1 <= n -> 0 <= i < n -> ((i - 1) mod n + 1) mod n = i.
Proof.
  intros Hn Hi. rewrite Zplus_mod_idemp_l.
  replace (i - 1 + 1) with i by lia. apply Z.mod_small. lia.
Qed.

(** C1.  On a carousel with [n >= 1] slides whose index [i] lies in
    [[0, n)], [n] applications of next lead back to [i], prev after next
    leads back to [i], and so does next after prev; this holds for the
    slide carousel and for the centered-card carousel. *)
Theorem next_cycle_prev_inverse (n i : Z) :
  1 <= n -> 0 <= i < n ->
  (forall w : Project.World,
      Project.totalSlides (Loop.st w) = n ->
      Project.currentSlide (Loop.st w) = Int i ->
      Project.currentSlide (Loop.st (Nat.iter (Z.to_nat n) Project.showNextSlide w)) = Int i
      /\ Project.currentSlide (Loop.st (Project.showPrevSlide (Project.showNextSlide w))) = Int i
      /\ Project.currentSlide (Loop.st (Project.showNextSlide (Project.showPrevSlide w))) = Int i)
  /\
  (forall c : About.Carousel,
      About.totalAboutCards c = n ->
      About.currentAboutIndex c = Int i ->
      About.currentAboutIndex (Nat.iter (Z.to_nat n) About.showNextCard c) = Int i
      /\ About.currentAboutIndex (About.showPrevCard (About.showNextCard c)) = Int i
      /\ About.currentAboutIndex (About.showNextCard (About.showPrevCard c)) = Int i).
Proof.
  intros Hn Hi. split.
  - intros w Ht Hc. repeat split.
    + destruct (iter_next (Z.to_nat n) w n i Hn Ht Hc Hi) as [_ ->].
      rewrite Z2Nat.id by lia. f_equal. apply mod_cycle; assumption.
    + rewrite (prev_current _ n ((i + 1) mod n)); try assumption.
      * f_equal. apply mod_succ_pred; assumption.
      * unfold Project.showNextSlide. rewrite showSlide_total. assumption.
      * apply next_current; assumption.
      * apply Z.mod_pos_bound. lia.
    + rewrite (next_current _ n ((i - 1) mod n)); try assumption.
      * f_equal. apply mod_pred_succ; assumption.
      * unfold Project.showPrevSlide. rewrite showSlide_total. assumption.
      * apply prev_current; assumption.
      * apply Z.mod_pos_bound. lia.
  - intros c Ht Hc. repeat split.
    + destruct (iter_next_card (Z.to_nat n) c n i Hn Ht Hc Hi) as [_ ->].
      rewrite Z2Nat.id by lia. f_equal. apply mod_cycle; assumption.
    + rewrite (prev_card_index _ n ((i + 1) mod n)); try assumption.
      * f_equal. apply mod_succ_pred; assumption.
      * rewrite next_card_total. assumption.
      * apply next_card_index; [assumption .. | lia].
      * apply Z.mod_pos_bound. lia.
    + assert (0 <= (i - 1) mod n < n) as Hm by (apply Z.mod_pos_bound; lia).
      rewrite (next_card_index _ n ((i - 1) mod n)); try assumption.
      * f_equal. apply mod_pred_succ; assumption.
      * unfold About.showPrevCard. rewrite update_total. assumption.
      * apply prev_card_index; assumption.
      * lia.
Qed.

Lemma next_cycle_prev_inverse_witness :
  let w := snd (Project.constructor three_slides 0) in
  let c := Loop.st (snd (About.constructor (about_cards 3) 0)) in
  Project.currentSlide (Loop.st (Nat.iter 3 Project.showNextSlide w)) = Int 0
  /\ About.currentAboutIndex (Nat.iter 3 About.showNextCard c) = Int 1.
Proof.
  intros w c.
  destruct (next_cycle_prev_inverse 3 0 ltac:(lia) ltac:(lia)) as [HP _].
  destruct (next_cycle_prev_inverse 3 1 ltac:(lia) ltac:(lia)) as [_ HA].
  assert (Project.totalSlides (Loop.st w) = 3) as Ht by (vm_compute; reflexivity).
  assert (Project.currentSlide (Loop.st w) = Int 0) as Hc by (vm_compute; reflexivity).
  assert (About.totalAboutCards c = 3) as Ht' by (vm_compute; reflexivity).
  assert (About.currentAboutIndex c = Int 1) as Hc' by (vm_compute; reflexivity).
  destruct (HP w Ht Hc) as [H1 _]. destruct (HA c Ht' Hc') as [H2 _].
  change (Z.to_nat 3) with 3%nat in H1, H2.
  split; [exact H1 | exact H2].
Defined.

Section DispatchFacts.

Lemma project_dispatch_range (n : Z) (h : Project.Handler) (e : Event) (w : Project.World) :
  1 <= n ->
  Project.totalSlides (Loop.st w) = n ->
  Forall (fun d => exists z, Project.data_slide d = Int z) (Project.navDots (Loop.st w)) ->
  Num.in_range (Project.currentSlide (Loop.st w)) n ->
  Num.in_range (Project.currentSlide (Loop.st (Project.dispatch h e w))) n.
Proof.
  intros Hn Ht Hdots Hin.
  assert (forall w', Project.totalSlides (Loop.st w') = n ->
            Num.in_range (Project.currentSlide (Loop.st w')) n ->
            Num.in_range (Project.currentSlide (Loop.st (Project.showNextSlide w'))) n
            /\ Num.in_range (Project.currentSlide (Loop.st (Project.showPrevSlide w'))) n)
    as Hstep.
  { intros w' Ht' (i & Hc & Hi).
    rewrite (next_current w' n i), (prev_current w' n i) by assumption.
    split; eexists; (split; [reflexivity | apply Z.mod_pos_bound; lia]). }
  destruct h as [i | | |]; cbn [Project.dispatch].
  - destruct (Project.navDots (Loop.st w) !! i) as [d|] eqn:E; [| exact Hin].
    rewrite List.Forall_forall in Hdots.
    destruct (Hdots d) as [z Hz].
    { apply list_elem_of_In. eapply list_elem_of_lookup_2. exact E. }
    rewrite Hz, showSlide_current, Ht.
    destruct (bound_int n z Hn) as (k & -> & Hk). exists k. split; [reflexivity | lia].
  - exact (proj2 (Hstep w Ht Hin)).
  - exact (proj1 (Hstep w Ht Hin)).
  - destruct e; try exact Hin.
    destruct (String.eqb key "ArrowLeft"), (String.eqb key "ArrowRight"); try exact Hin.
    + refine (proj1 (Hstep (Project.showPrevSlide w) _ (proj2 (Hstep w Ht Hin)))).
      unfold Project.showPrevSlide. rewrite showSlide_total. exact Ht.
    + exact (proj2 (Hstep w Ht Hin)).
    + exact (proj1 (Hstep w Ht Hin)).
Qed.

Lemma about_step_range (n : Z) (c : About.Carousel) :
  1 <= n -> About.totalAboutCards c = n ->
  Num.in_range (About.currentAboutIndex c) n ->
  Num.in_range (About.currentAboutIndex (About.showNextCard c)) n
  /\ Num.in_range (About.currentAboutIndex (About.showPrevCard c)) n.
Proof.
  intros Hn Ht (i & Hc & Hi).
  rewrite (next_card_index c n i), (prev_card_index c n i) by (assumption || lia).
  split; eexists; (split; [reflexivity | apply Z.mod_pos_bound; lia]).
Qed.

Lemma about_dispatch_range (n : Z) (h : About.Handler) (e : Event) (w : About.World) :
  1 <= n ->
  About.totalAboutCards (Loop.st w) = n ->
  Num.in_range (About.currentAboutIndex (Loop.st w)) n ->
  Num.in_range (About.currentAboutIndex (Loop.st (About.dispatch h e w))) n.
Proof.
  intros Hn Ht Hin.
  destruct (about_step_range n (Loop.st w) Hn Ht Hin) as [Hnext Hprev].
  destruct h; cbn [About.dispatch].
  - exact Hnext.
  - exact Hprev.
  - unfold About.resize_debounced, Debounce.executedFunction.
    destruct (About.resize_timeout (Loop.st w)); exact Hin.
  - destruct e; try exact Hin.
  - destruct e; try exact Hin. cbn. unfold About.touchmove.
    destruct (About.isDragging (Loop.st w)); exact Hin.
  - cbn. unfold About.touchend, About.swipe.
    destruct (About.isDragging (Loop.st w)); [| exact Hin].
    destruct (Z.abs _ >? 50); [| exact Hin].
    destruct (_ >? 0); cbn; assumption.
Qed.

End DispatchFacts.

(** C2.  With [n >= 1] slides every transition keeps the index in
    [[0, n)]: [showSlide] sends every integer argument, negative or too
    large included, into [[0, n)]; next and prev move the index by one
    modulo [n], in both carousels; and so every listener the carousels
    bind (dots carrying an integer data-slide, arrows, keys, resize,
    touch) leaves the index in [[0, n)]. *)
Theorem index_stays_in_range (n : Z) :
  1 <= n ->
  (forall (w : Project.World) (z : Z),
      Project.totalSlides (Loop.st w) = n ->
      Num.in_range (Project.currentSlide (Loop.st (Project.showSlide (Int z) w))) n)
  /\
  (forall (w : Project.World) (i : Z),
      Project.totalSlides (Loop.st w) = n ->
      Project.currentSlide (Loop.st w) = Int i -> 0 <= i < n ->
      Project.currentSlide (Loop.st (Project.showNextSlide w)) = Int ((i + 1) mod n)
      /\ Project.currentSlide (Loop.st (Project.showPrevSlide w)) = Int ((i - 1) mod n)
      /\ Num.in_range (Project.currentSlide (Loop.st (Project.showNextSlide w))) n
      /\ Num.in_range (Project.currentSlide (Loop.st (Project.showPrevSlide w))) n)
  /\
  (forall (c : About.Carousel) (i : Z),
      About.totalAboutCards c = n ->
      About.currentAboutIndex c = Int i -> 0 <= i < n ->
      About.currentAboutIndex (About.showNextCard c) = Int ((i + 1) mod n)
      /\ About.currentAboutIndex (About.showPrevCard c) = Int ((i - 1) mod n)
      /\ Num.in_range (About.currentAboutIndex (About.showNextCard c)) n
      /\ Num.in_range (About.currentAboutIndex (About.showPrevCard c)) n)
  /\
  (forall (w : Project.World) (h : Project.Handler) (e : Event),
      Project.totalSlides (Loop.st w) = n ->
      Forall (fun d => exists z, Project.data_slide d = Int z) (Project.navDots (Loop.st w)) ->
      Num.in_range (Project.currentSlide (Loop.st w)) n ->
      Num.in_range (Project.currentSlide (Loop.st (Project.dispatch h e w))) n)
  /\
  (forall (w : About.World) (h : About.Handler) (e : Event),
      About.totalAboutCards (Loop.st w) = n ->
      Num.in_range (About.currentAboutIndex (Loop.st w)) n ->
      Num.in_range (About.currentAboutIndex (Loop.st (About.dispatch h e w))) n).
Proof.
  intros Hn.
  assert (forall z, 0 <= z mod n < n) as Hmod by (intros; apply Z.mod_pos_bound; lia).
  split; [| split; [| split; [| split]]].
  - intros w z Ht. rewrite showSlide_current, Ht.
    destruct (bound_int n z Hn) as (k & -> & Hk). exists k. split; [reflexivity | lia].
  - intros w i Ht Hc Hi.
    rewrite (next_current w n i), (prev_current w n i) by assumption.
    repeat split; try apply Hmod; eexists; (split; [reflexivity | apply Hmod]).
  - intros c i Ht Hc Hi.
    rewrite (next_card_index c n i), (prev_card_index c n i) by (assumption || lia).
    repeat split; try apply Hmod; eexists; (split; [reflexivity | apply Hmod]).
  - intros w h e Ht Hdots Hin. apply project_dispatch_range; assumption.
  - intros w h e Ht Hin. apply about_dispatch_range; assumption.
Qed.

Lemma index_stays_in_range_witness :
  Num.in_range
    (Project.currentSlide
       (Loop.st (Project.showSlide (Int (-7)) (snd (Project.constructor three_slides 0))))) 3
  /\ Num.in_range
    (Project.currentSlide
       (Loop.st (Project.showSlide (Int 12) (snd (Project.constructor three_slides 0))))) 3.
Proof.
  destruct (index_stays_in_range 3 ltac:(lia)) as [H _].
  split; apply H; reflexivity.
Defined.

(** C3.  A carousel built on a page without slides (or without cards)
    finishes its constructor and [init] without raising, and leaves no
    event listener and no timer behind, whatever else the page contains. *)
Theorem empty_carousel_is_inert :
  (forall (d : Project.Dom) (t0 : Z),
      Project.dom_slides d = [] ->
      fst (Project.constructor d t0) = inr tt
      /\ Project.listeners (Loop.st (snd (Project.constructor d t0))) = []
      /\ Loop.pending (snd (Project.constructor d t0)) = [])
  /\
  (forall (d : About.Dom) (t0 : Z),
      About.dom_cards d = [] ->
      fst (About.constructor d t0) = inr tt
      /\ About.listeners (Loop.st (snd (About.constructor d t0))) = []
      /\ Loop.pending (snd (About.constructor d t0)) = []).
Proof.
  split; intros d t0 Hd.
  - unfold Project.constructor, Project.init. rewrite Hd.
    cbn. repeat split.
  - unfold About.constructor, About.init, About.fields. rewrite Hd.
    cbn. repeat split.
Qed.

Lemma empty_carousel_is_inert_witness :
  Project.listeners (Loop.st (snd (Project.constructor no_slides 0))) = []
  /\ About.listeners (Loop.st (snd (About.constructor (about_cards 0) 0))) = [].
Proof.
  destruct empty_carousel_is_inert as [HP HA]. split.
  - apply (HP no_slides 0). reflexivity.
  - apply (HA (about_cards 0) 0). reflexivity.
Defined.

(** With slides on the page the same constructor does bind its handlers. *)
Example three_slides_listeners :
  length (Project.listeners (Loop.st (snd (Project.constructor three_slides 0)))) = 6%nat
  /\ length (About.listeners (Loop.st (snd (About.constructor (about_cards 3) 0)))) = 6%nat
  /\ length (Loop.pending (snd (About.constructor (about_cards 3) 0))) = 1%nat.
Proof. repeat split. Qed.

(* unfold the monad operations so that a script reduces by computation *)
Ltac js_unfold :=
  repeat progress
    (unfold mbind, M_bind, mret, M_ret, get_state, modify, throw, try_catch; cbn;
     change (Z.of_nat 1) with 1; change (Z.of_nat 0) with 0).

Lemma middle_one (n : Z) : Gesture.middle n = Some 1 <-> n = 3.
Proof.
  unfold Gesture.middle. split.
  - destruct (Z.odd n) eqn:Ho; [| discriminate].
    destruct (Z.ltb_spec 0 n); [| discriminate]. cbn [andb].
    apply Z.odd_spec in Ho. destruct Ho as [k ->].
    replace (2 * k + 1 - 1) with (k * 2) by lia.
    rewrite Z.div_mul by lia. intros [= ->]. reflexivity.
  - intros ->. reflexivity.
Qed.

Lemma about_constructor_fields (d : About.Dom) (t0 : Z) :
  let c := Loop.st (snd (About.constructor d t0)) in
  About.currentAboutIndex c = Int 1
  /\ About.totalAboutCards c = Z.of_nat (length (About.dom_cards d))
  /\ About.aboutCards c = About.dom_cards d.
Proof.
  unfold About.constructor, About.init, About.initTouchSupport, About.fields.
  destruct d as [cards track prev next]. js_unfold.
  destruct (Z.of_nat (length cards) =? 0); [repeat split |].
  destruct next, prev, track; repeat split.
Qed.

Lemma about_constructor_queue (d : About.Dom) (t0 : Z) :
  About.dom_cards d <> [] ->
  Loop.now (snd (About.constructor d t0)) = t0
  /\ Loop.fresh (snd (About.constructor d t0)) = 2%nat
  /\ Loop.pending (snd (About.constructor d t0))
     = [Loop.Timer 1 (t0 + 100) About.InitialUpdate].
Proof.
  unfold About.constructor, About.init, About.initTouchSupport, About.fields.
  destruct d as [cards track prev next]. intros Hne. js_unfold.
  destruct (Z.eqb_spec (Z.of_nat (length cards)) 0) as [E | _].
  { destruct cards; [contradiction | cbn in E; lia]. }
  destruct next, prev, track; repeat split.
Qed.

Lemma about_initial_update (d : About.Dom) (t0 : Z) :
  About.dom_cards d <> [] ->
  exists w',
    Loop.advance About.run 1 (t0 + 100) (snd (About.constructor d t0)) = Some w'
    /\ Loop.st w' = About.updateCarousel (Loop.st (snd (About.constructor d t0)))
    /\ Loop.pending w' = []
    /\ Loop.now w' = t0 + 100.
Proof.
  intros Hne. destruct (about_constructor_queue d t0 Hne) as (Hn & _ & Hp).
  set (w := snd (About.constructor d t0)) in *.
  assert (Loop.next_due (t0 + 100) w = Some (Loop.Timer 1 (t0 + 100) About.InitialUpdate)) as Hd.
  { unfold Loop.next_due. rewrite Hp. cbn. rewrite Z.leb_refl. reflexivity. }
  rewrite (advance_fire About.run 0 (t0 + 100) w _ Hd).
  cbn [Loop.t_cb Loop.t_id Loop.t_due About.run].
  set (w1 := Loop.with_st About.updateCarousel _).
  assert (Loop.pending w1 = []) as Hp1 by (subst w1; cbn; rewrite Hp; reflexivity).
  rewrite (advance_idle About.run 0 (t0 + 100) w1 (next_due_nil _ _ Hp1)).
  eexists. split; [reflexivity |]. cbn. rewrite Hp, Hn. cbn.
  repeat split. lia.
Qed.

Lemma about_single_card_update (card : About.Card) (track : option About.Track)
    (prev next : bool) (t0 : Z) :
  let d := {| About.dom_cards := [card]; About.dom_track := track;
              About.dom_prev := prev; About.dom_next := next |} in
  exists w',
    Loop.advance About.run 1 (t0 + 100) (snd (About.constructor d t0)) = Some w'
    /\ Loop.st w' =
       About.updateCarousel (Loop.st (snd (About.constructor d t0))).
Proof.
  intros d. destruct (about_initial_update d t0) as (w' & Ha & Hs & _).
  { discriminate. }
  exists w'. split; assumption.
Qed.

(** C10.  The centered-card carousel starts at index 1 whatever the number
    of cards; index 1 is the middle card exactly when there are three
    cards; with a single card the index 1 is outside [[0, 1)], the initial
    update (100 ms after construction) leaves no card active and the index
    outside the range, and the first next or prev brings the index to 0. *)
Theorem about_initial_index :
  (forall (d : About.Dom) (t0 : Z),
      About.currentAboutIndex (Loop.st (snd (About.constructor d t0))) = Int 1)
  /\ (forall n : Z, Gesture.middle n = Some 1 <-> n = 3)
  /\ (forall (card : About.Card) (track : option About.Track) (prev next : bool) (t0 : Z),
        let w := snd (About.constructor
                        {| About.dom_cards := [card]; About.dom_track := track;
                           About.dom_prev := prev; About.dom_next := next |} t0) in
        ~ Num.in_range (About.currentAboutIndex (Loop.st w)) 1
        /\ exists w',
            Loop.advance About.run 1 (t0 + 100) w = Some w'
            /\ Forall (fun c => ClassList.contains "active" (About.card_classes c) = false)
                      (About.aboutCards (Loop.st w'))
            /\ ~ Num.in_range (About.currentAboutIndex (Loop.st w')) 1
            /\ About.currentAboutIndex (About.showNextCard (Loop.st w')) = Int 0
            /\ About.currentAboutIndex (About.showPrevCard (Loop.st w')) = Int 0).
Proof.
  split; [| split].
  - intros d t0. apply about_constructor_fields.
  - apply middle_one.
  - intros card track prev next t0 w.
    set (d := {| About.dom_cards := [card]; About.dom_track := track;
                 About.dom_prev := prev; About.dom_next := next |}) in *.
    destruct (about_constructor_fields d t0) as (Hi & Ht & Hc).
    fold w in Hi, Ht, Hc. cbn in Ht, Hc. change (Z.of_nat 1) with 1 in Ht.
    assert (forall c, About.currentAboutIndex c = Int 1 -> ~ Num.in_range (About.currentAboutIndex c) 1)
      as Hout.
    { intros c -> (z & [= <-] & Hz). lia. }
    split; [apply Hout; assumption |].
    destruct (about_single_card_update card track prev next t0) as (w' & Hadv & Hst).
    fold d in Hadv, Hst. fold w in Hadv, Hst.
    exists w'. split; [assumption |]. rewrite Hst.
    repeat split.
    + rewrite update_cards, Hc. cbn. constructor; [| constructor].
      rewrite Hi. cbn. apply contains_remove.
    + apply Hout. rewrite update_index. assumption.
    + unfold About.showNextCard. rewrite update_index. cbn.
      rewrite ?update_total, ?update_index, Ht, Hi. reflexivity.
    + unfold About.showPrevCard. rewrite update_index. cbn.
      rewrite ?update_total, ?update_index, Ht, Hi. reflexivity.
Qed.

(** ** Swipe gestures *)

Section GestureFacts.
Import About Gesture.

Lemma last_default_irrelevant {A : Type} (x : A) (r : list A) (a b : A) :
  List.last (x :: r) a = List.last (x :: r) b.
Proof.
  revert x. induction r as [|y r IH]; intros x; [reflexivity |].
  change (List.last (y :: r) a = List.last (y :: r) b). apply IH.
Qed.

Lemma moves_track_finger (moves : list Z) (c : Carousel) :
  isDragging c = true ->
  startX (foldl (fun c x => touchmove x c) c moves) = startX c
  /\ currentX (foldl (fun c x => touchmove x c) c moves) = List.last moves (currentX c)
  /\ isDragging (foldl (fun c x => touchmove x c) c moves) = true
  /\ currentAboutIndex (foldl (fun c x => touchmove x c) c moves) = currentAboutIndex c.
Proof.
  revert c. induction moves as [|x r IH]; intros c Hd.
  - cbn. repeat split; assumption.
  - cbn [foldl]. unfold touchmove at 2 4 6 8. rewrite Hd.
    destruct (IH (set_touch (startX c) x true c) eq_refl) as (Hs & Hc & Hg & Hi).
    cbn in Hs, Hc, Hi. rewrite Hs, Hc, Hg, Hi.
    repeat split. destruct r as [|y r]; [reflexivity |].
    symmetry. apply (last_default_irrelevant y r (currentX c) x).
Qed.

(** A gesture during which the finger moved is judged on its displacement:
    the listener's decision is the one the spec assigns. *)
Lemma swipe_with_moves (x0 x : Z) (r : list Z) (c : Carousel) :
  swipe (before_end x0 (x :: r) c) = expected x0 (x :: r).
Proof.
  unfold before_end.
  destruct (moves_track_finger (x :: r) (touchstart x0 c) eq_refl) as (Hs & Hc & Hd & _).
  unfold swipe, expected, displacement, end_x. rewrite Hd, Hs, Hc.
  cbn [touchstart set_touch startX currentX].
  rewrite (last_default_irrelevant x r (currentX c) x0).
  set (d := x0 - List.last (x :: r) x0).
  destruct (Z.gtb_spec (Z.abs d) 50), (Z.leb_spec (Z.abs d) 50); try lia; reflexivity.
Qed.

(** Without a touchmove the listener compares the start with whatever
    [currentX] still holds. *)
Lemma swipe_without_moves (x0 : Z) (c : Carousel) :
  swipe (before_end x0 [] c) =
  (if Z.abs (x0 - currentX c) >? 50
   then (if x0 - currentX c >? 0 then Some Next else Some Prev)
   else None).
Proof. reflexivity. Qed.

End GestureFacts.

(** C7, at the input where the script departs from it.  On a freshly built
    three-card carousel a tap at x = 200 (touchstart, no touchmove,
    touchend) has displacement 0, for which no transition is expected; the
    touchend listener computes 200 - 0 from the stale [currentX] and shows
    the next card. *)
Theorem tap_triggers_transition :
  let c := Loop.st (snd (About.constructor (about_cards 3) 0)) in
  Gesture.displacement 200 [] = 0
  /\ Gesture.expected 200 [] = None
  /\ About.swipe (Gesture.before_end 200 [] c) = Some About.Next
  /\ About.currentAboutIndex c = Int 1
  /\ About.currentAboutIndex (Gesture.perform 200 [] c) = Int 2.
Proof. repeat split. Qed.

(** The same happens with the position left over from an earlier swipe:
    after a swipe that ended at x = 40, a tap at x = 300 moves the
    carousel again. *)
Example tap_after_swipe :
  let c := Loop.st (snd (About.constructor (about_cards 3) 0)) in
  let c1 := Gesture.perform 120 [80; 40] c in
  About.currentAboutIndex c1 = Int 2
  /\ Gesture.expected 300 [] = None
  /\ About.currentAboutIndex (Gesture.perform 300 [] c1) = Int 0.
Proof. repeat split. Qed.

(** ** Clipboard helper *)

Section ClipboardFacts.
Import Clipboard.

Lemma existsb_snoc (n : nat) (l : list nat) : existsb (Nat.eqb n) (l ++ [n]) = true.
Proof.
  rewrite existsb_app. cbn. rewrite Nat.eqb_refl, orb_true_r. reflexivity.
Qed.

Lemma filter_fresh (n : nat) (l : list nat) :
  Forall (fun m => (m < n)%nat) l ->
  List.filter (fun m => negb (Nat.eqb m n)) l = l.
Proof.
  induction 1 as [|m l Hm _ IH]; [reflexivity |].
  cbn. destruct (Nat.eqb_spec m n); [lia |]. cbn. rewrite IH. reflexivity.
Qed.

Lemma filter_snoc_fresh (n : nat) (l : list nat) :
  Forall (fun m => (m < n)%nat) l ->
  List.filter (fun m => negb (Nat.eqb m n)) (l ++ [n]) = l.
Proof.
  intros H. rewrite List.filter_app, (filter_fresh n l H). cbn.
  rewrite Nat.eqb_refl. cbn. apply app_nil_r.
Qed.

Lemma fresh_not_child (d : Document) : wf d -> ~ In (next_node d) (body d).
Proof.
  unfold wf. rewrite List.Forall_forall. intros H Hin. apply H in Hin. lia.
Qed.

Lemma new_ops_app (d d' : Document) (l : list Op) :
  ops d' = ops d ++ l -> new_ops d d' = l.
Proof. unfold new_ops. intros ->. apply drop_app_length. Qed.

(** What the helper does when the primary write is rejected. *)
Lemma fallback_run (v : Script) (p : Platform) (text : string) (d : Document) :
  wf d -> write p = Rejected ->
  let r := copyToClipboard v p text d in
  let n := next_node d in
  fst r = inr (match copy p with CopyThrew => false | CopyReturned _ => true end)
  /\ ops (snd r) =
     ops d ++ [CreateElement n; AppendChild n; Select n; ExecCommand "copy"; RemoveChild n]
  /\ body (snd r) = body d
  /\ next_node (snd r) = S n.
Proof.
  intros Hwf Hw r n. subst r n.
  unfold copyToClipboard, writeText, createElement, set_value, set_style,
    appendChild, select, execCommand, removeChild.
  rewrite Hw. js_unfold.
  rewrite (filter_fresh _ _ Hwf).
  destruct (copy p) as [[|]|]; js_unfold;
    rewrite existsb_snoc; cbn; rewrite (filter_snoc_fresh _ _ Hwf);
    rewrite <- ?app_assoc; repeat split.
Qed.

End ClipboardFacts.

(** C4.  When the primary write succeeds the helper reports success and
    touches no element: nothing is created, appended or removed.  When it
    fails, the temporary element is created, appended once and removed
    once, whether the copy command returns or raises, and the children of
    the body are afterwards what they were before the call. *)
Theorem clipboard_fallback_cleanup
    (v : Script) (p : Clipboard.Platform) (text : string) (d : Clipboard.Document) :
  Clipboard.wf d ->
  let r := Clipboard.copyToClipboard v p text d in
  let n := Clipboard.next_node d in
  match Clipboard.write p with
  | Clipboard.Resolved =>
      fst r = inr true
      /\ Clipboard.ops (snd r) = Clipboard.ops d
      /\ Clipboard.next_node (snd r) = n
      /\ Clipboard.body (snd r) = Clipboard.body d
  | Clipboard.Rejected =>
      (exists b : bool, fst r = inr b)
      /\ Clipboard.ops (snd r) = Clipboard.ops d ++ Clipboard.new_ops d (snd r)
      /\ Clipboard.count_op (Clipboard.CreateElement n) (Clipboard.new_ops d (snd r)) = 1%nat
      /\ Clipboard.count_op (Clipboard.AppendChild n) (Clipboard.new_ops d (snd r)) = 1%nat
      /\ Clipboard.count_op (Clipboard.RemoveChild n) (Clipboard.new_ops d (snd r)) = 1%nat
      /\ ~ In n (Clipboard.body (snd r))
      /\ Clipboard.body (snd r) = Clipboard.body d
  end.
Proof.
  intros Hwf r n. destruct (Clipboard.write p) eqn:Hw.
  - subst r. unfold Clipboard.copyToClipboard, Clipboard.writeText. rewrite Hw.
    js_unfold. repeat split.
  - destruct (fallback_run v p text d Hwf Hw) as (Hr & Ho & Hb & _).
    fold r in Hr, Ho, Hb. fold n in Ho.
    rewrite (new_ops_app d (snd r) _ Ho), Hb.
    split; [eexists; exact Hr |].
    split; [exact Ho |].
    cbn. rewrite Nat.eqb_refl. cbn.
    repeat split. apply fresh_not_child. assumption.
Qed.

Lemma clipboard_fallback_cleanup_witness :
  Clipboard.body
    (snd (Clipboard.copyToClipboard ScriptJs
            {| Clipboard.write := Clipboard.Rejected; Clipboard.copy := Clipboard.CopyThrew |}
            "vedpawar1410@gmail.com" empty_document)) = [].
Proof.
  apply (clipboard_fallback_cleanup ScriptJs
           {| Clipboard.write := Clipboard.Rejected; Clipboard.copy := Clipboard.CopyThrew |}
           "vedpawar1410@gmail.com" empty_document).
  constructor.
Defined.

(** The helper's answer after a rejected write: [false] when the copy
    command raised, [true] in every other case. *)
Lemma fallback_result
  (v : Script) (p : Clipboard.Platform) (text : string) (d : Clipboard.Document) :
Clipboard.wf d -> Clipboard.write p = Clipboard.Rejected ->
fst (Clipboard.copyToClipboard v p text d) =
inr (match Clipboard.copy p with
     | Clipboard.CopyThrew => false
     | Clipboard.CopyReturned _ => true
     end).
Proof. intros Hwf Hw. apply (fallback_run v p text d Hwf Hw). Qed.

(** C5, at the input where the script departs from it.  The primary write
    is rejected and [document.execCommand('copy')] returns [false] without
    raising: the copy command did not succeed and the clipboard is
    unchanged, yet the helper, which discards the returned value, reports
    success. *)
Theorem fallback_ignores_command_result :
  let p := {| Clipboard.write := Clipboard.Rejected;
              Clipboard.copy := Clipboard.CopyReturned false |} in
  forall v : Script,
    Clipboard.copy_succeeded p = false
    /\ fst (Clipboard.copyToClipboard v p "vedpawar1410@gmail.com" empty_document) = inr true
    /\ Clipboard.system_clipboard
         (snd (Clipboard.copyToClipboard v p "vedpawar1410@gmail.com" empty_document)) = None.
Proof. intros p v. destruct v; repeat split. Qed.

(** ** Which timer fires *)

Section EarliestFacts.
Import Loop.
Context {St Cb : Type}.
Implicit Types (w : world St Cb) (l : list (timer Cb)) (t : timer Cb).

Lemma earliest_none l : earliest l = None -> l = [].
Proof.
  destruct l as [|a r]; [reflexivity |]. cbn [earliest].
  destruct (earliest r) as [u|]; [destruct (t_due u <? t_due a) |]; discriminate.
Qed.

Lemma earliest_spec l t :
  earliest l = Some t -> In t l /\ Forall (fun u => t_due t <= t_due u) l.
Proof.
  revert t. induction l as [|a r IH]; intros t; [discriminate |].
  cbn [earliest]. destruct (earliest r) as [u|] eqn:E.
  - destruct (IH u eq_refl) as [Hin Hall].
    destruct (Z.ltb_spec (t_due u) (t_due a)); intros [= <-].
    + split; [right; assumption |]. constructor; [lia | assumption].
    + split; [left; reflexivity |]. constructor; [lia |].
      eapply List.Forall_impl; [| exact Hall]. cbn. intros; lia.
  - intros [= <-]. apply earliest_none in E. subst r.
    split; [left; reflexivity |]. constructor; [lia | constructor].
Qed.

Lemma next_due_spec T w t :
  next_due T w = Some t -> In t (pending w) /\ t_due t <= T.
Proof.
  unfold next_due. destruct (earliest (pending w)) as [u|] eqn:E; [| discriminate].
  destruct (Z.leb_spec (t_due u) T); [| discriminate].
  intros [= <-]. split; [apply (earliest_spec _ _ E) | assumption].
Qed.

Lemma next_due_none T w :
  next_due T w = None <-> Forall (fun u => T < t_due u) (pending w).
Proof.
  unfold next_due. destruct (earliest (pending w)) as [u|] eqn:E.
  - destruct (earliest_spec _ _ E) as [Hin Hall].
    destruct (Z.leb_spec (t_due u) T).
    + split; [discriminate |]. intros HF. rewrite List.Forall_forall in HF.
      specialize (HF u Hin). cbn in HF. lia.
    + split; [| reflexivity]. intros _.
      eapply List.Forall_impl; [| exact Hall]. cbn. intros; lia.
  - apply earliest_none in E. rewrite E. split; [constructor | reflexivity].
Qed.

Lemma clear_shrinks t l :
  In t l ->
  (length (List.filter (fun u => negb (Nat.eqb (t_id u) (t_id t))) l) < length l)%nat.
Proof.
  induction l as [|a r IH]; [intros [] |].
  intros [-> | Hin]; cbn.
  - rewrite Nat.eqb_refl. cbn.
    pose proof (List.filter_length_le (fun u => negb (Nat.eqb (t_id u) (t_id t))) r). lia.
  - specialize (IH Hin). destruct (negb _); cbn; lia.
Qed.

End EarliestFacts.

(** ** Timer handles *)

Section HandleFacts.
Import Loop Handles.

Lemma distinct_setTimeout {St Cb : Type} (cb : Cb) (delay : Z) (w : world St Cb) :
  distinct w -> distinct (snd (setTimeout cb delay w)).
Proof.
  intros [Hnd Hlt]. split; cbn.
  - rewrite map_app. cbn. apply NoDup_app. split; [exact Hnd |]. split.
    + intros x Hx [Hy | []]%list_elem_of_In. subst x.
      apply list_elem_of_In, in_map_iff in Hx as (t & Hid & Hin).
      rewrite List.Forall_forall in Hlt. specialize (Hlt t Hin). cbn in Hlt.
      lia.
    + apply NoDup_singleton.
  - apply Forall_app. split.
    + eapply List.Forall_impl; [| exact Hlt]. cbn. intros; lia.
    + constructor; [cbn; lia | constructor].
Qed.

Lemma distinct_with_st {St Cb : Type} (f : St -> St) (w : world St Cb) :
  distinct w -> distinct (with_st f w).
Proof. trivial. Qed.

Lemma NoDup_map_filter {A B : Type} (g : A -> B) (f : A -> bool) (l : list A) :
  NoDup (map g l) -> NoDup (map g (List.filter f l)).
Proof.
  induction l as [|a r IH]; [trivial |]. cbn. intros H.
  apply NoDup_cons in H as [Hn Hr]. destruct (f a); cbn; [| apply IH; exact Hr].
  apply NoDup_cons. split; [| apply IH; exact Hr].
  intros Hin. apply Hn. apply list_elem_of_In. apply list_elem_of_In in Hin.
  apply in_map_iff in Hin as (x & Hx & Hin). apply in_map_iff. exists x.
  split; [exact Hx |]. apply List.filter_In in Hin. tauto.
Qed.

Lemma same_handle {Cb : Type} (l : list (timer Cb)) (x t : timer Cb) :
  NoDup (map t_id l) -> In x l -> In t l -> t_id x = t_id t -> x = t.
Proof.
  induction l as [|y r IH]; [intros _ [] |].
  cbn. intros Hnd Hx Ht Eid. apply NoDup_cons in Hnd as [Hy Hr].
  destruct Hx as [-> | Hx], Ht as [-> | Ht]; try reflexivity.
  - exfalso. apply Hy. apply list_elem_of_In, in_map_iff. exists t.
    split; [symmetry; exact Eid | exact Ht].
  - exfalso. apply Hy. apply list_elem_of_In, in_map_iff. exists x.
    split; [exact Eid | exact Hx].
  - apply IH; assumption.
Qed.

(* clearing a timer that is due by [T] does not change which timers are
   still ahead at [T] *)
Lemma ahead_after_clear {Cb : Type} (T : Z) (l : list (timer Cb)) (t : timer Cb) :
  NoDup (map t_id l) -> In t l -> t_due t <= T ->
  List.filter (fun u => T <? t_due u)
    (List.filter (fun u => negb (Nat.eqb (t_id u) (t_id t))) l)
  = List.filter (fun u => T <? t_due u) l.
Proof.
  intros Hnd Hin Hdue.
  assert (forall x, In x l -> t_id x = t_id t -> t_due x <= T) as Hsame.
  { intros x Hx Eid. rewrite (same_handle l x t Hnd Hx Hin Eid). exact Hdue. }
  clear Hnd Hin. induction l as [|y r IH]; [reflexivity |].
  cbn [List.filter]. destruct (Nat.eqb_spec (t_id y) (t_id t)) as [Eid | Nid]; cbn [negb].
  - pose proof (Hsame y (or_introl eq_refl) Eid) as Hy.
    destruct (Z.ltb_spec T (t_due y)); [lia |].
    apply IH. intros x Hx. apply Hsame. right. exact Hx.
  - cbn [List.filter]. destruct (T <? t_due y); [f_equal |];
      apply IH; intros x Hx; apply Hsame; right; exact Hx.
Qed.

(* the timers ahead at [T] among those none of which is due at [t2] *)
Lemma ahead_of_filtered {Cb : Type} (t2 T : Z) (l : list (timer Cb)) :
  t2 <= T ->
  Forall (fun u => T < t_due u) (List.filter (fun u => t2 <? t_due u) l)
  <-> Forall (fun u => t_due u <= t2 \/ T < t_due u) l.
Proof.
  intros HT. induction l as [|y r IH]; [split; constructor |].
  cbn [List.filter]. destruct (Z.ltb_spec t2 (t_due y)).
  - split; intros H'; inversion H' as [|? ? Hy Hr]; subst; constructor;
      try (apply IH; exact Hr); [right; exact Hy | destruct Hy; [lia | assumption]].
  - split; intros H'.
    + constructor; [left; lia | apply IH; exact H'].
    + inversion H' as [|? ? _ Hr]; subst. apply IH; exact Hr.
Qed.

End HandleFacts.

(** ** Toast notifier *)

Section ToastFacts.
Import Loop Toast.

Lemma hide_hides (w : World) : shown (run Hide w) = false.
Proof.
  unfold shown, run. cbn. destruct (st w) as [t|]; cbn; [apply contains_remove | reflexivity].
Qed.

Lemma hide_text (w : World) : text (run Hide w) = text w.
Proof. unfold text, run. cbn. destruct (st w); reflexivity. Qed.

Lemma hide_pending (w : World) : pending (run Hide w) = pending w.
Proof. reflexivity. Qed.

Lemma advance_text (fuel : nat) (T : Z) (w w' : World) :
  advance run fuel T w = Some w' -> text w' = text w.
Proof.
  revert w. induction fuel as [|f IH]; intros w; cbn [advance];
    destruct (next_due T w) as [t|]; try discriminate.
  - intros [= <-]. reflexivity.
  - intros H. apply IH in H. rewrite H. destruct (t_cb t).
    rewrite hide_text. reflexivity.
  - intros [= <-]. reflexivity.
Qed.

Lemma advance_hidden (fuel : nat) (T : Z) (w w' : World) :
  advance run fuel T w = Some w' -> shown w = false -> shown w' = false.
Proof.
  revert w. induction fuel as [|f IH]; intros w; cbn [advance];
    destruct (next_due T w) as [t|]; try discriminate.
  - intros [= <-]. trivial.
  - intros H _. apply IH in H; [assumption |]. destruct (t_cb t). apply hide_hides.
  - intros [= <-]. trivial.
Qed.

Lemma advance_shown (fuel : nat) (T : Z) (w w' : World) :
  advance run fuel T w = Some w' ->
  shown w' = match next_due T w with Some _ => false | None => shown w end.
Proof.
  destruct (next_due T w) as [t|] eqn:E.
  - destruct fuel as [|f]; cbn [advance]; rewrite E; [discriminate |].
    intros H. apply advance_hidden in H; [assumption |].
    destruct (t_cb t). apply hide_hides.
  - rewrite (advance_idle run fuel T w E). intros [= <-]. reflexivity.
Qed.

Lemma advance_total (fuel : nat) (T : Z) (w : World) :
  (length (pending w) <= fuel)%nat -> exists w', advance run fuel T w = Some w'.
Proof.
  revert w. induction fuel as [|f IH]; intros w Hlen; cbn [advance];
    destruct (next_due T w) as [t|] eqn:E; try (eexists; reflexivity).
  - apply next_due_spec in E as [Hin _]. destruct (pending w); [destruct Hin | cbn in Hlen; lia].
  - apply IH. destruct (t_cb t). rewrite hide_pending. cbn.
    apply next_due_spec in E as [Hin _]. pose proof (clear_shrinks t _ Hin). lia.
Qed.

Lemma showToast_effect (v : Script) (m : string) (d : option Z) (w : World) (el : Element) :
  st w = Some el ->
  pending (showToast v m d w) =
    pending w ++ [Timer (fresh w) (now w + Z.max 0 (default (default_duration v) d)) Hide]
  /\ now (showToast v m d w) = now w
  /\ fresh (showToast v m d w) = S (fresh w)
  /\ st (showToast v m d w) =
     Some {| textContent := m; classList := ClassList.add "show" (classList el) |}
  /\ text (showToast v m d w) = Some m
  /\ shown (showToast v m d w) = true.
Proof.
  intros Hst. unfold showToast, text, shown. rewrite Hst. cbn. rewrite Hst. cbn.
  repeat split. apply contains_add.
Qed.

Lemma showToast_distinct (v : Script) (m : string) (d : option Z) (w : World) :
  Handles.distinct w -> Handles.distinct (showToast v m d w).
Proof.
  intros H. unfold showToast. destruct (st w); [| exact H].
  apply distinct_setTimeout. exact H.
Qed.

(* what is left of the page once the clock has reached [T] *)
Lemma advance_frame (fuel : nat) (T : Z) (w w' : World) :
  NoDup (map t_id (pending w)) ->
  advance run fuel T w = Some w' ->
  pending w' = List.filter (fun t => T <? t_due t) (pending w)
  /\ now w' = Z.max (now w) T
  /\ fresh w' = fresh w
  /\ (st w = None <-> st w' = None).
Proof.
  revert w. induction fuel as [|f IH]; intros w Hnd; cbn [advance];
    destruct (next_due T w) as [t|] eqn:E; try discriminate.
  - intros [= <-]. apply next_due_none in E. cbn.
    split; [| repeat split; trivial].
    symmetry. apply forallb_filter_id. apply forallb_forall. intros x Hx.
    rewrite List.Forall_forall in E. specialize (E x Hx). cbn in E.
    apply Z.ltb_lt. exact E.
  - intros H. apply next_due_spec in E as [Hin Hdue].
    apply IH in H.
    + destruct H as (Hp & Hn & Hf & Hs). destruct (t_cb t).
      rewrite hide_pending in Hp. cbn in Hp, Hn, Hf, Hs.
      rewrite (ahead_after_clear T _ t Hnd Hin Hdue) in Hp.
      split; [exact Hp |]. split; [lia |]. split; [exact Hf |].
      rewrite <- Hs. destruct (st w); cbn; split; congruence.
    + destruct (t_cb t). rewrite hide_pending. cbn. apply NoDup_map_filter. exact Hnd.
  - intros [= <-]. apply next_due_none in E. cbn.
    split; [| repeat split; trivial].
    symmetry. apply forallb_filter_id. apply forallb_forall. intros x Hx.
    rewrite List.Forall_forall in E. specialize (E x Hx). cbn in E.
    apply Z.ltb_lt. exact E.
Qed.

End ToastFacts.

(** C6 as stated fails.  The first call is made at 0 ms and the second at
    1000 ms, both with the default 2000 ms of script.js; 2500 ms lies within
    2000 ms of the second call, yet the toast is already hidden: the timer
    of the first call was never cancelled and fired at 2000 ms. *)
Lemma toast_hidden_by_first_timer :
  exists w,
    Toast.two_calls ScriptJs 2 sample_toast
      0 "Email copied to clipboard!" None
      1000 "Copy failed. Please try again." None 2500 = Some w
    /\ 0 <= 1000 < 0 + Toast.default_duration ScriptJs
    /\ 1000 <= 2500 < 1000 + Toast.default_duration ScriptJs
    /\ Toast.text w = Some "Copy failed. Please try again."
    /\ Toast.shown w = false.
Proof. eexists. repeat split; try reflexivity; cbn; lia. Qed.

(** C6, amended.  The page has a toast element and any number of hide
    timers left by earlier calls, none of them overdue when the first call
    is made and none due at the very instant of the second.  When the
    second call is made before the first call's duration has elapsed, it
    replaces the text at once and the text stays that of the second call;
    it cancels nothing: it adds a hide timer of its own behind the first
    call's and those of the earlier calls that have not fired yet.  The
    toast is therefore shown exactly until the earliest deadline still
    pending after the second call, and stays hidden afterwards. *)
Theorem toast_second_call
    (v : Script) (w0 : Toast.World) (el : Toast.Element) (fuel : nat)
    (t2 T : Z) (m1 m2 : string) (d1 d2 : option Z) :
  let dur1 := default (Toast.default_duration v) d1 in
  let dur2 := default (Toast.default_duration v) d2 in
  Loop.st w0 = Some el ->
  Handles.distinct w0 ->
  Forall (fun t => Loop.now w0 < Loop.t_due t /\ Loop.t_due t <> t2) (Loop.pending w0) ->
  Loop.now w0 <= t2 -> t2 < Loop.now w0 + dur1 -> t2 <= T ->
  (length (Loop.pending w0) + 2 <= fuel)%nat ->
  exists w1 w,
    Loop.advance Toast.run fuel t2 (Toast.showToast v m1 d1 w0) = Some w1
    /\ Loop.advance Toast.run fuel T (Toast.showToast v m2 d2 w1) = Some w
    /\ Toast.text (Toast.showToast v m2 d2 w1) = Some m2
    /\ Loop.pending (Toast.showToast v m2 d2 w1)
       = List.filter (fun t => t2 <? Loop.t_due t) (Loop.pending w0)
         ++ [Loop.Timer (Loop.fresh w0) (Loop.now w0 + dur1) Toast.Hide;
             Loop.Timer (S (Loop.fresh w0)) (t2 + Z.max 0 dur2) Toast.Hide]
    /\ Toast.text w = Some m2
    /\ (Toast.shown w = true <->
        T < Loop.now w0 + dur1 /\ T < t2 + Z.max 0 dur2
        /\ Forall (fun t => Loop.t_due t < t2 \/ T < Loop.t_due t) (Loop.pending w0)).
Proof.
  intros dur1 dur2 Hst Hd Hold Ht Hin HT Hfuel.
  destruct (showToast_effect v m1 d1 w0 el Hst) as (Hp1 & Hn1 & Hf1 & Hs1 & _).
  fold dur1 in Hp1. replace (Z.max 0 dur1) with dur1 in Hp1 by lia.
  pose proof (showToast_distinct v m1 d1 w0 Hd) as [Hnd1 _].
  set (wA := Toast.showToast v m1 d1 w0) in *. clearbody wA.
  destruct (advance_total fuel t2 wA) as [w1 Hw1].
  { rewrite Hp1, length_app. cbn. lia. }
  destruct (advance_frame fuel t2 wA w1 Hnd1 Hw1) as (Hq1 & Hm1 & Hg1 & Hsome).
  assert (exists el1, Loop.st w1 = Some el1) as [el1 Hst1].
  { destruct (Loop.st w1) as [e|] eqn:E; [exists e; reflexivity |].
    destruct Hsome as [_ Hback]. specialize (Hback eq_refl). congruence. }
  rewrite Hp1, List.filter_app in Hq1. cbn [List.filter Loop.t_due] in Hq1.
  destruct (Z.ltb_spec t2 (Loop.now w0 + dur1)) as [_ | Hbad]; [| lia].
  exists w1.
  destruct (showToast_effect v m2 d2 w1 el1 Hst1) as (Hp2 & _ & _ & _ & Ht2 & Hs2).
  fold dur2 in Hp2. rewrite Hq1, Hm1, Hg1, Hn1, Hf1, <- app_assoc in Hp2.
  cbn [app] in Hp2. replace (Z.max (Loop.now w0) t2) with t2 in Hp2 by lia.
  set (w2 := Toast.showToast v m2 d2 w1) in *. clearbody w2.
  destruct (advance_total fuel T w2) as [w Hw].
  { rewrite Hp2, length_app. cbn.
    pose proof (List.filter_length_le (fun t => t2 <? Loop.t_due t) (Loop.pending w0)). lia. }
  exists w. split; [exact Hw1 |]. split; [exact Hw |].
  split; [exact Ht2 |]. split; [exact Hp2 |].
  split; [rewrite (advance_text _ _ _ _ Hw); exact Ht2 |].
  rewrite (advance_shown _ _ _ _ Hw).
  assert (Loop.next_due T w2 = None <->
          T < Loop.now w0 + dur1 /\ T < t2 + Z.max 0 dur2
          /\ Forall (fun t => Loop.t_due t < t2 \/ T < Loop.t_due t) (Loop.pending w0))
    as Hiff.
  { rewrite next_due_none, Hp2, Forall_app, (ahead_of_filtered t2 T _ HT).
    split.
    - intros [Ha Hb]. inversion Hb as [|? ? H1 Hb']; subst.
      inversion Hb' as [|? ? H2 _]; subst. cbn in H1, H2.
      split; [exact H1 |]. split; [exact H2 |].
      rewrite List.Forall_forall in *. intros x Hx.
      destruct (Ha x Hx) as [Hle | Hgt]; [| right; exact Hgt].
      destruct (Hold x Hx) as [_ Hne]. left. lia.
    - intros (H1 & H2 & Ha). split.
      + eapply List.Forall_impl; [| exact Ha]. cbn. intros x [Hx | Hx]; [left; lia | right; exact Hx].
      + constructor; [exact H1 |]. constructor; [exact H2 | constructor]. }
  destruct (Loop.next_due T w2) eqn:E.
  - split; [discriminate |]. intros H. apply Hiff in H. discriminate.
  - rewrite Hs2. split; [| reflexivity]. intros _. apply Hiff. reflexivity.
Qed.

Lemma toast_second_call_witness :
  exists w1 w,
    Loop.advance Toast.run 3 1800
      (Toast.showToast ScriptJs "Phone copied to clipboard!" None toast_showing) = Some w1
    /\ Loop.advance Toast.run 3 2500
         (Toast.showToast ScriptJs "Copy failed. Please try again." None w1) = Some w
    /\ Toast.text w = Some "Copy failed. Please try again."
    /\ (Toast.shown w = true <->
        2500 < 1500 + 2000 /\ 2500 < 1800 + Z.max 0 2000
        /\ Forall (fun t => Loop.t_due t < 1800 \/ 2500 < Loop.t_due t)
                  (Loop.pending toast_showing)).
Proof.
  destruct (toast_second_call ScriptJs toast_showing
              {| Toast.textContent := "Email copied"; Toast.classList := {["toast"; "show"]} |}
              3 1800 2500 "Phone copied to clipboard!" "Copy failed. Please try again."
              None None)
    as (w1 & w & H1 & H2 & _ & _ & H3 & H4).
  - reflexivity.
  - split; [apply (bool_decide_unpack _); vm_compute; exact I |].
    repeat constructor.
  - repeat constructor; cbn; lia.
  - cbn; lia.
  - cbn; lia.
  - lia.
  - cbn; lia.
  - exists w1, w. split; [exact H1 |]. split; [exact H2 |]. split; [exact H3 | exact H4].
Defined.

(** ** Debounce *)

Section DebounceFacts.
Import Loop Debounced.
Context {Args : Type}.
Implicit Types (w : World Args) (a : Args).

Lemma now_debounced (wait : Z) a w : now (debounced wait a w) = now w.
Proof.
  unfold debounced, Debounce.executedFunction. destruct (timeout (st w)); reflexivity.
Qed.

(* a call on a quiet queue arms the timer *)
Lemma call_arms (wait : Z) a w :
  pending w = [] -> calls (st w) = [] -> armed wait a (debounced wait a w).
Proof.
  intros Hp Hc. exists (fresh w).
  unfold debounced, Debounce.executedFunction, clearTimeout.
  destruct (timeout (st w)); cbn; rewrite Hp; cbn; repeat split; assumption.
Qed.

(* a call while armed replaces the pending timer *)
Lemma call_rearms (wait : Z) a b w :
  armed wait a w -> armed wait b (debounced wait b w).
Proof.
  intros (h & Hp & Ht & Hc). exists (fresh w).
  unfold debounced, Debounce.executedFunction. rewrite Ht.
  cbn. rewrite Hp. cbn. rewrite Nat.eqb_refl. cbn. repeat split. assumption.
Qed.

(* on a quiet queue time just passes *)
Lemma until_quiet (fuel : nat) (t : Z) w :
  pending w = [] -> now w <= t -> until fuel t w = Some (with_now t w).
Proof.
  intros Hp Ht. unfold until.
  rewrite (advance_idle run fuel (t - 1) w (next_due_nil _ w Hp)).
  cbn [mbind option_bind]. unfold with_now. cbn. do 2 f_equal. lia.
Qed.

(* time passing within the window fires nothing *)
Lemma within_window (fuel : nat) (wait dt : Z) a w :
  armed wait a w -> 0 <= dt < wait ->
  until fuel (now w + dt) w = Some (with_now (now w + dt) w).
Proof.
  intros (h & Hp & _) Hdt. unfold until.
  rewrite advance_idle.
  - cbn [mbind option_bind]. unfold with_now. cbn. do 2 f_equal. lia.
  - apply next_due_none. rewrite Hp. constructor; [cbn; lia | constructor].
Qed.

Lemma armed_with_now (wait dt : Z) a b w :
  armed wait a w -> 0 <= dt < wait ->
  armed wait b (debounced wait b (with_now (now w + dt) w)).
Proof.
  intros (h & Hp & Ht & Hc) Hdt. exists (fresh w).
  unfold debounced, Debounce.executedFunction. cbn. rewrite Ht.
  cbn. rewrite Hp. cbn. rewrite Nat.eqb_refl. cbn. repeat split. assumption.
Qed.

Lemma burst_keeps_armed (fuel : nat) (wait : Z) (l : list (Z * Args)) a w :
  armed wait a w ->
  Forall (fun p => 0 <= fst p < wait) l ->
  exists w',
    burst fuel wait l w = Some w'
    /\ armed wait (last_args a l) w'
    /\ now w' = now w + elapsed l.
Proof.
  revert a w. induction l as [|[dt b] r IH]; intros a w Harm Hall.
  - exists w. cbn. repeat split; [assumption | lia].
  - inversion Hall as [|? ? Hdt Hr]; subst. cbn in Hdt.
    cbn [burst]. rewrite (within_window fuel wait dt a w Harm Hdt).
    cbn [mbind option_bind].
    destruct (IH b _ (armed_with_now wait dt a b w Harm Hdt) Hr) as (w' & Hb & Ha & Hn).
    exists w'. split; [exact Hb |]. split.
    + unfold last_args in *. cbn [map snd]. destruct r as [|q r]; [exact Ha |].
      cbn [map] in *. rewrite (last_default_irrelevant (snd q) (map snd r) b a) in Ha.
      exact Ha.
    + rewrite Hn, now_debounced. unfold elapsed. cbn. lia.
Qed.

(* once the window has passed, the armed timer fires and [func] runs *)
Lemma armed_fires (fuel : nat) (wait T : Z) a w :
  armed wait a w -> now w + Z.max 0 wait <= T -> (1 <= fuel)%nat ->
  exists w',
    advance run fuel T w = Some w'
    /\ calls (st w') = [a]
    /\ pending w' = [].
Proof.
  intros (h & Hp & Ht & Hc) HT Hfuel.
  destruct fuel as [|f]; [lia |].
  assert (next_due T w = Some (Timer h (now w + Z.max 0 wait) (Later a))) as Hd.
  { unfold next_due. rewrite Hp. cbn [earliest t_due].
    destruct (Z.leb_spec (now w + Z.max 0 wait) T); [reflexivity | lia]. }
  rewrite (advance_fire run f T w _ Hd). cbn [t_cb t_id t_due].
  set (w1 := run _ _).
  assert (pending w1 = [] /\ calls (st w1) = [a]) as [Hp1 Hc1].
  { subst w1. unfold run, Debounce.run_later, func. cbn. rewrite Ht. cbn.
    rewrite Hp. cbn. rewrite Nat.eqb_refl. cbn. rewrite Hc. split; reflexivity. }
  rewrite (advance_idle run f T w1 (next_due_nil T w1 Hp1)).
  eexists. split; [reflexivity |]. split; assumption.
Qed.

End DebounceFacts.

(** C8.  A burst of calls to a debounced function, each made less than
    [wait] ms after the one before it, runs the wrapped function exactly
    once: not at all while the burst lasts, and once, with the arguments of
    the last call, when [wait] ms have passed after that call. *)
Theorem debounce_runs_last_call
    {Args : Type} (fuel : nat) (wait t0 dt0 T : Z) (a0 : Args) (rest : list (Z * Args)) :
  0 <= dt0 ->
  Forall (fun p => 0 <= fst p < wait) rest ->
  t0 + dt0 + Debounced.elapsed rest + Z.max 0 wait <= T ->
  (1 <= fuel)%nat ->
  exists w1 w2,
    Debounced.burst fuel wait ((dt0, a0) :: rest) (Debounced.create t0) = Some w1
    /\ Debounced.calls (Loop.st w1) = []
    /\ Loop.advance Debounced.run fuel T w1 = Some w2
    /\ Debounced.calls (Loop.st w2) = [Debounced.last_args a0 rest]
    /\ Loop.pending w2 = [].
Proof.
  intros Hdt0 Hall HT Hfuel.
  cbn [Debounced.burst].
  rewrite (until_quiet fuel _ (Debounced.create t0) eq_refl) by (cbn; lia).
  cbn [mbind option_bind].
  set (w0 := Loop.with_now _ (Debounced.create t0)).
  assert (Debounced.armed wait a0 (Debounced.debounced wait a0 w0)) as Harm
    by (apply call_arms; reflexivity).
  destruct (burst_keeps_armed fuel wait rest a0 _ Harm Hall) as (w1 & Hb & Ha & Hn).
  assert (Loop.now w1 = t0 + dt0 + Debounced.elapsed rest) as Hn1.
  { rewrite Hn, now_debounced. subst w0. cbn. lia. }
  destruct (armed_fires fuel wait T _ w1 Ha ltac:(lia) Hfuel) as (w2 & Hadv & Hc & Hp).
  exists w1, w2. split; [exact Hb |].
  split; [destruct Ha as (h & _ & _ & Hc1); exact Hc1 |].
  repeat split; assumption.
Qed.

Lemma debounce_runs_last_call_witness :
  exists w1 w2,
    Debounced.burst 1 50 [(0, "a"); (30, "b"); (49, "c")] (Debounced.create 0) = Some w1
    /\ Debounced.calls (Loop.st w1) = []
    /\ Loop.advance Debounced.run 1 200 w1 = Some w2
    /\ Debounced.calls (Loop.st w2) = ["c"]
    /\ Loop.pending w2 = [].
Proof.
  apply (debounce_runs_last_call 1 50 0 0 200 "a" [(30, "b"); (49, "c")]).
  - lia.
  - repeat constructor; cbn; lia.
  - cbn. lia.
  - lia.
Defined.

(** ** The visible marker *)

Section MarkerFacts.
Import Page.

Lemma has_class_add_mono (c c' : string) (el el' : nat) (m : gmap nat (gset string)) :
  has_class c m el = true -> has_class c (classList_add el' c' m) el = true.
Proof.
  unfold has_class, classList_add, classes_of, ClassList.contains, ClassList.add.
  intros H. apply bool_decide_eq_true_1 in H. apply bool_decide_eq_true_2.
  destruct (decide (el' = el)) as [-> | Hne].
  - rewrite lookup_insert_eq. cbn. apply elem_of_union. right. exact H.
  - rewrite lookup_insert_ne by exact Hne. exact H.
Qed.

Lemma has_class_add_same (c : string) (el : nat) (m : gmap nat (gset string)) :
  has_class c (classList_add el c m) el = true.
Proof.
  unfold has_class, classList_add, classes_of. rewrite lookup_insert_eq. cbn.
  apply contains_add.
Qed.

(* adding a class that is there changes nothing *)
Lemma add_present (c : string) (el : nat) (m : gmap nat (gset string)) :
  has_class c m el = true -> classList_add el c m = m.
Proof.
  unfold has_class, classList_add, classes_of, ClassList.contains, ClassList.add.
  intros H. apply bool_decide_eq_true_1 in H.
  destruct (m !! el) as [cl|] eqn:E; cbn in *.
  - apply insert_id. rewrite E. f_equal. apply set_eq. intros x.
    rewrite elem_of_union, elem_of_singleton. split; [tauto | intros [-> | Hx]; assumption].
  - exfalso. revert H. apply not_elem_of_empty.
Qed.

Lemma sticky_cons (a b : bool) (r : list bool) :
  sticky (a :: b :: r) = implb a b && sticky (b :: r).
Proof. reflexivity. Qed.

Lemma gains_cons (a b : bool) (r : list bool) :
  gains (a :: b :: r) = ((if negb a && b then 1 else 0) + gains (b :: r))%nat.
Proof. reflexivity. Qed.

Lemma gains_after_true (r : list bool) :
  sticky (true :: r) = true -> gains (true :: r) = 0%nat.
Proof.
  induction r as [|b r IH]; [reflexivity |].
  rewrite sticky_cons, gains_cons. intros H. apply andb_prop in H as [Hb Hs].
  destruct b; [| discriminate]. rewrite (IH Hs). reflexivity.
Qed.

Lemma sticky_gains (l : list bool) : sticky l = true -> (gains l <= 1)%nat.
Proof.
  induction l as [|a r IH]; [cbn; lia |].
  destruct r as [|b r]; [cbn; lia |].
  rewrite sticky_cons, gains_cons. intros H. apply andb_prop in H as [Hab Hs].
  destruct a, b; try discriminate; cbn [negb andb].
  - rewrite (gains_after_true r Hs). lia.
  - rewrite (gains_after_true r Hs). lia.
  - specialize (IH Hs). lia.
Qed.

Section OneWay.
Context {W A : Type} (act : A -> W -> W) (vis : W -> bool).
Hypothesis act_keeps : forall a w, vis w = true -> vis (act a w) = true.

Lemma history_sticky (l : list A) (w : W) :
  sticky (map vis (history act l w)) = true.
Proof.
  revert w. induction l as [|a r IH]; intros w; [reflexivity |].
  cbn [history map]. specialize (IH (act a w)).
  destruct r as [|b r]; cbn [history map sticky] in *;
    (apply andb_true_intro; split; [| exact IH]);
    destruct (vis w) eqn:E; cbn; try reflexivity; apply act_keeps; exact E.
Qed.
End OneWay.

End MarkerFacts.

Section PollingFacts.
Import Loop Page ScrollAnimations.

Lemma check_each_classes (v : Viewport) (l : list (nat * Z)) (w : World) :
  classes (st (check_each v l w)) = classes (st w).
Proof.
  revert w. induction l as [|[element delay] r IH]; intros w; [reflexivity |].
  cbn [check_each]. rewrite IH. destruct (_ && _); reflexivity.
Qed.

Lemma debounce_classes (get : State -> option nat) (set : option nat -> State -> State)
    (cb : Callback) (wait : Z) (w : World) :
  (forall h s, classes (set h s) = classes s) ->
  classes (st (Debounce.executedFunction get set (fun _ : unit => cb) wait tt w))
  = classes (st w).
Proof.
  intros Hset. unfold Debounce.executedFunction.
  destruct (get (st w)); cbn; apply Hset.
Qed.

Lemma polling_keeps (element : nat) (a : Action) (w : World) :
  visible element w = true -> visible element (act a w) = true.
Proof.
  unfold visible. intros H. destruct a as [e | v T]; cbn [act].
  - destruct e; cbn [dispatch]; try exact H.
    + unfold on_resize. rewrite debounce_classes by reflexivity. exact H.
    + unfold on_scroll. rewrite debounce_classes by reflexivity. exact H.
  - destruct (next_due T w) as [t|]; [| exact H].
    destruct (t_cb t) as [el | |]; cbn [run].
    + cbn. apply has_class_add_mono. exact H.
    + unfold Debounce.run_later, checkAnimations. rewrite check_each_classes.
      rewrite st_clearTimeout. exact H.
    + unfold Debounce.run_later, checkAnimations. rewrite check_each_classes.
      rewrite st_clearTimeout. exact H.
Qed.

End PollingFacts.

Section ObserverFacts.
Import Loop Page Observers.

Lemma header_callback_keeps (element : nat) (entries : list Entry) (w : World) :
  visible element w = true -> visible element (header_callback entries w) = true.
Proof.
  revert w. induction entries as [|entry r IH]; intros w H; [exact H |].
  cbn [header_callback]. apply IH.
  destruct (isIntersecting entry); [| exact H].
  unfold visible in *. cbn. apply has_class_add_mono. exact H.
Qed.

Lemma item_callback_classes (entries : list Entry) (w : World) :
  classes (st (item_callback entries w)) = classes (st w).
Proof.
  revert w. induction entries as [|entry r IH]; intros w; [reflexivity |].
  cbn [item_callback]. rewrite IH. destruct (isIntersecting entry); reflexivity.
Qed.

Lemma observer_keeps (element : nat) (a : Action) (w : World) :
  visible element w = true -> visible element (act a w) = true.
Proof.
  intros H. destruct a as [entries | entries | T]; cbn [act].
  - apply header_callback_keeps. exact H.
  - unfold visible in *. rewrite item_callback_classes. exact H.
  - destruct (next_due T w) as [t|]; [| exact H].
    destruct (t_cb t) as [el]. unfold visible in *. cbn.
    apply has_class_add_mono. exact H.
Qed.

End ObserverFacts.

(** C9 as stated fails for script.js.  The hero illustration (element 7,
    registered with a delay of 200 ms) is in view when the page loads and
    the user scrolls at once: the check on load and the check 50 ms after
    the scroll both find it in view and not yet marked, both schedule the
    marker, and [classList.add('visible')] is executed for it twice, at
    200 ms and at 250 ms. *)
Lemma hero_marker_added_twice :
  In (7%nat, 200) (ScrollAnimations.animatedElements (Loop.st hero_loaded))
  /\ ScrollAnimations.executions 7 hero_steps hero_loaded = 2%nat
  /\ map (ScrollAnimations.visible 7) (ScrollAnimations.history hero_steps hero_loaded)
     = [false; false; false; true; true].
Proof. vm_compute. repeat split. left. reflexivity. Qed.

(** C9, amended.  Whatever the page goes through (scroll and resize events,
    viewport checks, observer notifications, timers firing, in any number
    and order), the class list of an element goes from not holding the
    visible marker to holding it at most once, and once it holds the
    marker it keeps it; this holds for the polling trigger of script.js
    and for the observers of part_000.  The call that adds the marker may
    be executed again for an element that already holds it; such a call
    changes nothing on the page. *)
Theorem visible_marker_one_way :
  (forall (l : list ScrollAnimations.Action) (w : ScrollAnimations.World) (element : nat),
      (Page.gains (map (ScrollAnimations.visible element) (ScrollAnimations.history l w)) <= 1)%nat
      /\ Page.sticky (map (ScrollAnimations.visible element) (ScrollAnimations.history l w)) = true)
  /\
  (forall (l : list Observers.Action) (w : Observers.World) (element : nat),
      (Page.gains (map (Observers.visible element) (Observers.history l w)) <= 1)%nat
      /\ Page.sticky (map (Observers.visible element) (Observers.history l w)) = true)
  /\
  (forall (v : ScrollAnimations.Viewport) (w : ScrollAnimations.World) (element : nat),
      ScrollAnimations.visible element w = true ->
      ScrollAnimations.run v (ScrollAnimations.AddVisible element) w = w)
  /\
  (forall (w : Observers.World) (element : nat),
      Observers.visible element w = true ->
      Observers.run (Observers.AddVisible element) w = w).
Proof.
  split; [| split; [| split]].
  - intros l w element.
    assert (Page.sticky (map (ScrollAnimations.visible element) (ScrollAnimations.history l w)) = true)
      as H by (apply history_sticky, polling_keeps).
    split; [apply sticky_gains |]; exact H.
  - intros l w element.
    assert (Page.sticky (map (Observers.visible element) (Observers.history l w)) = true)
      as H by (apply history_sticky, observer_keeps).
    split; [apply sticky_gains |]; exact H.
  - intros v [n f p [cls els sc rs]] element H.
    unfold ScrollAnimations.visible in H. cbn in H.
    unfold ScrollAnimations.run, Loop.with_st, ScrollAnimations.map_classes. cbn.
    rewrite (add_present "visible" element cls H). reflexivity.
  - intros [n f p [cls items ho io]] element H.
    unfold Observers.visible in H. cbn in H.
    unfold Observers.run, Loop.with_st, Observers.map_classes. cbn.
    rewrite (add_present "visible" element cls H). reflexivity.
Qed.

Lemma visible_marker_one_way_witness :
  ScrollAnimations.visible 7 hero_marked = true
  /\ ScrollAnimations.run hero_in_view (ScrollAnimations.AddVisible 7) hero_marked
     = hero_marked.
Proof.
  split; [vm_compute; reflexivity |].
  apply (proj1 (proj2 (proj2 visible_marker_one_way))). vm_compute. reflexivity.
Defined.

(** The polling trigger may schedule the marker for one element more than
    once: the check on load and the check after the first scroll both find
    the hero illustration in view and unmarked, and both schedule it.  The
    second [classList.add] finds the token present and changes nothing. *)
Example hero_marked_once :
  map (ScrollAnimations.visible 7) hero_run = [false; false; false; true; true]
  /\ Page.gains (map (ScrollAnimations.visible 7) hero_run) = 1%nat
  /\ (map Loop.t_cb <$> (Loop.pending <$> hero_run !! 2%nat))
     = Some [ScrollAnimations.AddVisible 7; ScrollAnimations.AddVisible 7].
Proof. vm_compute. repeat split. Qed.


(** * Further properties *)

(** ** What the carousels bind *)

Section InitFacts.

Lemma project_bind_dots (dots : list Project.Dot) (i : nat) (w : Project.World) :
  fst (Project.bind_dots i dots w) = inr tt
  /\ Loop.pending (snd (Project.bind_dots i dots w)) = Loop.pending w
  /\ Project.listeners (Loop.st (snd (Project.bind_dots i dots w)))
     = Project.listeners (Loop.st w)
       ++ map (fun k => {| Project.l_target := Project.TDot k;
                           Project.l_event := "click";
                           Project.l_handler := Project.OnDot k |})
              (seq i (length dots)).
Proof.
  revert i w. induction dots as [|d r IH]; intros i w.
  - cbn. rewrite app_nil_r. repeat split.
  - cbn [Project.bind_dots]. js_unfold.
    destruct (IH (S i) (Loop.with_st
      (Project.add_listener {| Project.l_target := Project.TDot i;
                               Project.l_event := "click";
                               Project.l_handler := Project.OnDot i |}) w))
      as (H1 & H2 & H3).
    destruct (Project.bind_dots (S i) r _) as [[e|[]] w'] eqn:E; cbn in *; [discriminate |].
    repeat split; [exact H2 |]. rewrite H3, <- app_assoc. reflexivity.
Qed.

End InitFacts.

(** The slide carousel's constructor never raises, whatever the page
    holds, and schedules nothing; on a page with slides it binds one click
    listener per dot, in order, then the arrows that exist, then the
    document's keydown listener. *)
Theorem project_init_binds (d : Project.Dom) (t0 : Z) :
  let r := Project.constructor d t0 in
  fst r = inr tt
  /\ Loop.pending (snd r) = []
  /\ Project.listeners (Loop.st (snd r)) =
     match Project.dom_slides d with
     | [] => []
     | _ :: _ =>
         map (fun k => {| Project.l_target := Project.TDot k;
                          Project.l_event := "click";
                          Project.l_handler := Project.OnDot k |})
             (seq 0 (length (Project.dom_dots d)))
         ++ (if Project.dom_prev d
             then [{| Project.l_target := Project.TPrevArrow;
                      Project.l_event := "click";
                      Project.l_handler := Project.OnPrev |}]
             else [])
         ++ (if Project.dom_next d
             then [{| Project.l_target := Project.TNextArrow;
                      Project.l_event := "click";
                      Project.l_handler := Project.OnNext |}]
             else [])
         ++ [{| Project.l_target := Project.TDocument;
                Project.l_event := "keydown";
                Project.l_handler := Project.OnKey |}]
     end.
Proof.
  destruct d as [dots slides prev next]. unfold Project.constructor, Project.init.
  js_unfold.
  destruct slides as [|s slides].
  - cbn. repeat split.
  - destruct (Z.eqb_spec (Z.of_nat (length (s :: slides))) 0) as [E | _];
      [cbn in E; lia |].
    match goal with |- context [Project.bind_dots 0 dots ?w] =>
      destruct (project_bind_dots dots 0 w) as (H1 & H2 & H3);
      destruct (Project.bind_dots 0 dots w) as [[e|[]] w'] eqn:E
    end; cbn in H1, H2, H3; [discriminate |].
    destruct prev, next; js_unfold; rewrite H2, H3; cbn;
      rewrite <- ?app_assoc; repeat split.
Qed.

(** The centered-card carousel's constructor never raises either; on a
    page with cards it schedules the first layout 100 ms later and binds, in
    this order, the next and prev buttons that exist, the window's resize
    listener and, when the track exists, the three touch listeners. *)
Theorem about_init_binds (d : About.Dom) (t0 : Z) :
  let r := About.constructor d t0 in
  fst r = inr tt
  /\ Loop.pending (snd r) =
     match About.dom_cards d with
     | [] => []
     | _ :: _ => [Loop.Timer 1 (t0 + 100) About.InitialUpdate]
     end
  /\ map (fun l => (About.l_target l, About.l_event l, About.l_handler l))
         (About.listeners (Loop.st (snd r))) =
     match About.dom_cards d with
     | [] => []
     | _ :: _ =>
         (if About.dom_next d then [(About.TNextBtn, "click", About.OnNext)] else [])
         ++ (if About.dom_prev d then [(About.TPrevBtn, "click", About.OnPrev)] else [])
         ++ [(About.TWindow, "resize", About.OnResize)]
         ++ match About.dom_track d with
            | Some _ => [(About.TTrack, "touchstart", About.OnTouchStart);
                         (About.TTrack, "touchmove", About.OnTouchMove);
                         (About.TTrack, "touchend", About.OnTouchEnd)]
            | None => []
            end
     end.
Proof.
  destruct d as [cards track prev next].
  unfold About.constructor, About.init, About.initTouchSupport, About.fields.
  js_unfold. destruct cards as [|c cards].
  - cbn. repeat split.
  - destruct (Z.eqb_spec (Z.of_nat (length (c :: cards))) 0) as [E | _];
      [cbn in E; lia |].
    destruct next, prev, track; repeat split.
Qed.

(** ** Slides and dots after a transition *)

Section SlideFacts.
Import Loop Project.

Lemma showSlide_slides (index : num) (w : World) :
  projectSlides (st (showSlide index w)) = hide <$> projectSlides (st w).
Proof. unfold showSlide. cbn. destruct (Num.lookup _ _); reflexivity. Qed.

Lemma showSlide_dots (index : num) (w : World) :
  navDots (st (showSlide index w))
  = dot_mark (bound (totalSlides (st w)) index) <$> (dot_off <$> navDots (st w)).
Proof. unfold showSlide. cbn. destruct (Num.lookup _ _); reflexivity. Qed.

Lemma showSlide_queue (index : num) (w : World) :
  now (showSlide index w) = now w
  /\ pending (showSlide index w) =
     pending w ++
     match Num.lookup (projectSlides (st w)) (bound (totalSlides (st w)) index) with
     | Some _ => [Timer (fresh w) (now w + 150) (FadeIn (bound (totalSlides (st w)) index))]
     | None => []
     end
  /\ fresh (showSlide index w) =
     match Num.lookup (projectSlides (st w)) (bound (totalSlides (st w)) index) with
     | Some _ => S (fresh w)
     | None => fresh w
     end.
Proof.
  unfold showSlide. cbn.
  assert (forall i, Num.lookup (hide <$> projectSlides (st w)) i
                    = hide <$> Num.lookup (projectSlides (st w)) i) as Hl.
  { intros [z|]; cbn; [| reflexivity]. destruct (z <? 0); [reflexivity |].
    apply list_lookup_fmap. }
  rewrite Hl. destruct (Num.lookup (projectSlides (st w)) _); cbn.
  - repeat split.
  - rewrite app_nil_r. repeat split.
Qed.

Lemma hide_inactive (s : Slide) :
  ClassList.contains "active" (slide_classes (hide s)) = false /\ slide_opacity (hide s) = "0".
Proof. split; [apply contains_remove | reflexivity]. Qed.

Lemma lookup_in_range {A} (l : list A) (i : Z) :
  0 <= i < Z.of_nat (length l) -> exists x, Num.lookup l (Int i) = Some x.
Proof.
  intros Hi. cbn. destruct (Z.ltb_spec i 0); [lia |].
  destruct (lookup_lt_is_Some_2 l (Z.to_nat i)) as [x Hx]; [lia |]. eauto.
Qed.

(* the slides once the fade-in of slide [i] has run on hidden slides *)
Lemma reveal_lookup (l : list Slide) (i : Z) (k : nat) (s : Slide) :
  0 <= i ->
  Num.update reveal (Int i) l !! k = Some s ->
  exists s0, l !! k = Some s0
    /\ s = (if decide (Z.of_nat k = i) then reveal s0 else s0).
Proof.
  intros Hi. cbn. destruct (Z.ltb_spec i 0); [lia |].
  destruct (decide (Z.of_nat k = i)) as [E | E].
  - replace (Z.to_nat i) with k by lia. rewrite list_lookup_alter_eq.
    intros Hk. apply fmap_Some in Hk as (s0 & Hs0 & ->). eauto.
  - rewrite list_lookup_alter_ne by lia. eauto.
Qed.

End SlideFacts.

(** Right after [showSlide] returns, no slide is active and every slide has
    opacity 0 (the chosen slide is revealed only by the timer), while the
    dots are already updated: a dot is active exactly when its data-slide
    equals the new index. *)
Theorem showSlide_hides_all (index : num) (w : Project.World) :
  Forall (fun s => ClassList.contains "active" (Project.slide_classes s) = false
                   /\ Project.slide_opacity s = "0")
         (Project.projectSlides (Loop.st (Project.showSlide index w)))
  /\ map (fun d => ClassList.contains "active" (Project.dot_classes d))
         (Project.navDots (Loop.st (Project.showSlide index w)))
     = map (fun d => Num.seq (Project.data_slide d)
                             (Project.currentSlide (Loop.st (Project.showSlide index w))))
           (Project.navDots (Loop.st w)).
Proof.
  rewrite showSlide_slides, showSlide_dots, showSlide_current. split.
  - apply List.Forall_forall. intros s Hin. apply in_map_iff in Hin as (s0 & <- & _).
    apply hide_inactive.
  - rewrite <- !list_fmap_compose. apply map_ext. intros d. cbn.
    unfold Project.dot_mark, Project.dot_off. cbn.
    destruct (Num.seq (Project.data_slide d) _); cbn;
      [apply contains_add | apply contains_remove].
Qed.

(** One transition on a quiet carousel, settled: 150 ms after [showSlide]
    is called with an integer, the slide at the new index, and only that
    slide, is active and has opacity 1; the others have opacity 0. *)
Theorem showSlide_settles (z T : Z) (fuel : nat) (w : Project.World) :
  Loop.pending w = [] ->
  Project.totalSlides (Loop.st w) = Z.of_nat (length (Project.projectSlides (Loop.st w))) ->
  1 <= Project.totalSlides (Loop.st w) ->
  Loop.now w + 150 <= T -> (1 <= fuel)%nat ->
  exists w' i,
    Loop.advance Project.run fuel T (Project.showSlide (Int z) w) = Some w'
    /\ Project.currentSlide (Loop.st w') = Int i
    /\ 0 <= i < Project.totalSlides (Loop.st w)
    /\ Loop.pending w' = []
    /\ forall (k : nat) (s : Project.Slide),
         Project.projectSlides (Loop.st w') !! k = Some s ->
         ClassList.contains "active" (Project.slide_classes s)
           = bool_decide (Z.of_nat k = i)
         /\ Project.slide_opacity s = (if decide (Z.of_nat k = i) then "1" else "0").
Proof.
  intros Hq Hlen Hn HT Hfuel. destruct fuel as [|f]; [lia |].
  destruct (bound_int _ z Hn) as (i & Hb & Hi).
  destruct (lookup_in_range (Project.projectSlides (Loop.st w)) i) as [s0 Hs0]; [lia |].
  destruct (showSlide_queue (Int z) w) as (Hnow & Hp & _).
  rewrite Hb, Hs0, Hq in Hp. cbn [app] in Hp.
  pose proof (showSlide_current (Int z) w) as Hcur. rewrite Hb in Hcur.
  pose proof (showSlide_slides (Int z) w) as Hsl.
  set (w1 := Project.showSlide (Int z) w) in *. clearbody w1.
  assert (Loop.next_due T w1 = Some (Loop.Timer (Loop.fresh w) (Loop.now w + 150)
                                       (Project.FadeIn (Int i)))) as Hd.
  { unfold Loop.next_due. rewrite Hp. cbn.
    destruct (Z.leb_spec (Loop.now w + 150) T); [reflexivity | lia]. }
  rewrite (advance_fire Project.run f T w1 _ Hd). cbn [Loop.t_cb Loop.t_id Loop.t_due].
  set (w2 := Project.run _ _).
  assert (Loop.pending w2 = []) as Hp2.
  { subst w2. cbn. rewrite Hp. cbn. rewrite Nat.eqb_refl. reflexivity. }
  rewrite (advance_idle Project.run f T w2 (next_due_nil _ _ Hp2)).
  exists (Loop.with_now (Z.max (Loop.now w2) T) w2), i.
  split; [reflexivity |]. split; [exact Hcur |].
  split; [lia |]. split; [exact Hp2 |].
  intros k s Hk. subst w2. cbn in Hk. rewrite Hsl in Hk.
  apply reveal_lookup in Hk as (s1 & Hs1 & ->); [| lia].
  rewrite list_lookup_fmap in Hs1.
  apply fmap_Some in Hs1 as (s2 & _ & ->).
  destruct (decide (Z.of_nat k = i)) as [E | E].
  - rewrite bool_decide_eq_true_2 by exact E. split; [apply contains_add | reflexivity].
  - rewrite bool_decide_eq_false_2 by exact E. apply hide_inactive.
Qed.

Lemma showSlide_settles_witness :
  exists w' i,
    Loop.advance Project.run 1 150
      (Project.showSlide (Int 5) (snd (Project.constructor three_slides 0))) = Some w'
    /\ Project.currentSlide (Loop.st w') = Int i
    /\ 0 <= i < 3.
Proof.
  destruct (showSlide_settles 5 150 1 (snd (Project.constructor three_slides 0)))
    as (w' & i & H1 & H2 & H3 & _);
    [reflexivity | reflexivity | vm_compute; discriminate | vm_compute; discriminate | lia |].
  exists w', i. repeat split; try assumption; apply H3.
Defined.



(** ** Cards after a layout *)

Section CardFacts.
Import About.

Lemma mark_active (cur : num) (k : nat) (c : Card) :
  ClassList.contains "active" (card_classes (mark cur k c))
  = Num.seq (Int (Z.of_nat k)) cur.
Proof.
  unfold mark. cbn [card_classes]. destruct (Num.seq (Int (Z.of_nat k)) cur);
    [apply contains_add | apply contains_remove].
Qed.

Lemma mark_twice (cur : num) (k : nat) (c : Card) :
  mark cur k (mark cur k c) = mark cur k c.
Proof.
  unfold mark. cbn [card_classes offsetWidth]. f_equal.
  unfold ClassList.add, ClassList.remove.
  destruct (Num.seq (Int (Z.of_nat k)) cur); apply set_eq; intros x;
    rewrite ?elem_of_union, ?elem_of_difference, ?elem_of_union, ?elem_of_difference;
    tauto.
Qed.

Lemma imap_mark_twice (cur : num) (l : list Card) :
  imap (mark cur) (imap (mark cur) l) = imap (mark cur) l.
Proof.
  apply list_eq. intros k. rewrite !list_lookup_imap.
  destruct (l !! k) as [c|]; cbn; [| reflexivity]. f_equal. apply mark_twice.
Qed.

Lemma update_track (c : Carousel) :
  aboutTrack (updateCarousel c)
  = match imap (mark (currentAboutIndex c)) (aboutCards c), aboutTrack c with
    | card0 :: _, Some t =>
        Some {| container_width := container_width t;
                transform2 := Some (offset2 (offsetWidth card0) (container_width t)
                                            (currentAboutIndex c)) |}
    | _, _ => aboutTrack c
    end.
Proof.
  destruct c as [cards track pb nb cur total ls rt sx cx dr].
  unfold updateCarousel. cbn -[imap].
  destruct (imap _ _); [reflexivity |]. destruct track; reflexivity.
Qed.

Lemma imap_mark_relayout (cur : num) (cardWidth : nat -> Z) (l : list Card) :
  imap (mark cur)
    (imap (fun i card => {| card_classes := card_classes card;
                            offsetWidth := cardWidth i |})
       (imap (mark cur) l))
  = imap (mark cur)
      (imap (fun i card => {| card_classes := card_classes card;
                              offsetWidth := cardWidth i |}) l).
Proof.
  apply list_eq. intros k. rewrite !list_lookup_imap.
  destruct (l !! k) as [c|]; cbn; [| reflexivity]. f_equal.
  pose proof (mark_twice cur k c) as H. unfold mark in *. cbn in *.
  injection H as H. f_equal. exact H.
Qed.

End CardFacts.

(** After [updateCarousel] a card is active exactly when its position
    equals the current index (so none is when the index is [NaN] or out of
    range).  The offset written to the track is computed from the widths
    the layout reports when [updateCarousel] runs: once the browser has
    laid the page out anew, the next [updateCarousel] centres the current
    card for the new widths, taking the first card's width for all, and
    nothing of the earlier layout is left; called again while the layout
    has not changed, it changes nothing.  On a page with no timer pending,
    250 ms after the window was resized the resize listener has done
    exactly this for the layout of the resized window. *)
Theorem updateCarousel_follows_layout :
  (forall (c : About.Carousel) (k : nat) (card : About.Card),
      About.aboutCards (About.updateCarousel c) !! k = Some card ->
      ClassList.contains "active" (About.card_classes card)
      = Num.seq (Int (Z.of_nat k)) (About.currentAboutIndex c))
  /\ (forall (c : About.Carousel) (cardWidth : nat -> Z) (containerWidth i : Z)
             (card0 : About.Card) (rest : list About.Card) (t : About.Track),
        About.aboutCards c = card0 :: rest ->
        About.aboutTrack c = Some t ->
        About.currentAboutIndex c = Int i ->
        About.aboutTrack (About.updateCarousel (About.relayout cardWidth containerWidth c))
        = Some {| About.container_width := containerWidth;
                  About.transform2 :=
                    Some (Int (containerWidth - cardWidth 0%nat
                               - 2 * (i * (cardWidth 0%nat + 48)))) |})
  /\ (forall (c : About.Carousel) (cardWidth : nat -> Z) (containerWidth : Z),
        About.updateCarousel (About.relayout cardWidth containerWidth (About.updateCarousel c))
        = About.updateCarousel (About.relayout cardWidth containerWidth c))
  /\ (forall c : About.Carousel,
        About.updateCarousel (About.updateCarousel c) = About.updateCarousel c)
  /\ (forall (w : About.World) (cardWidth : nat -> Z) (containerWidth T : Z) (fuel : nat),
        Loop.pending w = [] -> Loop.now w + 250 <= T -> (1 <= fuel)%nat ->
        exists w',
          Loop.advance About.run fuel T (About.resized cardWidth containerWidth w) = Some w'
          /\ About.aboutCards (Loop.st w')
             = About.aboutCards
                 (About.updateCarousel (About.relayout cardWidth containerWidth (Loop.st w)))
          /\ About.aboutTrack (Loop.st w')
             = About.aboutTrack
                 (About.updateCarousel (About.relayout cardWidth containerWidth (Loop.st w)))
          /\ Loop.pending w' = []).
Proof.
  split; [| split; [| split; [| split]]]; cycle 4.
  { intros w cardWidth W T fuel Hp HT Hfuel. destruct fuel as [|f]; [lia |].
    assert (Loop.now (Loop.with_st (About.relayout cardWidth W) w) + 250 <= T) as HT'
      by exact HT.
    unfold About.resized. cbn [About.dispatch]. unfold About.resize_debounced.
    set (w0 := Loop.with_st (About.relayout cardWidth W) w) in *.
    assert (Loop.pending w0 = []) as Hp0 by exact Hp.
    assert (Loop.st w0 = About.relayout cardWidth W (Loop.st w)) as Hs0 by reflexivity.
    clearbody w0. rewrite <- Hs0. clear Hs0 Hp HT.
    set (w1 := Debounce.executedFunction _ _ _ _ tt w0).
    assert (Loop.pending w1 = [Loop.Timer (Loop.fresh w0) (Loop.now w0 + 250) About.ResizeLater]
            /\ About.resize_timeout (Loop.st w1) = Some (Loop.fresh w0)
            /\ About.aboutCards (Loop.st w1) = About.aboutCards (Loop.st w0)
            /\ About.aboutTrack (Loop.st w1) = About.aboutTrack (Loop.st w0)
            /\ About.currentAboutIndex (Loop.st w1) = About.currentAboutIndex (Loop.st w0))
      as (Hp1 & Hr1 & Hc1 & Ht1 & Hi1).
    { subst w1. unfold Debounce.executedFunction, Loop.clearTimeout.
      destruct (About.resize_timeout (Loop.st w0)); cbn; rewrite Hp0; cbn;
        repeat split. }
    clearbody w1.
    assert (Loop.next_due T w1
            = Some (Loop.Timer (Loop.fresh w0) (Loop.now w0 + 250) About.ResizeLater)) as Hd.
    { unfold Loop.next_due. rewrite Hp1. cbn [Loop.earliest Loop.t_due].
      destruct (Z.leb_spec (Loop.now w0 + 250) T); [reflexivity | lia]. }
    rewrite (advance_fire About.run f T w1 _ Hd). cbn [Loop.t_cb Loop.t_id Loop.t_due].
    set (w2 := About.run _ _).
    assert (Loop.pending w2 = []
            /\ Loop.st w2 = About.updateCarousel (Loop.st w1)) as [Hp2 Hs2].
    { subst w2. unfold About.run, Debounce.run_later. cbn. rewrite Hr1. cbn.
      rewrite Hp1. cbn. rewrite Nat.eqb_refl. split; reflexivity. }
    clearbody w2.
    rewrite (advance_idle About.run f T w2 (next_due_nil _ _ Hp2)).
    eexists. split; [reflexivity |]. cbn. rewrite Hs2.
    split; [| split; [| exact Hp2]].
    - rewrite !update_cards, Hc1, Hi1. reflexivity.
    - rewrite !update_track, Hc1, Ht1, Hi1. reflexivity. }
  - intros c k card. rewrite update_cards, list_lookup_imap.
    intros H. apply fmap_Some in H as (c0 & _ & ->). apply mark_active.
  - intros c cardWidth W i card0 rest t Hc Ht Hi.
    destruct c as [cards track pb nb cur total ls rt sx cx dr]. cbn in Hc, Ht, Hi. subst.
    reflexivity.
  - intros c cardWidth W. destruct c as [cards track pb nb cur total ls rt sx cx dr].
    unfold About.updateCarousel, About.relayout. cbn -[imap].
    pose proof (imap_mark_relayout cur cardWidth cards) as Hre.
    destruct cards as [|card0 rest], track as [t|]; try reflexivity.
    + cbn -[About.mark]. cbn -[About.mark] in Hre. rewrite Hre. reflexivity.
    + cbn -[About.mark]. cbn -[About.mark] in Hre. rewrite Hre. reflexivity.
  - intros c. destruct c as [cards track pb nb cur total ls rt sx cx dr].
    unfold About.updateCarousel. cbn -[imap].
    pose proof (imap_mark_twice cur cards) as Htwice.
    destruct (imap (About.mark cur) cards) as [|card0 rest] eqn:E, track as [t|];
      cbn -[imap]; rewrite ?Htwice; reflexivity.
Qed.

Lemma updateCarousel_follows_layout_witness :
  exists w',
    Loop.advance About.run 1 400 (About.resized (fun _ => 280) 900 about_laid_out) = Some w'
    /\ About.aboutTrack (Loop.st w')
       = Some {| About.container_width := 900;
                 About.transform2 := Some (Int (900 - 280 - 2 * (1 * (280 + 48)))) |}.
Proof.
  destruct updateCarousel_follows_layout as (_ & _ & _ & _ & H).
  destruct (H about_laid_out (fun _ => 280) 900 400 1%nat eq_refl ltac:(cbn; lia) ltac:(lia))
    as (w' & Ha & _ & Ht & _).
  exists w'. split; [exact Ha |]. rewrite Ht. reflexivity.
Defined.

(** ** Swipes that report their moves *)

Section SwipeFacts.
Import About Gesture.

Lemma moves_keep_total (moves : list Z) (c : Carousel) :
  totalAboutCards (foldl (fun c x => touchmove x c) c moves) = totalAboutCards c.
Proof.
  revert c. induction moves as [|x r IH]; intros c; [reflexivity |].
  cbn [foldl]. rewrite IH. unfold touchmove. destruct (isDragging c); reflexivity.
Qed.

End SwipeFacts.

(** A gesture during which the finger moved at least once is judged on its
    displacement: up to 50 px the index stays, beyond 50 px it moves by one,
    forward for a leftward swipe and backward for a rightward one, wrapping
    around; the gesture ends with dragging switched off, so that a stray
    touchend afterwards changes nothing. *)
Theorem swipe_with_moves_index
    (x0 x : Z) (r : list Z) (c : About.Carousel) (n i : Z) :
  1 <= n -> About.totalAboutCards c = n ->
  About.currentAboutIndex c = Int i -> 0 <= i < n ->
  About.currentAboutIndex (Gesture.perform x0 (x :: r) c)
  = Int (match Gesture.expected x0 (x :: r) with
         | None => i
         | Some About.Next => (i + 1) mod n
         | Some About.Prev => (i - 1) mod n
         end)
  /\ About.isDragging (Gesture.perform x0 (x :: r) c) = false
  /\ About.touchend (Gesture.perform x0 (x :: r) c) = Gesture.perform x0 (x :: r) c.
Proof.
  intros Hn Ht Hc Hi. unfold Gesture.perform.
  pose proof (swipe_with_moves x0 x r c) as Hsw.
  unfold Gesture.before_end in *.
  destruct (moves_track_finger (x :: r) (About.touchstart x0 c) eq_refl)
    as (_ & _ & Hd & Hidx).
  pose proof (moves_keep_total (x :: r) (About.touchstart x0 c)) as Htot.
  set (c1 := foldl _ _ (x :: r)) in *.
  change (About.currentAboutIndex (About.touchstart x0 c))
    with (About.currentAboutIndex c) in Hidx.
  change (About.totalAboutCards (About.touchstart x0 c))
    with (About.totalAboutCards c) in Htot.
  rewrite Hc in Hidx. rewrite Ht in Htot. clearbody c1.
  assert (About.touchend c1 =
          (let c' := match Gesture.expected x0 (x :: r) with
                     | Some About.Next => About.showNextCard c1
                     | Some About.Prev => About.showPrevCard c1
                     | None => c1
                     end in
           About.set_touch (About.startX c') (About.currentX c') false c')) as ->.
  { unfold About.touchend. rewrite Hd, Hsw. reflexivity. }
  cbn zeta.
  split; [| split; reflexivity].
  destruct (Gesture.expected x0 (x :: r)) as [[|]|]; cbn [About.currentAboutIndex About.set_touch].
  - apply next_card_index; try assumption. lia.
  - apply prev_card_index; assumption.
  - exact Hidx.
Qed.

Lemma swipe_with_moves_index_witness :
  About.currentAboutIndex
    (Gesture.perform 300 [250; 180]
       (Loop.st (snd (About.constructor (about_cards 3) 0)))) = Int 2.
Proof.
  apply (swipe_with_moves_index 300 250 [180]
           (Loop.st (snd (About.constructor (about_cards 3) 0))) 3 1);
    [lia | reflexivity | reflexivity | lia].
Defined.

(** ** Debounce on arbitrary bursts *)

Section BurstFacts.
Import Loop Debounced Bursts.
Context {Args : Type}.
Implicit Types (w : World Args) (a b : Args) (log : list Args).

Lemma first_call_arms (wait : Z) a w :
  pending w = [] -> armed_after wait a (calls (st w)) (debounced wait a w).
Proof.
  intros Hp. exists (fresh w).
  unfold debounced, Debounce.executedFunction, clearTimeout.
  destruct (timeout (st w)); cbn; rewrite Hp; cbn; repeat split.
Qed.

(* a gap of [dt] ms and the next call *)
Lemma gap_then_call (fuel : nat) (wait dt : Z) a b log w :
  armed_after wait a log w -> 0 <= dt -> (1 <= fuel)%nat ->
  exists w',
    until fuel (now w + dt) w = Some w'
    /\ now w' = now w + dt
    /\ armed_after wait b (log ++ (if Z.max 0 wait <? dt then [a] else []))
         (debounced wait b w').
Proof.
  intros (h & Hp & Ht & Hc) Hdt Hfuel. destruct fuel as [|f]; [lia |].
  unfold until.
  destruct (Z.ltb_spec (Z.max 0 wait) dt) as [Hlt | Hge].
  - (* the timer fires first *)
    assert (next_due (now w + dt - 1) w
            = Some (Timer h (now w + Z.max 0 wait) (Later a))) as Hd.
    { unfold next_due. rewrite Hp. cbn [earliest t_due].
      destruct (Z.leb_spec (now w + Z.max 0 wait) (now w + dt - 1)); [reflexivity | lia]. }
    rewrite (advance_fire run f _ w _ Hd). cbn [t_cb t_id t_due].
    set (w1 := run _ _).
    assert (pending w1 = [] /\ calls (st w1) = log ++ [a]
            /\ now w1 = now w + Z.max 0 wait) as (Hp1 & Hc1 & Hn1).
    { subst w1. unfold run, Debounce.run_later, func. cbn. rewrite Ht. cbn.
      rewrite Hp. cbn. rewrite Nat.eqb_refl. cbn. rewrite Hc.
      repeat split. lia. }
    clearbody w1.
    rewrite (advance_idle run f _ w1 (next_due_nil _ w1 Hp1)).
    cbn [mbind option_bind].
    eexists. split; [reflexivity |]. split; [cbn; lia |].
    rewrite <- Hc1.
    apply (first_call_arms wait b
             (with_now (Z.max (now (with_now (Z.max (now w1) (now w + dt - 1)) w1))
                              (now w + dt))
                (with_now (Z.max (now w1) (now w + dt - 1)) w1))).
    exact Hp1.
  - (* the call replaces the timer *)
    assert (next_due (now w + dt - 1) w = None) as Hidle.
    { apply next_due_none. rewrite Hp. constructor; [cbn; lia | constructor]. }
    rewrite (advance_idle run (S f) _ w Hidle).
    cbn [mbind option_bind].
    eexists. split; [reflexivity |]. split; [cbn; lia |].
    rewrite app_nil_r. exists (fresh w).
    unfold debounced, Debounce.executedFunction. cbn. rewrite Ht.
    cbn. rewrite Hp. cbn. rewrite Nat.eqb_refl. cbn. repeat split. exact Hc.
Qed.

Lemma burst_trace (fuel : nat) (wait : Z) (l : list (Z * Args)) a log w :
  armed_after wait a log w ->
  Forall (fun p => 0 <= fst p) l -> (1 <= fuel)%nat ->
  exists w',
    burst fuel wait l w = Some w'
    /\ armed_after wait (last_args a l) (log ++ ran wait a l) w'
    /\ now w' = now w + elapsed l.
Proof.
  revert a log w. induction l as [|[dt b] r IH]; intros a log w Harm Hall Hfuel.
  - exists w. cbn. rewrite app_nil_r. repeat split; [assumption | lia].
  - inversion Hall as [|? ? Hdt Hr]; subst. cbn in Hdt.
    destruct (gap_then_call fuel wait dt a b log w Harm Hdt Hfuel) as (w1 & Ha & Hn & Harm1).
    cbn [burst]. rewrite Ha. cbn [mbind option_bind].
    destruct (IH b _ _ Harm1 Hr Hfuel) as (w' & Hb & Harm' & Hn').
    exists w'. split; [exact Hb |]. split.
    + cbn [ran]. rewrite app_assoc.
      unfold last_args in *. cbn [map snd]. destruct r as [|q r]; [exact Harm' |].
      cbn [map] in *. rewrite (last_default_irrelevant (snd q) (map snd r) b a) in Harm'.
      exact Harm'.
    + rewrite Hn', now_debounced, Hn. unfold elapsed. cbn. lia.
Qed.

End BurstFacts.

(** The debounced function on any burst of calls made as separate events,
    none of them at the very instant at which the timer of the call before
    it is due: a call is carried out exactly when the next call comes more
    than [wait] ms after it (or never comes); every other call is dropped.
    During the burst the wrapped function has run with the arguments of the
    calls that were followed by such a gap, in order, and once [wait] ms
    have passed after the last call it has also run with the arguments of
    the last call. *)
Theorem debounce_trace
    {Args : Type} (fuel : nat) (wait t0 dt0 T : Z) (a0 : Args) (rest : list (Z * Args)) :
  0 <= dt0 ->
  Forall (fun p => 0 <= fst p) rest ->
  Bursts.no_tie wait rest ->
  t0 + dt0 + Debounced.elapsed rest + Z.max 0 wait <= T ->
  (1 <= fuel)%nat ->
  exists w1 w2,
    Debounced.burst fuel wait ((dt0, a0) :: rest) (Debounced.create t0) = Some w1
    /\ Debounced.calls (Loop.st w1) = Bursts.ran wait a0 rest
    /\ Loop.advance Debounced.run fuel T w1 = Some w2
    /\ Debounced.calls (Loop.st w2)
       = Bursts.ran wait a0 rest ++ [Debounced.last_args a0 rest]
    /\ Loop.pending w2 = [].
Proof.
  intros Hdt0 Hall _ HT Hfuel.
  cbn [Debounced.burst].
  rewrite (until_quiet fuel _ (Debounced.create t0) eq_refl) by (cbn; lia).
  cbn [mbind option_bind].
  set (w0 := Loop.with_now _ (Debounced.create t0)).
  pose proof (first_call_arms wait a0 w0 eq_refl) as Harm.
  change (Debounced.calls (Loop.st w0)) with (@nil Args) in Harm.
  destruct (burst_trace fuel wait rest a0 [] _ Harm Hall Hfuel) as (w1 & Hb & Ha & Hn).
  cbn [app] in Ha.
  assert (Loop.now w1 = t0 + dt0 + Debounced.elapsed rest) as Hn1.
  { rewrite Hn, now_debounced. subst w0. cbn. lia. }
  destruct Ha as (h & Hp & Hto & Hc).
  exists w1. destruct fuel as [|f]; [lia |].
  assert (Loop.next_due T w1 = Some (Loop.Timer h (Loop.now w1 + Z.max 0 wait)
            (Debounced.Later (Debounced.last_args a0 rest)))) as Hd.
  { unfold Loop.next_due. rewrite Hp. cbn [Loop.earliest Loop.t_due].
    destruct (Z.leb_spec (Loop.now w1 + Z.max 0 wait) T); [reflexivity | lia]. }
  pose proof (advance_fire Debounced.run f T w1 _ Hd) as A.
  cbn [Loop.t_cb Loop.t_id Loop.t_due] in A.
  set (w2 := Debounced.run _ _) in A.
  assert (Loop.pending w2 = []
          /\ Debounced.calls (Loop.st w2)
             = Bursts.ran wait a0 rest ++ [Debounced.last_args a0 rest]) as [Hp2 Hc2].
  { subst w2. unfold Debounced.run, Debounce.run_later, Debounced.func. cbn. rewrite Hto. cbn.
    rewrite Hp. cbn. rewrite Nat.eqb_refl. cbn. rewrite Hc. split; reflexivity. }
  rewrite (advance_idle Debounced.run f T w2 (next_due_nil _ w2 Hp2)) in A.
  eexists. split; [exact Hb |]. split; [exact Hc |]. split; [exact A |].
  split; [exact Hc2 | exact Hp2].
Qed.

Lemma debounce_trace_witness :
  exists w1 w2,
    Debounced.burst 1 50 [(0, "a"); (30, "b"); (51, "c"); (10, "d")] (Debounced.create 0)
      = Some w1
    /\ Debounced.calls (Loop.st w1) = ["b"]
    /\ Loop.advance Debounced.run 1 200 w1 = Some w2
    /\ Debounced.calls (Loop.st w2) = ["b"; "d"]
    /\ Loop.pending w2 = [].
Proof.
  apply (debounce_trace 1 50 0 0 200 "a" [(30, "b"); (51, "c"); (10, "d")]).
  - lia.
  - repeat constructor; cbn; lia.
  - repeat constructor; cbn; lia.
  - cbn. lia.
  - lia.
Defined.

(** ** The toast after any history *)

(** On a page without a toast element [showToast] does nothing at all.  On
    a page with one, whatever timers earlier calls left behind, a call
    replaces the text, and the toast is then shown exactly until the first
    pending hide timer fires, be it the new one or one left by an earlier
    call. *)
Theorem toast_shown_until_first_timer
    (v : Script) (m : string) (d : option Z) (w : Toast.World) (T : Z) (fuel : nat) :
  (Loop.st w = None -> Toast.showToast v m d w = w)
  /\ (forall el : Toast.Element,
        Loop.st w = Some el -> (length (Loop.pending w) < fuel)%nat ->
        exists w',
          Loop.advance Toast.run fuel T (Toast.showToast v m d w) = Some w'
          /\ Toast.text w' = Some m
          /\ (Toast.shown w' = true <->
              T < Loop.now w + Z.max 0 (default (Toast.default_duration v) d)
              /\ Forall (fun t => T < Loop.t_due t) (Loop.pending w))).
Proof.
  split.
  - intros Hst. unfold Toast.showToast. rewrite Hst. reflexivity.
  - intros el Hst Hfuel.
    destruct (showToast_effect v m d w el Hst) as (Hp & _ & _ & _ & Htx & Hsh).
    set (w1 := Toast.showToast v m d w) in *. clearbody w1.
    destruct (advance_total fuel T w1) as [w' Hw].
    { rewrite Hp, length_app. cbn. lia. }
    exists w'. split; [exact Hw |].
    split; [rewrite (advance_text _ _ _ _ Hw); exact Htx |].
    rewrite (advance_shown _ _ _ _ Hw).
    destruct (Loop.next_due T w1) eqn:E.
    + split; [discriminate |]. intros [Hnew Hold].
      assert (Loop.next_due T w1 = None) as E'.
      { apply next_due_none. rewrite Hp. apply Forall_app. split; [exact Hold |].
        constructor; [cbn; lia | constructor]. }
      congruence.
    + rewrite Hsh. split; [| reflexivity]. intros _.
      apply next_due_none in E. rewrite Hp in E. apply Forall_app in E as [Hold Hnew].
      inversion Hnew as [|? ? Hn _]; subst. cbn in Hn. split; [lia | exact Hold].
Qed.

Lemma toast_shown_until_first_timer_witness :
  exists w',
    Loop.advance Toast.run 1 1999
      (Toast.showToast ScriptJs "Email copied" None (Toast.page sample_toast)) = Some w'
    /\ Toast.text w' = Some "Email copied".
Proof.
  destruct (toast_shown_until_first_timer ScriptJs "Email copied" None
              (Toast.page sample_toast) 1999 1) as [_ H].
  destruct (H sample_toast eq_refl ltac:(cbn; lia)) as (w' & H1 & H2 & _).
  exists w'. split; assumption.
Defined.

(** ** What reaches the clipboard *)

Section ClipboardContent.
Import Clipboard.

Lemma resolved_run (v : Script) (p : Platform) (text : string) (d : Document) :
  write p = Resolved ->
  copyToClipboard v p text d = (inr true, set_clipboard (Some text) d).
Proof.
  intros Hw. unfold copyToClipboard, writeText. rewrite Hw. js_unfold. reflexivity.
Qed.

Lemma fallback_clipboard (v : Script) (p : Platform) (text : string) (d : Document) :
  wf d -> write p = Rejected ->
  system_clipboard (snd (copyToClipboard v p text d))
  = match copy p with
    | CopyReturned true => Some text
    | _ => system_clipboard d
    end.
Proof.
  intros Hwf Hw.
  unfold copyToClipboard, writeText, createElement, set_value, set_style,
    appendChild, select, execCommand, removeChild.
  rewrite Hw. js_unfold.
  rewrite (filter_fresh _ _ Hwf).
  destruct (copy p) as [[|]|]; js_unfold;
    rewrite existsb_snoc; cbn; try reflexivity.
  rewrite !lookup_alter_eq, lookup_insert_eq. reflexivity.
Qed.

End ClipboardContent.

(** The helper keeps the document well formed, and the clipboard holds
    exactly the given text whenever a copy really took place (the primary
    write resolved, or the copy command returned true); in every other
    case, in particular whenever the helper answers [false], the clipboard
    is what it was. *)
Theorem clipboard_holds_text
    (v : Script) (p : Clipboard.Platform) (text : string) (d : Clipboard.Document) :
  Clipboard.wf d ->
  let r := Clipboard.copyToClipboard v p text d in
  Clipboard.wf (snd r)
  /\ Clipboard.system_clipboard (snd r)
     = match Clipboard.write p, Clipboard.copy p with
       | Clipboard.Resolved, _ => Some text
       | Clipboard.Rejected, Clipboard.CopyReturned true => Some text
       | Clipboard.Rejected, _ => Clipboard.system_clipboard d
       end
  /\ (fst r = inr false -> Clipboard.system_clipboard (snd r) = Clipboard.system_clipboard d).
Proof.
  intros Hwf r. subst r. destruct (Clipboard.write p) eqn:Hw.
  - rewrite (resolved_run v p text d Hw). cbn. repeat split; [exact Hwf | discriminate].
  - destruct (fallback_run v p text d Hwf Hw) as (Hr & _ & Hb & Hn).
    pose proof (fallback_clipboard v p text d Hwf Hw) as Hc.
    split; [| split].
    + unfold Clipboard.wf in *. rewrite Hb, Hn.
      eapply List.Forall_impl; [| exact Hwf]. cbn. intros; lia.
    + rewrite Hc. destruct (Clipboard.copy p) as [[|]|]; reflexivity.
    + rewrite Hr, Hc. destruct (Clipboard.copy p) as [[|]|]; try discriminate. reflexivity.
Qed.

Lemma clipboard_holds_text_witness :
  Clipboard.system_clipboard
    (snd (Clipboard.copyToClipboard Part000
            {| Clipboard.write := Clipboard.Rejected;
               Clipboard.copy := Clipboard.CopyReturned true |}
            "+1 555 0100" empty_document)) = Some "+1 555 0100".
Proof.
  apply (clipboard_holds_text Part000
           {| Clipboard.write := Clipboard.Rejected;
              Clipboard.copy := Clipboard.CopyReturned true |}
           "+1 555 0100" empty_document).
  constructor.
Defined.

(** Any number of copies in a row leaves the children of the body as they
    were; each call whose primary write was rejected has created one
    element (the temporary textarea, detached again), the others none. *)
Theorem copies_leave_body
    (v : Script) (l : list (Clipboard.Platform * string)) (d : Clipboard.Document) :
  Clipboard.wf d ->
  Clipboard.wf (Copies.copy_all v l d)
  /\ Clipboard.body (Copies.copy_all v l d) = Clipboard.body d
  /\ Clipboard.next_node (Copies.copy_all v l d)
     = (Clipboard.next_node d + Copies.rejected l)%nat.
Proof.
  revert d. induction l as [|[p text] l IH]; intros d Hwf.
  - cbn. unfold Copies.rejected. cbn. repeat split; [exact Hwf | lia].
  - unfold Copies.copy_all. cbn [foldl fst snd].
    set (d1 := snd (Clipboard.copyToClipboard v p text d)).
    assert (Clipboard.wf d1
            /\ Clipboard.body d1 = Clipboard.body d
            /\ Clipboard.next_node d1
               = (Clipboard.next_node d
                  + match Clipboard.write p with
                    | Clipboard.Rejected => 1
                    | Clipboard.Resolved => 0
                    end)%nat) as (Hwf1 & Hb1 & Hn1).
    { subst d1. destruct (Clipboard.write p) eqn:Hw.
      - rewrite (resolved_run v p text d Hw). cbn. repeat split; [exact Hwf | lia].
      - destruct (fallback_run v p text d Hwf Hw) as (_ & _ & Hb & Hn).
        split; [| split; [exact Hb | lia]].
        unfold Clipboard.wf in *. rewrite Hb, Hn.
        eapply List.Forall_impl; [| exact Hwf]. cbn. intros; lia. }
    destruct (IH d1 Hwf1) as (Hwf' & Hb' & Hn').
    fold (Copies.copy_all v l d1).
    split; [exact Hwf' |]. split; [rewrite Hb'; exact Hb1 |].
    rewrite Hn', Hn1. unfold Copies.rejected. cbn [List.filter fst].
    destruct (Clipboard.write p); cbn [length]; lia.
Qed.

Lemma copies_leave_body_witness :
  Clipboard.body
    (Copies.copy_all ScriptJs
       [ ({| Clipboard.write := Clipboard.Rejected; Clipboard.copy := Clipboard.CopyThrew |},
          "vedpawar1410@gmail.com");
         ({| Clipboard.write := Clipboard.Resolved; Clipboard.copy := Clipboard.CopyThrew |},
          "+1 555 0100") ]
       empty_document) = [].
Proof.
  apply (copies_leave_body ScriptJs
           [ ({| Clipboard.write := Clipboard.Rejected; Clipboard.copy := Clipboard.CopyThrew |},
              "vedpawar1410@gmail.com");
             ({| Clipboard.write := Clipboard.Resolved; Clipboard.copy := Clipboard.CopyThrew |},
              "+1 555 0100") ]
           empty_document).
  constructor.
Defined.

(** ** What a viewport check schedules *)

Section CheckFacts.
Import Loop Page ScrollAnimations Checks.

Lemma check_each_frame (v : Viewport) (l : list (nat * Z)) (w : World) :
  st (check_each v l w) = st w /\ now (check_each v l w) = now w.
Proof.
  revert w. induction l as [|[element delay] r IH]; intros w; [split; reflexivity |].
  cbn [check_each]. destruct (IH (if isInViewport v element 100
                                       && negb (has_class "visible" (classes (st w)) element)
                                    then snd (setTimeout (AddVisible element) delay w)
                                    else w)) as [Hs Hn].
  rewrite Hs, Hn. destruct (_ && _); split; reflexivity.
Qed.

Lemma check_each_pending (v : Viewport) (l : list (nat * Z)) (w : World) :
  map key (pending (check_each v l w))
  = map key (pending w)
    ++ map (fun p => (now w + Z.max 0 (snd p), AddVisible (fst p)))
           (List.filter (due_for_reveal v (classes (st w))) l).
Proof.
  revert w. induction l as [|[element delay] r IH]; intros w.
  - cbn. rewrite app_nil_r. reflexivity.
  - cbn [check_each List.filter]. rewrite IH. unfold due_for_reveal at 2. cbn [fst snd].
    destruct (isInViewport v element 100
              && negb (has_class "visible" (classes (st w)) element)); cbn.
    + rewrite map_app, <- app_assoc. reflexivity.
    + reflexivity.
Qed.

End CheckFacts.

(** A viewport check changes no class and does not move the clock; it
    schedules one reveal for each registered element that is in view (with
    the 100 px tolerance) and not yet marked, in registration order, each
    after that element's own delay, and nothing for the other elements. *)
Theorem checkAnimations_schedules (v : ScrollAnimations.Viewport) (w : ScrollAnimations.World) :
  Loop.st (ScrollAnimations.checkAnimations v w) = Loop.st w
  /\ Loop.now (ScrollAnimations.checkAnimations v w) = Loop.now w
  /\ map Checks.key (Loop.pending (ScrollAnimations.checkAnimations v w))
     = map Checks.key (Loop.pending w)
       ++ map (fun p => (Loop.now w + Z.max 0 (snd p), ScrollAnimations.AddVisible (fst p)))
              (List.filter
                 (Checks.due_for_reveal v (ScrollAnimations.classes (Loop.st w)))
                 (ScrollAnimations.animatedElements (Loop.st w))).
Proof.
  unfold ScrollAnimations.checkAnimations.
  destruct (check_each_frame v (ScrollAnimations.animatedElements (Loop.st w)) w) as [Hs Hn].
  split; [exact Hs |]. split; [exact Hn |]. apply check_each_pending.
Qed.

(** ** Elements that never come into view *)

Section OutOfViewFacts.
Import Loop Page ScrollAnimations Checks.

Lemma has_class_add_other (c c' : string) (el el' : nat) (m : gmap nat (gset string)) :
  el' <> el -> has_class c (classList_add el' c' m) el = has_class c m el.
Proof.
  intros Hne. unfold has_class, classList_add, classes_of.
  rewrite lookup_insert_ne by exact Hne. reflexivity.
Qed.

Lemma filter_unscheduled (element : nat) (f : timer Callback -> bool) (l : list (timer Callback)) :
  Forall (fun t => t_cb t <> AddVisible element) l ->
  Forall (fun t => t_cb t <> AddVisible element) (List.filter f l).
Proof.
  intros H. apply List.Forall_forall. intros t Hin. apply List.filter_In in Hin as [Hin _].
  rewrite List.Forall_forall in H. apply H. exact Hin.
Qed.

Lemma clear_unscheduled (element : nat) (h : option nat) (w : World) :
  unscheduled element w -> unscheduled element (clearTimeout h w).
Proof.
  unfold unscheduled. destruct h; cbn; [apply filter_unscheduled | trivial].
Qed.

Lemma debounce_unscheduled (element : nat) (get : State -> option nat)
    (set : option nat -> State -> State) (cb : Callback) (wait : Z) (w : World) :
  cb <> AddVisible element ->
  unscheduled element w ->
  unscheduled element (Debounce.executedFunction get set (fun _ : unit => cb) wait tt w).
Proof.
  intros Hcb H. unfold Debounce.executedFunction.
  pose proof (clear_unscheduled element (get (st w)) w H) as H1.
  unfold unscheduled in *. cbn.
  apply Forall_app. split; [exact H1 |]. constructor; [exact Hcb | constructor].
Qed.

Lemma check_unscheduled (element : nat) (v : Viewport) (l : list (nat * Z)) (w : World) :
  isInViewport v element 100 = false ->
  unscheduled element w -> unscheduled element (check_each v l w).
Proof.
  intros Hout. revert w. induction l as [|[e delay] r IH]; intros w H; [exact H |].
  cbn [check_each]. apply IH.
  destruct (isInViewport v e 100) eqn:Ein; cbn [andb]; [| exact H].
  destruct (negb _); [| exact H].
  unfold unscheduled in *. cbn. apply Forall_app. split; [exact H |].
  constructor; [| constructor]. cbn. intros [= ->]. congruence.
Qed.

(* one step keeps an element that is out of view unmarked and unscheduled *)
Lemma out_of_view_step (element : nat) (a : Action) (w : World) :
  (forall v T, a = Fire v T -> isInViewport v element 100 = false) ->
  visible element w = false /\ unscheduled element w ->
  visible element (act a w) = false /\ unscheduled element (act a w).
Proof.
  intros Hout [Hv Hu]. destruct a as [e | v T]; cbn [act].
  - destruct e; cbn [dispatch]; try (split; assumption).
    + split.
      * unfold visible, on_resize. rewrite debounce_classes by reflexivity. exact Hv.
      * apply debounce_unscheduled; [discriminate | exact Hu].
    + split.
      * unfold visible, on_scroll. rewrite debounce_classes by reflexivity. exact Hv.
      * apply debounce_unscheduled; [discriminate | exact Hu].
  - specialize (Hout v T eq_refl).
    destruct (next_due T w) as [t|] eqn:E; [| split; assumption].
    apply next_due_spec in E as [Hin _].
    assert (t_cb t <> AddVisible element) as Hcb.
    { unfold unscheduled in Hu. rewrite List.Forall_forall in Hu. apply Hu. exact Hin. }
    pose proof (clear_unscheduled element (Some (t_id t)) w Hu) as Hu1.
    destruct (t_cb t) as [el | |]; cbn [run].
    + split.
      * unfold visible. cbn. rewrite has_class_add_other; [exact Hv |].
        intros ->. apply Hcb. reflexivity.
      * exact Hu1.
    + unfold Debounce.run_later, checkAnimations. split.
      * unfold visible. rewrite check_each_classes, st_clearTimeout. exact Hv.
      * apply check_unscheduled; [exact Hout |].
        apply clear_unscheduled. exact Hu1.
    + unfold Debounce.run_later, checkAnimations. split.
      * unfold visible. rewrite check_each_classes, st_clearTimeout. exact Hv.
      * apply check_unscheduled; [exact Hout |].
        apply clear_unscheduled. exact Hu1.
Qed.

End OutOfViewFacts.

(** An element is only ever revealed by a check that found it in view: if
    it is unmarked, no reveal of it is scheduled, and it is out of view
    (with the 100 px tolerance) at every layout the timers see, then it is
    unmarked in every state the page goes through. *)
Theorem out_of_view_stays_hidden
    (element : nat) (l : list ScrollAnimations.Action) (w : ScrollAnimations.World) :
  ScrollAnimations.visible element w = false ->
  Checks.unscheduled element w ->
  (forall v T, In (ScrollAnimations.Fire v T) l ->
               ScrollAnimations.isInViewport v element 100 = false) ->
  Forall (fun w' => ScrollAnimations.visible element w' = false)
         (ScrollAnimations.history l w).
Proof.
  revert w. induction l as [|a r IH]; intros w Hv Hu Hout.
  - constructor; [exact Hv | constructor].
  - unfold ScrollAnimations.history. cbn [Page.history].
    constructor; [exact Hv |].
    destruct (out_of_view_step element a w) as [Hv1 Hu1].
    { intros v T ->. apply (Hout v T). left. reflexivity. }
    { split; assumption. }
    apply IH; [exact Hv1 | exact Hu1 |].
    intros v T Hin. apply (Hout v T). right. exact Hin.
Qed.

Lemma out_of_view_stays_hidden_witness :
  Forall (fun w' => ScrollAnimations.visible 7 w' = false)
    (ScrollAnimations.history
       [ ScrollAnimations.Deliver Scroll;
         ScrollAnimations.Fire hero_below 50;
         ScrollAnimations.Fire hero_below 300 ]
       (ScrollAnimations.constructor hero_page ∅ hero_below 0)).
Proof.
  apply out_of_view_stays_hidden.
  - vm_compute. reflexivity.
  - vm_compute. constructor.
  - intros v T [H | [H | [H | []]]]; try discriminate H;
      injection H as <- _; vm_compute; reflexivity.
Defined.

(** ** Observed elements that intersect *)

Section ObserverReveal.
Import Loop Page Observers Handles.

Lemma distinct_fired (t : timer Callback) (w : World) :
  distinct w ->
  distinct (run (t_cb t) (with_now (Z.max (now w) (t_due t)) (clearTimeout (Some (t_id t)) w))).
Proof.
  intros [Hnd Hlt]. destruct (t_cb t). split; cbn.
  - apply NoDup_map_filter. exact Hnd.
  - rewrite List.Forall_forall in *. intros x Hx.
    apply List.filter_In in Hx as [Hx _]. apply Hlt. exact Hx.
Qed.

Lemma fired_visible (element : nat) (t : timer Callback) (w : World) :
  t_cb t = AddVisible element ->
  visible element
    (run (t_cb t) (with_now (Z.max (now w) (t_due t)) (clearTimeout (Some (t_id t)) w)))
  = true.
Proof. intros ->. unfold visible. cbn. apply has_class_add_same. Qed.

Lemma fired_keeps (element : nat) (t : timer Callback) (w : World) :
  visible element w = true ->
  visible element
    (run (t_cb t) (with_now (Z.max (now w) (t_due t)) (clearTimeout (Some (t_id t)) w)))
  = true.
Proof.
  intros H. destruct (t_cb t). unfold visible in *. cbn. apply has_class_add_mono. exact H.
Qed.

Lemma observers_advance_total (fuel : nat) (T : Z) (w : World) :
  (length (pending w) <= fuel)%nat -> exists w', advance run fuel T w = Some w'.
Proof.
  revert w. induction fuel as [|f IH]; intros w Hlen; cbn [advance];
    destruct (next_due T w) as [t|] eqn:E; try (eexists; reflexivity).
  - apply next_due_spec in E as [Hin _]. destruct (pending w); [destruct Hin | cbn in Hlen; lia].
  - apply IH. destruct (t_cb t). cbn.
    apply next_due_spec in E as [Hin _]. pose proof (clear_shrinks t _ Hin). lia.
Qed.

Lemma observers_advance_keeps (element : nat) (fuel : nat) (T : Z) (w w' : World) :
  advance run fuel T w = Some w' -> visible element w = true -> visible element w' = true.
Proof.
  revert w. induction fuel as [|f IH]; intros w; cbn [advance];
    destruct (next_due T w) as [t|]; try discriminate.
  - intros [= <-]. trivial.
  - intros H Hv. apply (IH _ H). apply fired_keeps. exact Hv.
  - intros [= <-]. trivial.
Qed.

(* a reveal that is due by [T] has run once the clock has reached [T] *)
Lemma due_reveal_runs (element : nat) (fuel : nat) (T : Z) (w w' : World) (t : timer Callback) :
  distinct w -> In t (pending w) -> t_cb t = AddVisible element -> t_due t <= T ->
  advance run fuel T w = Some w' -> visible element w' = true.
Proof.
  revert w. induction fuel as [|f IH]; intros w Hd Hin Hcb Hdue; cbn [advance];
    destruct (next_due T w) as [t0|] eqn:E; try discriminate.
  - apply next_due_none in E. rewrite List.Forall_forall in E.
    specialize (E t Hin). cbn in E. lia.
  - intros H. destruct (Nat.eq_dec (t_id t0) (t_id t)) as [Eid | Nid].
    + (* the timer that fires is [t] *)
      apply next_due_spec in E as [Hin0 _].
      assert (t0 = t) as ->.
      { destruct Hd as [Hnd _]. clear -Hnd Hin Hin0 Eid.
        induction (pending w) as [|x r IHr]; [destruct Hin |].
        cbn in Hnd. apply NoDup_cons in Hnd as [Hx Hr].
        destruct Hin as [-> | Hin], Hin0 as [-> | Hin0]; try reflexivity.
        - exfalso. apply Hx. apply list_elem_of_In, in_map_iff. exists t0. split; assumption.
        - exfalso. apply Hx. apply list_elem_of_In, in_map_iff. exists t.
          split; [symmetry; assumption | assumption].
        - apply IHr; assumption. }
      apply (observers_advance_keeps element _ _ _ _ H). apply fired_visible. exact Hcb.
    + apply (IH _ (distinct_fired t0 w Hd)) in H; try assumption.
      destruct (t_cb t0). cbn. apply List.filter_In. split; [exact Hin |].
      destruct (Nat.eqb_spec (t_id t) (t_id t0)); [congruence | reflexivity].
  - apply next_due_none in E. rewrite List.Forall_forall in E.
    specialize (E t Hin). cbn in E. lia.
Qed.

Lemma indexOf_lower (l : list nat) (x : nat) (from : Z) :
  0 <= from -> -1 <= indexOf l x from.
Proof.
  revert from. induction l as [|y r IH]; intros from Hf; cbn; [lia |].
  destruct (Nat.eqb y x); [lia |]. apply IH. lia.
Qed.

Lemma stagger_bound (l : list nat) (x : nat) : Z.rem (indexOf l x 0) 3 * 100 <= 200.
Proof.
  pose proof (indexOf_lower l x 0 ltac:(lia)) as H.
  destruct (Z.eq_dec (indexOf l x 0) (-1)) as [-> | Hne];
    [change (Z.rem (-1) 3) with (-1); lia |].
  pose proof (Z.rem_bound_pos (indexOf l x 0) 3 ltac:(lia) ltac:(lia)). lia.
Qed.

Lemma item_callback_frame (entries : list Entry) (w : World) :
  distinct w ->
  distinct (item_callback entries w)
  /\ now (item_callback entries w) = now w
  /\ (forall t, In t (pending w) -> In t (pending (item_callback entries w)))
  /\ (forall x, x ∉ item_observed (st w) -> x ∉ item_observed (st (item_callback entries w))).
Proof.
  revert w. induction entries as [|entry r IH]; intros w Hd.
  - cbn. split; [exact Hd |]. split; [reflexivity |]. split; auto.
  - cbn [item_callback]. destruct (isIntersecting entry).
    + destruct (IH (with_st (item_unobserve (target entry))
                      (snd (setTimeout (AddVisible (target entry))
                              (Z.rem (indexOf (gridItems (st w)) (target entry) 0) 3 * 100) w))))
        as (H1 & H2 & H3 & H4).
      { apply distinct_with_st, distinct_setTimeout. exact Hd. }
      split; [exact H1 |]. split; [exact H2 |]. split.
      * intros t Hin. apply H3. cbn. apply in_or_app. left. exact Hin.
      * intros x Hx. apply H4. cbn. intros Hin. apply Hx.
        apply elem_of_difference in Hin as [Hin _]. exact Hin.
    + apply IH. exact Hd.
Qed.

Lemma item_callback_schedules (entries : list Entry) (entry : Entry) (w : World) :
  distinct w -> In entry entries -> isIntersecting entry = true ->
  (exists t, In t (pending (item_callback entries w))
             /\ t_cb t = AddVisible (target entry)
             /\ t_due t <= now w + 200)
  /\ target entry ∉ item_observed (st (item_callback entries w)).
Proof.
  revert w. induction entries as [|e r IH]; intros w Hd Hin Hint; [destruct Hin |].
  cbn [item_callback]. destruct Hin as [-> | Hin].
  - rewrite Hint.
    set (delay := Z.rem (indexOf (gridItems (st w)) (target entry) 0) 3 * 100).
    set (w1 := with_st (item_unobserve (target entry))
                 (snd (setTimeout (AddVisible (target entry)) delay w))).
    destruct (item_callback_frame r w1) as (_ & _ & H3 & H4).
    { apply distinct_with_st, distinct_setTimeout. exact Hd. }
    split.
    + exists (Timer (fresh w) (now w + Z.max 0 delay) (AddVisible (target entry))).
      split; [| split; [reflexivity |]].
      * apply H3. subst w1. cbn. apply in_or_app. right. left. reflexivity.
      * cbn. pose proof (stagger_bound (gridItems (st w)) (target entry)). fold delay in H. lia.
    + apply H4. subst w1. cbn. intros Hx. apply elem_of_difference in Hx as [_ Hx].
      apply Hx, elem_of_singleton. reflexivity.
  - destruct (isIntersecting e).
    + destruct (IH (with_st (item_unobserve (target e))
                      (snd (setTimeout (AddVisible (target e))
                              (Z.rem (indexOf (gridItems (st w)) (target e) 0) 3 * 100) w))))
        as [H1 H2]; try assumption.
      { apply distinct_with_st, distinct_setTimeout. exact Hd. }
      split; assumption.
    + apply IH; assumption.
Qed.

Lemma header_callback_marks (entries : list Entry) (entry : Entry) (w : World) :
  In entry entries -> isIntersecting entry = true ->
  visible (target entry) (header_callback entries w) = true.
Proof.
  revert w. induction entries as [|e r IH]; intros w Hin Hint; [destruct Hin |].
  cbn [header_callback]. destruct Hin as [-> | Hin].
  - rewrite Hint. apply header_callback_keeps. unfold visible. cbn.
    apply has_class_add_same.
  - apply IH; assumption.
Qed.

Lemma header_callback_unobserved (entries : list Entry) (x : nat) (w : World) :
  x ∉ header_observed (st w) -> x ∉ header_observed (st (header_callback entries w)).
Proof.
  revert w. induction entries as [|e r IH]; intros w Hx; [exact Hx |].
  cbn [header_callback]. apply IH. destruct (isIntersecting e); [| exact Hx].
  cbn. intros Hin. apply Hx. apply elem_of_difference in Hin as [Hin _]. exact Hin.
Qed.

Lemma header_callback_unobserves (entries : list Entry) (entry : Entry) (w : World) :
  In entry entries -> isIntersecting entry = true ->
  target entry ∉ header_observed (st (header_callback entries w)).
Proof.
  revert w. induction entries as [|e r IH]; intros w Hin Hint; [destruct Hin |].
  cbn [header_callback]. destruct Hin as [-> | Hin].
  - rewrite Hint. apply header_callback_unobserved. cbn. intros Hx.
    apply elem_of_difference in Hx as [_ Hx]. apply Hx, elem_of_singleton. reflexivity.
  - apply IH; assumption.
Qed.

End ObserverReveal.

(** A section header reported as intersecting is marked visible by the
    time the observer callback returns, and is no longer observed. *)
Theorem header_intersection_marks
    (entries : list Observers.Entry) (entry : Observers.Entry) (w : Observers.World) :
  In entry entries -> Observers.isIntersecting entry = true ->
  Observers.visible (Observers.target entry) (Observers.header_callback entries w) = true
  /\ (Observers.target entry
        ∉ Observers.header_observed (Loop.st (Observers.header_callback entries w))).
Proof.
  intros Hin Hint. split.
  - apply header_callback_marks; assumption.
  - apply header_callback_unobserves; assumption.
Qed.

Lemma header_intersection_marks_witness :
  Observers.visible 1
    (Observers.header_callback
       [ {| Observers.target := 1%nat; Observers.isIntersecting := true |} ]
       observed_page) = true.
Proof.
  apply (header_intersection_marks
           [ {| Observers.target := 1%nat; Observers.isIntersecting := true |} ]
           {| Observers.target := 1%nat; Observers.isIntersecting := true |} observed_page).
  - left. reflexivity.
  - reflexivity.
Defined.

(** A grid item reported as intersecting stops being observed at once and
    is marked visible at most 200 ms later: its stagger delay is 0, 100 or
    200 ms according to its position among the grid items. *)
Theorem item_intersection_reveals
    (entries : list Observers.Entry) (entry : Observers.Entry) (w : Observers.World)
    (T : Z) (fuel : nat) :
  Handles.distinct w ->
  In entry entries -> Observers.isIntersecting entry = true ->
  Loop.now w + 200 <= T ->
  (length (Loop.pending (Observers.item_callback entries w)) <= fuel)%nat ->
  (Observers.target entry
     ∉ Observers.item_observed (Loop.st (Observers.item_callback entries w)))
  /\ exists w',
      Loop.advance Observers.run fuel T (Observers.item_callback entries w) = Some w'
      /\ Observers.visible (Observers.target entry) w' = true.
Proof.
  intros Hd Hin Hint HT Hfuel.
  destruct (item_callback_schedules entries entry w Hd Hin Hint) as [(t & Ht & Hcb & Hdue) Hun].
  split; [exact Hun |].
  destruct (item_callback_frame entries w Hd) as (Hd' & _).
  destruct (observers_advance_total fuel T _ Hfuel) as [w' Hw].
  exists w'. split; [exact Hw |].
  apply (due_reveal_runs _ fuel T _ w' t Hd' Ht Hcb); [lia | exact Hw].
Qed.

Lemma item_intersection_reveals_witness :
  exists w',
    Loop.advance Observers.run 1 200
      (Observers.item_callback
         [ {| Observers.target := 4%nat; Observers.isIntersecting := true |} ]
         observed_page) = Some w'
    /\ Observers.visible 4 w' = true.
Proof.
  apply (item_intersection_reveals
           [ {| Observers.target := 4%nat; Observers.isIntersecting := true |} ]
           {| Observers.target := 4%nat; Observers.isIntersecting := true |}
           observed_page 200 1).
  - split; [constructor | constructor].
  - left. reflexivity.
  - reflexivity.
  - vm_compute. discriminate.
  - vm_compute. lia.
Defined.

(** ** Image modal *)

Section ModalFacts.
Import Modal.

Lemma open_consistent (s : State) : consistent (openModal s).
Proof.
  unfold consistent, is_open. cbn. split; [reflexivity | intros _; apply contains_add].
Qed.

Lemma close_consistent (s : State) : consistent (closeModal s).
Proof.
  unfold consistent, is_open. cbn. rewrite contains_remove. split; discriminate.
Qed.

Lemma step_consistent (v : Script) (pg : Page) (i : Input) (s : State) :
  consistent s -> consistent (step v pg i s).
Proof.
  intros Hs. unfold step, handle.
  destruct (wired v pg); [| exact Hs].
  destruct i as [found | src alt | | on_backdrop | key].
  - destruct v; [| exact Hs]. unfold expand.
    destruct found as [ph|]; [| exact Hs].
    destruct (has_content pg); [apply open_consistent | exact Hs].
  - destruct v; [exact Hs | apply open_consistent].
  - destruct (has_close pg); [apply close_consistent | exact Hs].
  - destruct on_backdrop; [apply close_consistent | exact Hs].
  - js_unfold.
    destruct (String.eqb key "Escape" && ClassList.contains "active" (modal_classes s));
      [apply close_consistent | exact Hs].
Qed.

End ModalFacts.

(** Page scroll is locked exactly while the modal is open: if that holds
    when the page loads, it holds after every click and key press, in both
    scripts, whatever the page lacks and also when the expand listener
    raises. *)
Theorem modal_lock_follows_open
    (v : Script) (pg : Modal.Page) (l : list Modal.Input) (s : Modal.State) :
  Modal.consistent s ->
  Forall Modal.consistent (Modal.history v pg l s).
Proof.
  revert s. induction l as [|i r IH]; intros s Hs.
  - constructor; [exact Hs | constructor].
  - unfold Modal.history. cbn [Page.history]. constructor; [exact Hs |].
    apply IH. apply step_consistent. exact Hs.
Qed.

(** Once the listeners are bound, Escape and a click on the backdrop leave
    the modal closed, a click on the close button does when that button
    exists, and a click elsewhere inside the modal or any other key changes
    nothing. *)
Theorem modal_close_paths (v : Script) (pg : Modal.Page) (s : Modal.State) :
  Modal.wired v pg = true ->
  Modal.is_open (Modal.step v pg (Modal.Key "Escape") s) = false
  /\ Modal.is_open (Modal.step v pg (Modal.ModalClick true) s) = false
  /\ Modal.step v pg (Modal.ModalClick false) s = s
  /\ (Modal.has_close pg = true -> Modal.is_open (Modal.step v pg Modal.CloseClick s) = false)
  /\ (forall key, String.eqb key "Escape" = false -> Modal.step v pg (Modal.Key key) s = s).
Proof.
  intros Hw. unfold Modal.step, Modal.handle. rewrite Hw.
  split; [| split; [| split; [| split]]].
  - js_unfold. unfold Modal.is_open.
    destruct (ClassList.contains "active" (Modal.modal_classes s)) eqn:E; cbn.
    + apply contains_remove.
    + exact E.
  - unfold Modal.is_open. cbn. apply contains_remove.
  - reflexivity.
  - intros ->. unfold Modal.is_open. cbn. apply contains_remove.
  - intros key Hk. js_unfold. rewrite Hk. reflexivity.
Qed.

Lemma modal_lock_follows_open_witness :
  Forall Modal.consistent
    (Modal.history ScriptJs modal_page
       [ Modal.ExpandClick (Some {| Modal.ph_text := "Dashboard";
                                    Modal.ph_background := "linear-gradient(#123, #456)" |});
         Modal.ModalClick false;
         Modal.Key "Escape" ]
       modal_closed).
Proof.
  apply modal_lock_follows_open.
  split; [vm_compute; discriminate | vm_compute; discriminate].
Defined.

Lemma modal_close_paths_witness :
  Modal.is_open
    (Modal.step Part000 modal_page (Modal.Key "Escape")
       (Modal.step Part000 modal_page (Modal.ImageClick "hero.jpg" "Portrait") modal_closed))
  = false.
Proof.
  destruct (modal_close_paths Part000 modal_page
              (Modal.step Part000 modal_page (Modal.ImageClick "hero.jpg" "Portrait")
                 modal_closed) eq_refl) as [H _].
  exact H.
Defined.

(** The expand listener of script.js either opens the modal showing the
    placeholder's text and background, or raises without changing
    anything: it raises when the button has no container or placeholder,
    and when the modal has no content element. *)
Theorem expand_opens_or_raises
    (pg : Modal.Page) (found : option Modal.Placeholder) (s : Modal.State) :
  Modal.has_modal pg = true ->
  match found, Modal.has_content pg with
  | Some ph, true =>
      fst (Modal.handle ScriptJs pg (Modal.ExpandClick found) s) = inr tt
      /\ Modal.is_open (Modal.step ScriptJs pg (Modal.ExpandClick found) s) = true
      /\ Modal.body_overflow (Modal.step ScriptJs pg (Modal.ExpandClick found) s) = "hidden"
      /\ Modal.content_text (Modal.step ScriptJs pg (Modal.ExpandClick found) s)
         = Modal.ph_text ph
      /\ Modal.content_background (Modal.step ScriptJs pg (Modal.ExpandClick found) s)
         = Modal.ph_background ph
  | _, _ =>
      Modal.handle ScriptJs pg (Modal.ExpandClick found) s = (inl TypeError, s)
  end.
Proof.
  intros Hm. unfold Modal.step, Modal.handle, Modal.wired, Modal.expand. rewrite Hm.
  destruct found as [ph|]; [| reflexivity].
  destruct (Modal.has_content pg); [| reflexivity].
  cbn. repeat split. unfold Modal.is_open. cbn. apply contains_add.
Qed.

Lemma expand_opens_or_raises_witness :
  Modal.handle ScriptJs modal_page (Modal.ExpandClick None) modal_closed
  = (inl TypeError, modal_closed).
Proof.
  apply (expand_opens_or_raises modal_page None modal_closed). reflexivity.
Defined.

(** ** Navigation highlight *)

Section NavFacts.
Import Nav.

Lemma mark_is_active (id : string) (l : Link) :
  is_active (mark id l) = String.eqb (href l) ("#" ++ id).
Proof.
  unfold is_active, mark. cbn [link_classes href].
  destruct (String.eqb (href l) ("#" ++ id)); [apply contains_add | apply contains_remove].
Qed.

Lemma mark_over (id1 id2 : string) (l : Link) : mark id2 (mark id1 l) = mark id2 l.
Proof.
  unfold mark. cbn [link_classes href]. f_equal.
  unfold ClassList.add, ClassList.remove.
  destruct (String.eqb (href l) ("#" ++ id1)), (String.eqb (href l) ("#" ++ id2));
    apply set_eq; intros x;
    rewrite ?elem_of_union, ?elem_of_difference, ?elem_of_union, ?elem_of_difference;
    tauto.
Qed.

Lemma mark_links_over (id1 id2 : string) (links : list Link) :
  mark_links id2 (mark_links id1 links) = mark_links id2 links.
Proof.
  unfold mark_links. rewrite <- list_fmap_compose. apply list_fmap_ext.
  intros _ l _. apply mark_over.
Qed.

Lemma last_filter_cons {A : Type} (P : A -> bool) (x : A) (r : list A) :
  last (List.filter P (x :: r))
  = match last (List.filter P r) with
    | Some y => Some y
    | None => if P x then Some x else None
    end.
Proof.
  cbn [List.filter]. destruct (P x); [| destruct (last _); reflexivity].
  destruct (List.filter P r) as [|y k] eqn:E; [reflexivity |].
  rewrite last_cons. destruct (last (y :: k)) eqn:E2; [reflexivity |].
  apply last_None in E2. discriminate.
Qed.

Lemma fold_last_wins {A : Type} (P : A -> bool) (id : A -> string)
    (l : list A) (links : list Link) :
  foldl (fun links x => if P x then mark_links (id x) links else links) links l
  = match last (List.filter P l) with
    | Some x => mark_links (id x) links
    | None => links
    end.
Proof.
  revert links. induction l as [|x r IH]; intros links; [reflexivity |].
  cbn [foldl]. rewrite IH, last_filter_cons.
  destruct (last (List.filter P r)) as [y|]; destruct (P x); try reflexivity.
  apply mark_links_over.
Qed.

Lemma marked_flags (id : string) (links : list Link) :
  map is_active (mark_links id links)
  = map (fun l => String.eqb (href l) ("#" ++ id)) links.
Proof.
  unfold mark_links. rewrite <- list_fmap_compose. apply map_ext. intros l.
  apply mark_is_active.
Qed.

Lemma at_most_one_href (x : string) (links : list Link) :
  NoDup (map href links) ->
  (length (List.filter (fun l => String.eqb (href l) x) links) <= 1)%nat.
Proof.
  induction links as [|l r IH]; [cbn; lia |].
  cbn [map List.filter]. intros Hnd. apply NoDup_cons in Hnd as [Hl Hr].
  specialize (IH Hr). destruct (String.eqb_spec (href l) x) as [E | _]; [| exact IH].
  cbn [length].
  assert (List.filter (fun l0 => String.eqb (href l0) x) r = []) as ->; [| cbn; lia].
  destruct (List.filter _ r) as [|l' k] eqn:F; [reflexivity |].
  exfalso. apply Hl.
  assert (In l' (List.filter (fun l0 => String.eqb (href l0) x) r)) as Hin
    by (rewrite F; left; reflexivity).
  apply List.filter_In in Hin as [Hin Hx]. apply String.eqb_eq in Hx.
  apply list_elem_of_In, in_map_iff. exists l'. split; [congruence | exact Hin].
Qed.

Lemma marked_at_most_one (id : string) (links : list Link) :
  NoDup (map href links) ->
  (length (List.filter is_active (mark_links id links)) <= 1)%nat.
Proof.
  intros Hnd. pose proof (at_most_one_href ("#" ++ id) links Hnd) as H.
  unfold mark_links.
  assert (forall k, length (List.filter is_active (mark id <$> k))
                    = length (List.filter (fun l => String.eqb (href l) ("#" ++ id)) k))
    as ->; [| exact H].
  induction k as [|l k IHk]; [reflexivity |].
  cbn [fmap list_fmap List.filter]. rewrite mark_is_active.
  destruct (String.eqb (href l) ("#" ++ id)); cbn [length]; rewrite IHk; reflexivity.
Qed.

Lemma highlight_closed_form (scrollY : Z) (sections : list Section) (links : list Link) :
  highlightNavigation scrollY sections links
  = match last_within (scrollY + 200) sections with
    | Some s => mark_links (sec_id s) links
    | None => links
    end.
Proof.
  unfold highlightNavigation, last_within. cbn zeta.
  apply (fold_last_wins (within (scrollY + 200)) sec_id).
Qed.

Lemma observer_closed_form (entries : list Entry) (links : list Link) :
  observer_callback entries links
  = match last_intersecting entries with
    | Some e => mark_links (target_id e) links
    | None => links
    end.
Proof.
  unfold observer_callback, last_intersecting.
  apply (fold_last_wins isIntersecting target_id).
Qed.

End NavFacts.

(** The highlight goes to the last match.  After [highlightNavigation],
    when no section contains the scroll position (plus the 200 px
    lookahead) the links are untouched; otherwise a link is active exactly
    when its href is '#' followed by the id of the last such section, and
    earlier matching sections leave no trace.  The observer callback of
    part_000 does the same with the last intersecting entry. *)
Theorem highlight_last_match_wins :
  (forall (scrollY : Z) (sections : list Nav.Section) (links : list Nav.Link),
      match Nav.last_within (scrollY + 200) sections with
      | None => Nav.highlightNavigation scrollY sections links = links
      | Some s =>
          Nav.highlightNavigation scrollY sections links = Nav.mark_links (Nav.sec_id s) links
          /\ map Nav.is_active (Nav.highlightNavigation scrollY sections links)
             = map (fun l => String.eqb (Nav.href l) ("#" ++ Nav.sec_id s)) links
      end)
  /\
  (forall (entries : list Nav.Entry) (links : list Nav.Link),
      match Nav.last_intersecting entries with
      | None => Nav.observer_callback entries links = links
      | Some e =>
          Nav.observer_callback entries links = Nav.mark_links (Nav.target_id e) links
          /\ map Nav.is_active (Nav.observer_callback entries links)
             = map (fun l => String.eqb (Nav.href l) ("#" ++ Nav.target_id e)) links
      end).
Proof.
  split.
  - intros scrollY sections links. rewrite highlight_closed_form.
    destruct (Nav.last_within (scrollY + 200) sections) as [s|]; [| reflexivity].
    split; [reflexivity | apply marked_flags].
  - intros entries links. rewrite observer_closed_form.
    destruct (Nav.last_intersecting entries) as [e|]; [| reflexivity].
    split; [reflexivity | apply marked_flags].
Qed.

(** When no two links share an href, a highlight that found a section (or
    an intersecting entry) leaves at most one link active. *)
Theorem highlight_at_most_one
    (links : list Nav.Link) :
  NoDup (map Nav.href links) ->
  (forall (scrollY : Z) (sections : list Nav.Section),
      Nav.last_within (scrollY + 200) sections <> None ->
      (length (List.filter Nav.is_active (Nav.highlightNavigation scrollY sections links))
       <= 1)%nat)
  /\
  (forall entries : list Nav.Entry,
      Nav.last_intersecting entries <> None ->
      (length (List.filter Nav.is_active (Nav.observer_callback entries links)) <= 1)%nat).
Proof.
  intros Hnd. split.
  - intros scrollY sections Hs. rewrite highlight_closed_form.
    destruct (Nav.last_within (scrollY + 200) sections) as [s|]; [| contradiction].
    apply marked_at_most_one. exact Hnd.
  - intros entries He. rewrite observer_closed_form.
    destruct (Nav.last_intersecting entries) as [e|]; [| contradiction].
    apply marked_at_most_one. exact Hnd.
Qed.

Lemma highlight_at_most_one_witness :
  (length (List.filter Nav.is_active (Nav.highlightNavigation 800 nav_sections nav_links))
   <= 1)%nat.
Proof.
  destruct (highlight_at_most_one nav_links) as [H _].
  - apply (bool_decide_unpack _). vm_compute. exact I.
  - apply (H 800 nav_sections). vm_compute. discriminate.
Defined.

(** ** Mobile menu *)

Section MenuFacts.
Import Menu.

Lemma toggle_flips (c : string) (l : gset string) :
  ClassList.contains c (toggle c l) = negb (ClassList.contains c l).
Proof.
  unfold toggle. destruct (ClassList.contains c l) eqn:E; cbn;
    [apply contains_remove | apply contains_add].
Qed.

Lemma toggle_twice (c : string) (l : gset string) : toggle c (toggle c l) = l.
Proof.
  unfold toggle at 1. rewrite toggle_flips. unfold toggle.
  destruct (ClassList.contains c l) eqn:E; cbn;
    unfold ClassList.contains, ClassList.add, ClassList.remove in *.
  - apply bool_decide_eq_true_1 in E. apply set_eq. intros x.
    rewrite elem_of_union, elem_of_difference, elem_of_singleton.
    split; [intros [-> | [H _]]; assumption |].
    intros H. destruct (decide (x = c)) as [-> | Hne]; [left; reflexivity | right; tauto].
  - apply bool_decide_eq_false_1 in E. apply set_eq. intros x.
    rewrite elem_of_difference, elem_of_union, elem_of_singleton.
    split; [intros [[-> | H] Hne]; [contradiction | assumption] |].
    intros H. split; [right; exact H | intros ->; contradiction].
Qed.

Lemma click_in_sync (t : Target) (s : State) :
  nav_open s = btn_open s -> nav_open (click t s) = btn_open (click t s).
Proof.
  unfold nav_open, btn_open. intros H. destruct t; cbn.
  - rewrite !toggle_flips, H. reflexivity.
  - rewrite !contains_remove. reflexivity.
  - exact H.
  - rewrite !contains_remove. reflexivity.
Qed.

End MenuFacts.

(** The menu and its button open and close together: if their 'active'
    classes agree when the page loads, they agree after every click. *)
Theorem menu_stays_in_sync (l : list Menu.Target) (s : Menu.State) :
  Menu.nav_open s = Menu.btn_open s ->
  Forall (fun s' => Menu.nav_open s' = Menu.btn_open s') (Page.history Menu.click l s).
Proof.
  revert s. induction l as [|t r IH]; intros s Hs.
  - constructor; [exact Hs | constructor].
  - cbn [Page.history]. constructor; [exact Hs |].
    apply IH, click_in_sync. exact Hs.
Qed.

Lemma menu_stays_in_sync_witness :
  Forall (fun s' => Menu.nav_open s' = Menu.btn_open s')
    (Page.history Menu.click [Menu.OnButton; Menu.InNav; Menu.OnLink] menu_closed).
Proof. apply menu_stays_in_sync. vm_compute. reflexivity. Defined.

(** A click on the button flips the menu, and two clicks on it restore the
    class lists exactly; a click on a link of the menu or outside the menu
    and its button closes it; a click inside the menu next to the links
    changes nothing. *)
Theorem menu_clicks (s : Menu.State) :
  Menu.nav_open (Menu.click Menu.OnButton s) = negb (Menu.nav_open s)
  /\ Menu.click Menu.OnButton (Menu.click Menu.OnButton s) = s
  /\ Menu.nav_open (Menu.click Menu.OnLink s) = false
  /\ Menu.nav_open (Menu.click Menu.Elsewhere s) = false
  /\ Menu.btn_open (Menu.click Menu.Elsewhere s) = false
  /\ Menu.click Menu.InNav s = s.
Proof.
  unfold Menu.nav_open, Menu.btn_open. cbn.
  split; [apply toggle_flips |].
  split; [destruct s; unfold Menu.toggle_menu; cbn; rewrite !toggle_twice; reflexivity |].
  split; [apply contains_remove |].
  split; [apply contains_remove |].
  split; [apply contains_remove | reflexivity].
Qed.

(** ** Focus trap *)

(** The keydown listener of [trapFocus] never raises.  It acts only on Tab
    with the focus on the last focusable descendant, and on Shift+Tab with
    the focus on the first: it then moves the focus to the first (last)
    one, which is again a focusable descendant, and prevents the browser's
    default.  For every other key, with the focus anywhere else, and when
    the element has no focusable descendant at all, it neither moves the
    focus nor prevents the default. *)
Theorem trap_wraps_at_ends
    (focusable : list nat) (key : string) (shiftKey : bool) (active : option nat) :
  let edge := if shiftKey then FocusTrap.firstElement focusable
              else FocusTrap.lastElement focusable in
  let dest := if shiftKey then FocusTrap.lastElement focusable
              else FocusTrap.firstElement focusable in
  if String.eqb key "Tab" && FocusTrap.is_active active edge
  then exists y,
         FocusTrap.keydown focusable key shiftKey active = (inr true, Some y)
         /\ dest = Some y /\ y ∈ focusable
  else FocusTrap.keydown focusable key shiftKey active = (inr false, active).
Proof.
  cbv zeta. unfold FocusTrap.keydown.
  destruct (String.eqb key "Tab"); cbn [negb andb]; [| reflexivity].
  js_unfold. unfold FocusTrap.firstElement, FocusTrap.lastElement.
  destruct shiftKey.
  - destruct (FocusTrap.is_active active (head focusable)) eqn:E; [| reflexivity].
    destruct (last focusable) as [l|] eqn:El.
    + js_unfold. exists l. split; [reflexivity |]. split; [reflexivity |].
      apply last_Some_elem_of. exact El.
    + apply last_None in El. subst focusable. destruct active; discriminate.
  - destruct (FocusTrap.is_active active (last focusable)) eqn:E; [| reflexivity].
    destruct (head focusable) as [h|] eqn:Eh.
    + js_unfold. exists h. split; [reflexivity |]. split; [reflexivity |].
      apply head_Some_elem_of. exact Eh.
    + destruct focusable; [destruct active; discriminate | discriminate].
Qed.

(** ** Contact buttons *)

Section ContactFacts.
Import Loop Contact.

Lemma helper_answer (v : Script) (p : Clipboard.Platform) (text : string)
    (d : Clipboard.Document) :
  Clipboard.wf d ->
  fst (Clipboard.copyToClipboard v p text d) = inr (reports_success p).
Proof.
  intros Hwf. unfold reports_success. destruct (Clipboard.write p) eqn:Hw.
  - rewrite (resolved_run v p text d Hw). reflexivity.
  - destruct (fallback_run v p text d Hwf Hw) as (Hr & _). rewrite Hr.
    destruct (Clipboard.copy p); reflexivity.
Qed.

Lemma showToast_page (v : Script) (m : string) (d : option Z) (w : World) (el : Toast.Element) :
  toast (st w) = Some el ->
  pending (showToast v m d w) =
    pending w ++ [Timer (fresh w) (now w + Z.max 0 (default (Toast.default_duration v) d))
                    HideToast]
  /\ now (showToast v m d w) = now w
  /\ fresh (showToast v m d w) = S (fresh w)
  /\ toast_text (showToast v m d w) = Some m
  /\ toast_shown (showToast v m d w) = true
  /\ button_classes (st (showToast v m d w)) = button_classes (st w)
  /\ document (st (showToast v m d w)) = document (st w).
Proof.
  intros Ht. unfold showToast, toast_text, toast_shown. rewrite Ht. cbn.
  repeat split. apply contains_add.
Qed.

End ContactFacts.

(** A click on a contact button.  When the helper reports success the
    button gets the 'copied' class and the toast says "Email copied to
    clipboard" if the contact string contains '@' and "Phone copied to
    clipboard" otherwise (with '!' in script.js); when it reports failure
    the toast says "Copy failed. Please try again." and the button is left
    alone.  On a button without a data-contact attribute a reported
    success adds the class and then raises: the toast is not touched and
    no timer is scheduled. *)
Theorem contact_click_feedback
    (v : Script) (p : Clipboard.Platform) (contactInfo : option string)
    (w : Contact.World) (el : Toast.Element) :
  Clipboard.wf (Contact.document (Loop.st w)) ->
  Contact.toast (Loop.st w) = Some el ->
  let r := Contact.contact_click v p contactInfo w in
  match Contact.reports_success p, contactInfo with
  | true, Some s =>
      fst r = inr tt
      /\ Contact.toast_shown (snd r) = true
      /\ Contact.toast_text (snd r) = Some (Contact.copied_message v s)
      /\ Contact.copied (snd r) = true
  | true, None =>
      fst r = inl TypeError
      /\ Contact.copied (snd r) = true
      /\ Contact.toast (Loop.st (snd r)) = Contact.toast (Loop.st w)
      /\ Loop.pending (snd r) = Loop.pending w
  | false, _ =>
      fst r = inr tt
      /\ Contact.toast_shown (snd r) = true
      /\ Contact.toast_text (snd r) = Some "Copy failed. Please try again."
      /\ Contact.copied (snd r) = Contact.copied w
  end.
Proof.
  intros Hwf Ht r. subst r. unfold Contact.contact_click.
  pose proof (helper_answer v p (Contact.helper_text p contactInfo) _ Hwf) as Hr.
  destruct (Clipboard.copyToClipboard v p (Contact.helper_text p contactInfo)
              (Contact.document (Loop.st w))) as [r d]. cbn in Hr. subst r.
  destruct (Contact.reports_success p).
  - destruct contactInfo as [s|].
    + set (w1 := Loop.with_st (Contact.map_button (ClassList.add "copied")) _).
      destruct (showToast_page v (Contact.copied_message v s) None w1 el Ht)
        as (_ & _ & _ & Htx & Hsh & Hb & _).
      split; [reflexivity |]. split; [exact Hsh |]. split; [exact Htx |].
      unfold Contact.copied. cbn. rewrite Hb. subst w1. cbn. apply contains_add.
    + split; [reflexivity |]. split; [| split; reflexivity].
      unfold Contact.copied. cbn. apply contains_add.
  - set (w1 := Loop.with_st (Contact.set_document d) w).
    destruct (showToast_page v "Copy failed. Please try again." None w1 el Ht)
      as (_ & _ & _ & Htx & Hsh & Hb & _).
    assert (Contact.copied (Contact.showToast v "Copy failed. Please try again." None w1)
            = Contact.copied w) as Hc by (unfold Contact.copied; rewrite Hb; reflexivity).
    destruct contactInfo; (split; [reflexivity |]); repeat split; assumption.
Qed.

Lemma contact_click_feedback_witness :
  fst (Contact.contact_click ScriptJs clipboard_works None contact_page) = inl TypeError
  /\ Contact.copied (snd (Contact.contact_click ScriptJs clipboard_works None contact_page))
     = true
  /\ Loop.pending (snd (Contact.contact_click ScriptJs clipboard_works None contact_page))
     = [].
Proof.
  destruct (contact_click_feedback ScriptJs clipboard_works None
              contact_page sample_toast) as (H1 & H2 & _ & H3).
  - constructor.
  - reflexivity.
  - split; [exact H1 |]. split; [exact H2 | exact H3].
Defined.

(** The email link of the hero section: on success both scripts show their
    message; on failure part_000 shows "Failed to copy email", while
    script.js shows nothing and schedules nothing. *)
Theorem email_click_feedback
    (v : Script) (p : Clipboard.Platform) (w : Contact.World) (el : Toast.Element) :
  Clipboard.wf (Contact.document (Loop.st w)) ->
  Contact.toast (Loop.st w) = Some el ->
  let w' := Contact.email_click v p w in
  match Contact.reports_success p, v with
  | true, ScriptJs => Contact.toast_text w' = Some "Email copied"
  | true, Part000 => Contact.toast_text w' = Some "Email copied to clipboard"
  | false, Part000 => Contact.toast_text w' = Some "Failed to copy email"
  | false, ScriptJs =>
      Contact.toast (Loop.st w') = Contact.toast (Loop.st w)
      /\ Loop.pending w' = Loop.pending w
  end.
Proof.
  intros Hwf Ht w'. subst w'. unfold Contact.email_click.
  pose proof (helper_answer v p "vedpawar1410@gmail.com" _ Hwf) as Hr.
  destruct (Clipboard.copyToClipboard v p "vedpawar1410@gmail.com"
              (Contact.document (Loop.st w))) as [r d]. cbn in Hr. subst r.
  set (w1 := Loop.with_st (Contact.set_document d) w).
  destruct (Contact.reports_success p), v.
  - apply (showToast_page ScriptJs "Email copied" None w1 el Ht).
  - apply (showToast_page Part000 "Email copied to clipboard" None w1 el Ht).
  - split; reflexivity.
  - apply (showToast_page Part000 "Failed to copy email" None w1 el Ht).
Qed.

Lemma email_click_feedback_witness :
  Loop.pending (Contact.email_click ScriptJs clipboard_broken contact_page) = [].
Proof.
  destruct (email_click_feedback ScriptJs clipboard_broken contact_page sample_toast)
    as [_ H].
  - constructor.
  - reflexivity.
  - exact H.
Defined.

Section ContactTimers.
Import Loop Contact.

Lemma durations (v : Script) :
  0 < copied_delay v < Toast.default_duration v.
Proof. destruct v; cbn; lia. Qed.

(* the page right after a click that the helper reported as a success *)
Lemma click_success_world (v : Script) (p : Clipboard.Platform) (contactInfo : string)
    (w : World) (el : Toast.Element) :
  Clipboard.wf (document (st w)) -> toast (st w) = Some el ->
  pending w = [] -> reports_success p = true ->
  let wc := snd (contact_click v p (Some contactInfo) w) in
  pending wc = [Timer (fresh w) (now w + Toast.default_duration v) HideToast;
                Timer (S (fresh w)) (now w + copied_delay v) RemoveCopied]
  /\ now wc = now w
  /\ copied wc = true
  /\ toast_shown wc = true.
Proof.
  intros Hwf Ht Hq Hs wc. subst wc. unfold contact_click. cbn [helper_text].
  pose proof (helper_answer v p contactInfo _ Hwf) as Hr. rewrite Hs in Hr.
  destruct (Clipboard.copyToClipboard v p contactInfo (document (st w))) as [r d].
  cbn in Hr. subst r. cbn [snd].
  set (w1 := with_st (map_button (ClassList.add "copied")) _).
  destruct (showToast_page v (copied_message v contactInfo) None w1 el Ht)
    as (Hp & Hn & Hf & _ & Hsh & Hb & _).
  pose proof (durations v) as Hd.
  set (w2 := showToast v (copied_message v contactInfo) None w1) in *.
  change (pending w1) with (pending w) in Hp. rewrite Hq in Hp.
  change (fresh w1) with (fresh w) in Hp, Hf. change (now w1) with (now w) in Hp, Hn.
  cbn [default app] in Hp. clearbody w2.
  cbn. rewrite Hp, Hn, Hf. cbn [app]. rewrite !Z.max_r by lia.
  split; [reflexivity |]. split; [reflexivity |]. split.
  - unfold copied. cbn. rewrite Hb. subst w1. cbn. apply contains_add.
  - exact Hsh.
Qed.

(* the page right after a reported success on a button without data-contact *)
Lemma click_null_world (v : Script) (p : Clipboard.Platform) (w : World) :
  Clipboard.wf (document (st w)) -> reports_success p = true ->
  let wc := snd (contact_click v p None w) in
  pending wc = pending w /\ copied wc = true /\ toast (st wc) = toast (st w).
Proof.
  intros Hwf Hs wc. subst wc. unfold contact_click.
  pose proof (helper_answer v p (helper_text p None) _ Hwf) as Hr. rewrite Hs in Hr.
  destruct (Clipboard.copyToClipboard v p (helper_text p None) (document (st w))) as [r d].
  cbn in Hr. subst r. cbn [snd].
  split; [reflexivity |]. split; [| reflexivity].
  unfold copied. cbn. apply contains_add.
Qed.

End ContactTimers.

(** After a successful copy from a quiet page the button keeps the
    'copied' class for 600 ms (script.js) or 1500 ms (part_000) and the
    toast stays for 2000 ms or 2500 ms: at any later time [T] the class is
    there exactly when [T] is before the first deadline and the toast
    exactly when [T] is before the second.  On a button without a
    data-contact attribute the class is there at every later time, and the
    toast is never touched. *)
Theorem copied_class_lifecycle
    (v : Script) (p : Clipboard.Platform) (contactInfo : option string)
    (w : Contact.World) (el : Toast.Element) (T : Z) (fuel : nat) :
  Clipboard.wf (Contact.document (Loop.st w)) ->
  Contact.toast (Loop.st w) = Some el ->
  Loop.pending w = [] ->
  Contact.reports_success p = true ->
  (2 <= fuel)%nat ->
  exists w',
    Loop.advance Contact.run fuel T (snd (Contact.contact_click v p contactInfo w)) = Some w'
    /\ match contactInfo with
       | Some _ =>
           (Contact.copied w' = true <-> T < Loop.now w + Contact.copied_delay v)
           /\ (Contact.toast_shown w' = true <-> T < Loop.now w + Toast.default_duration v)
       | None =>
           Contact.copied w' = true
           /\ Contact.toast (Loop.st w') = Contact.toast (Loop.st w)
       end.
Proof.
  intros Hwf Ht Hq Hs Hfuel.
  destruct contactInfo as [contactInfo|]; cycle 1.
  { destruct (click_null_world v p w Hwf Hs) as (Hp & Hc & Hto).
    set (wc := snd (Contact.contact_click v p None w)) in *. clearbody wc.
    rewrite Hq in Hp.
    rewrite (advance_idle Contact.run fuel T wc (next_due_nil _ _ Hp)).
    eexists. split; [reflexivity |]. split; [exact Hc | exact Hto]. }
  destruct (click_success_world v p contactInfo w el Hwf Ht Hq Hs) as (Hp & Hn & Hc & Hsh).
  pose proof (durations v) as Hd.
  set (wc := snd (Contact.contact_click v p (Some contactInfo) w)) in *. clearbody wc.
  set (th := Loop.Timer (Loop.fresh w) (Loop.now w + Toast.default_duration v)
               Contact.HideToast) in *.
  set (tr := Loop.Timer (S (Loop.fresh w)) (Loop.now w + Contact.copied_delay v)
               Contact.RemoveCopied) in *.
  destruct fuel as [|[|f]]; [lia | lia |].
  destruct (Z.ltb_spec T (Loop.now w + Contact.copied_delay v)) as [Hearly | Hlate].
  - (* nothing is due *)
    assert (Loop.next_due T wc = None) as Hidle.
    { apply next_due_none. rewrite Hp. repeat constructor; cbn; lia. }
    rewrite (advance_idle Contact.run _ T wc Hidle).
    eexists. split; [reflexivity |].
    change (Contact.copied (Loop.with_now _ wc)) with (Contact.copied wc).
    change (Contact.toast_shown (Loop.with_now _ wc)) with (Contact.toast_shown wc).
    rewrite Hc, Hsh. split; split; intros _; (reflexivity || lia).
  - (* the class is removed *)
    assert (Loop.next_due T wc = Some tr) as Hd1.
    { unfold Loop.next_due. rewrite Hp. subst th tr. cbn.
      destruct (Z.ltb_spec (Loop.now w + Contact.copied_delay v)
                           (Loop.now w + Toast.default_duration v)); [| lia].
      cbn. destruct (Z.leb_spec (Loop.now w + Contact.copied_delay v) T); [reflexivity | lia]. }
    rewrite (advance_fire Contact.run (S f) T wc _ Hd1).
    set (w2 := Contact.run _ _).
    assert (Loop.pending w2 = [th]) as Hp2.
    { subst w2 th tr. cbn -[Nat.eqb]. rewrite Hp. cbn -[Nat.eqb].
      rewrite Nat.eqb_refl.
      destruct (Nat.eqb_spec (Loop.fresh w) (S (Loop.fresh w))); [lia | reflexivity]. }
    assert (Contact.copied w2 = false) as Hc2.
    { subst w2 tr. unfold Contact.copied. cbn. apply contains_remove. }
    assert (Contact.toast_shown w2 = true) as Hsh2 by (subst w2 tr; exact Hsh).
    clearbody w2.
    destruct (Z.ltb_spec T (Loop.now w + Toast.default_duration v)) as [Hmid | Hend].
    + assert (Loop.next_due T w2 = None) as Hidle.
      { apply next_due_none. rewrite Hp2. repeat constructor; cbn; lia. }
      rewrite (advance_idle Contact.run _ T w2 Hidle).
      eexists. split; [reflexivity |].
      change (Contact.copied (Loop.with_now _ w2)) with (Contact.copied w2).
      change (Contact.toast_shown (Loop.with_now _ w2)) with (Contact.toast_shown w2).
      rewrite Hc2, Hsh2. split; split; intros H; try reflexivity; try lia; discriminate.
    + assert (Loop.next_due T w2 = Some th) as Hd2.
      { unfold Loop.next_due. rewrite Hp2. subst th. cbn.
        destruct (Z.leb_spec (Loop.now w + Toast.default_duration v) T); [reflexivity | lia]. }
      rewrite (advance_fire Contact.run f T w2 _ Hd2).
      set (w3 := Contact.run _ _).
      assert (Loop.pending w3 = []) as Hp3.
      { subst w3 th. cbn. rewrite Hp2. cbn. rewrite Nat.eqb_refl. reflexivity. }
      assert (Contact.copied w3 = false) as Hc3 by (subst w3 th; exact Hc2).
      assert (Contact.toast_shown w3 = false) as Hsh3.
      { subst w3 th. unfold Contact.toast_shown. cbn.
        destruct (Contact.toast (Loop.st w2)); cbn; [apply contains_remove | reflexivity]. }
      clearbody w3.
      rewrite (advance_idle Contact.run f T w3 (next_due_nil _ _ Hp3)).
      eexists. split; [reflexivity |].
      change (Contact.copied (Loop.with_now _ w3)) with (Contact.copied w3).
      change (Contact.toast_shown (Loop.with_now _ w3)) with (Contact.toast_shown w3).
      rewrite Hc3, Hsh3. split; split; intros H; try lia; discriminate.
Qed.

Lemma copied_class_lifecycle_witness :
  exists w',
    Loop.advance Contact.run 2 1000
      (snd (Contact.contact_click ScriptJs clipboard_works (Some "+1 555 0100") contact_page))
      = Some w'
    /\ (Contact.copied w' = true <-> 1000 < 0 + 600)
        /\ (Contact.toast_shown w' = true <-> 1000 < 0 + 2000).
Proof.
  apply (copied_class_lifecycle ScriptJs clipboard_works (Some "+1 555 0100")
           contact_page sample_toast 1000 2).
  - constructor.
  - reflexivity.
  - reflexivity.
  - reflexivity.
  - lia.
Defined.

(** ** A dot without data-slide *)

Section NaNFacts.
Import Loop Project Arrows.




End NaNFacts.


